(** * Nelder-Mead downhill simplex minimiser: a shallow embedding

    The C++ member functions [optimization::NelderMead::minimize] and
    [optimization::NelderMead::reflect] are embedded as Rocq functions over an
    explicit run state.  Every [operator[]] of the source is a checked [load]
    or [store]; an index outside the vector is the undefined behaviour of the
    C++ program and is reported as [Undefined].  The [while (true)] loop is
    unrolled with fuel.  The three overloads of [minimize] are [minimize]
    (an explicit simplex), [minimize_deltas] (a point and a vector of steps)
    and [minimize_delta] (a point and one step).

    The arithmetic of [double] is an interface ([DoubleOps]).  Its instance
    [float_ops] is IEEE 754 binary64, what the compiled program computes with;
    its instance [Q_ops] is exact rational arithmetic.  The theorems that
    compare values use the order laws ([OrderLaws]), which binary64 obeys on
    every value but NaN; the geometry of the trial point needs the field
    laws and is stated in exact arithmetic.  Sizes and the evaluation counter
    are natural numbers: the class declaration, with the types of
    [num_evals_] and [MAX_ITERS_], is not among the sources, and no
    wrap-around is modelled. *)

From Stdlib Require Import ZArith QArith Qabs Qfield Lia Bool.
From Stdlib Require Import Floats Numbers.Cyclic.Int63.Uint63.
From stdpp Require Import base list.

(** ** The arithmetic of [double] *)

Class DoubleOps (D : Type) := {
  d_zero : D;                      (* 0.0, the value of a fresh vector element *)
  d_half : D;                      (* 0.5 *)
  d_one : D;                       (* 1.0 *)
  d_two : D;                       (* 2.0 *)
  d_minus_one : D;                 (* -1.0 *)
  d_of_nat : nat -> D;             (* static_cast<double>(unsigned int) *)
  dadd : D -> D -> D;
  dsub : D -> D -> D;
  dmul : D -> D -> D;
  ddiv : D -> D -> D;
  dabs : D -> D;                   (* std::abs *)
  dltb : D -> D -> bool;           (* a < b *)
  dleb : D -> D -> bool            (* a <= b *)
}.

(** [a > b] and [a >= b] are the mirrored comparisons, as in IEEE 754. *)
Definition dgtb `{DoubleOps D} (a b : D) : bool := dltb b a.
Definition dgeb `{DoubleOps D} (a b : D) : bool := dleb b a.

(** The order laws of the comparisons, for the values that are [number]s:
    every value in exact arithmetic, every value but NaN in IEEE 754. *)
Class OrderLaws (D : Type) `{DoubleOps D} := {
  number : D -> Prop;
  dleb_total : forall a b : D, number a -> number b -> dleb a b = true \/ dleb b a = true;
  dleb_trans : forall a b c : D, dleb a b = true -> dleb b c = true -> dleb a c = true;
  dltb_dleb : forall a b : D, number a -> number b -> dltb a b = negb (dleb b a)
}.

#[export] Instance float_ops : DoubleOps float := {
  d_zero := 0%float;
  d_half := 0.5%float;
  d_one := 1%float;
  d_two := 2%float;
  d_minus_one := (-1)%float;
  d_of_nat n := PrimFloat.of_uint63 (Uint63.of_Z (Z.of_nat n));
  dadd := PrimFloat.add;
  dsub := PrimFloat.sub;
  dmul := PrimFloat.mul;
  ddiv := PrimFloat.div;
  dabs := PrimFloat.abs;
  dltb := PrimFloat.ltb;
  dleb := PrimFloat.leb
}.

(** Exact rational arithmetic.  Its quotient [x / 0] is [0] (Rocq's [Qdiv]),
    where [double] gives NaN or an infinity: what is stated in exact
    arithmetic about a quotient is stated where its divisor is not 0. *)
#[export] Instance Q_ops : DoubleOps Q := {
  d_zero := 0%Q;
  d_half := (1 # 2)%Q;
  d_one := 1%Q;
  d_two := 2%Q;
  d_minus_one := (-1)%Q;
  d_of_nat n := inject_Z (Z.of_nat n);
  dadd := Qplus;
  dsub := Qminus;
  dmul := Qmult;
  ddiv := Qdiv;
  dabs := Qabs;
  dltb a b := negb (Qle_bool b a);
  dleb := Qle_bool
}.

(** ** Results of a run *)

(** The only exception the source throws is the [std::runtime_error] of
    line 106. *)
Inductive exn := MaxIterationsExceeded.

Inductive result (A : Type) :=
  | Ok (a : A)
  | Throw (e : exn)
  | Undefined      (* an [operator[]] outside its vector *)
  | OutOfFuel.     (* the unrolling of [while (true)] ran out *)
Arguments Ok {A} a.
Arguments Throw {A} e.
Arguments Undefined {A}.
Arguments OutOfFuel {A}.

#[export] Instance result_ret : MRet result := fun A a => Ok a.
#[export] Instance result_bind : MBind result := fun A B k m =>
  match m with
  | Ok a => k a
  | Throw e => Throw e
  | Undefined => Undefined
  | OutOfFuel => OutOfFuel
  end.

(** [v[i]] read and written. *)
Definition load {A} (i : nat) (v : list A) : result A :=
  match v !! i with
  | Some x => Ok x
  | None => Undefined
  end.

Definition store {A} (i : nat) (x : A) (v : list A) : result (list A) :=
  if decide (i < length v) then Ok (<[i := x]> v) else Undefined.

(** [for (unsigned int k = i; k < i + n; ++k) body], threading the
    variables the body assigns. *)
Fixpoint for_loop {St} (body : nat -> St -> result St) (i n : nat) (s : St) : result St :=
  match n with
  | 0 => Ok s
  | S n' => s' ← body i s; for_loop body (S i) n' s'
  end.

(** ** The run state *)

Section NelderMead.
Context {D : Type} `{DoubleOps D}.

(** The members of the [NelderMead] object that [minimize] assigns, the local
    [simplex_sums] that [minimize] hands to [reflect] by reference, and
    [evaluated], the arguments [objective_function] was called with, oldest
    first (an instrument of the model: the source keeps no such list). *)
Record state := mkState {
  num_dimensions_ : nat;
  num_points_ : nat;
  simplex_ : list (list D);
  func_vals_ : list D;
  num_evals_ : nat;
  simplex_sums : list D;
  evaluated : list (list D)
}.

Definition set_simplex_ (simplex : list (list D)) (st : state) : state :=
  mkState (num_dimensions_ st) (num_points_ st) simplex (func_vals_ st)
          (num_evals_ st) (simplex_sums st) (evaluated st).
Definition set_func_vals_ (vals : list D) (st : state) : state :=
  mkState (num_dimensions_ st) (num_points_ st) (simplex_ st) vals
          (num_evals_ st) (simplex_sums st) (evaluated st).
Definition set_num_evals_ (n : nat) (st : state) : state :=
  mkState (num_dimensions_ st) (num_points_ st) (simplex_ st) (func_vals_ st)
          n (simplex_sums st) (evaluated st).
Definition set_simplex_sums (sums : list D) (st : state) : state :=
  mkState (num_dimensions_ st) (num_points_ st) (simplex_ st) (func_vals_ st)
          (num_evals_ st) sums (evaluated st).
Definition set_evaluated (log : list (list D)) (st : state) : state :=
  mkState (num_dimensions_ st) (num_points_ st) (simplex_ st) (func_vals_ st)
          (num_evals_ st) (simplex_sums st) log.

(** The objective function and the constants of the class declaration, which
    is not among the sources: they are parameters of the embedding. *)
Variable objective_function : list D -> D.
Variable EPSILON_ : D.
Variable function_tol_ : D.
Variable MAX_ITERS_ : nat.

(** [objective_function(point)]: the value, and the call recorded. *)
Definition call_objective (point : list D) (st : state) : D * state :=
  (objective_function point, set_evaluated (evaluated st ++ [point]) st).

(** Modelled from the spec: the member function [dimension_sums], called at
    lines 65 and 142 and defined in none of the sources.  The spec describes
    its result as "a cached vector of per-coordinate sums across all
    vertices": entry [j], for each of the [num_dimensions_] coordinates, is
    the sum of coordinate [j] over the rows of the simplex. *)
Definition dimension_sums (num_dimensions : nat) (simplex : list (list D)) : list D :=
  (fun j => foldl dadd d_zero ((fun row => nth j row d_zero) <$> simplex))
    <$> seq 0 num_dimensions.

(** ** [reflect], lines 150-178 *)

(** Lines 157-164: the trial point. *)
Definition reflect_point (st : state) (index_worst : nat) (factor : D) : result (list D) :=
  let evaluations := replicate (num_dimensions_ st) d_zero in
  let factor1 := ddiv (dsub d_one factor) (d_of_nat (num_dimensions_ st)) in
  let factor2 := dsub factor1 factor in
  for_loop (fun j evaluations =>
      sum_j ← load j (simplex_sums st);
      worst ← load index_worst (simplex_ st);
      worst_j ← load j worst;
      store j (dsub (dmul sum_j factor1) (dmul worst_j factor2)) evaluations)
    0 (num_dimensions_ st) evaluations.

(** Lines 171-174: the trial point replaces the worst vertex. *)
Definition reflect_commit (evaluations : list D) (index_worst : nat) (st : state)
  : result state :=
  for_loop (fun j st =>
      e_j ← load j evaluations;
      sum_j ← load j (simplex_sums st);
      worst ← load index_worst (simplex_ st);
      worst_j ← load j worst;
      sums ← store j (dadd sum_j (dsub e_j worst_j)) (simplex_sums st);
      worst' ← store j e_j worst;
      simplex ← store index_worst worst' (simplex_ st);
      mret (set_simplex_ simplex (set_simplex_sums sums st)))
    0 (num_dimensions_ st) st.

Definition reflect (st : state) (index_worst : nat) (factor : D) : result (D * state) :=
  evaluations ← reflect_point st index_worst factor;
  let '(objective_value, st) := call_objective evaluations st in
  worst_val ← load index_worst (func_vals_ st);
  if dltb objective_value worst_val then
    vals ← store index_worst objective_value (func_vals_ st);
    st ← reflect_commit evaluations index_worst (set_func_vals_ vals st);
    mret (objective_value, st)
  else mret (objective_value, st).

(** ** [minimize] on an explicit simplex, lines 40-148 *)

(** Lines 70-87: the ranking pass; the result is
    [(index_low, index_high, index_next_high)]. *)
Definition rank (st : state) : result (nat * nat * nat) :=
  f_0 ← load 0 (func_vals_ st);
  f_1 ← load 1 (func_vals_ st);
  let '(index_high, index_next_high) := if dgtb f_0 f_1 then (0, 1) else (1, 0) in
  for_loop (fun i '(index_low, index_high, index_next_high) =>
      f_i ← load i (func_vals_ st);
      f_low ← load index_low (func_vals_ st);
      let index_low := if dleb f_i f_low then i else index_low in
      f_high ← load index_high (func_vals_ st);
      if dgtb f_i f_high then mret (index_low, i, index_high)
      else
        f_next_high ← load index_next_high (func_vals_ st);
        if dgtb f_i f_next_high && bool_decide (i ≠ index_high)
        then mret (index_low, index_high, i)
        else mret (index_low, index_high, index_next_high))
    0 (num_points_ st) (0, index_high, index_next_high).

(** Lines 90-93. *)
Definition tolerance (st : state) (index_low index_high : nat) : result D :=
  f_high ← load index_high (func_vals_ st);
  f_low ← load index_low (func_vals_ st);
  mret (ddiv (dmul d_two (dabs (dsub f_high f_low)))
             (dadd (dadd (dabs f_high) (dabs f_low)) EPSILON_)).

(** What a successful run hands back: the returned vector [simplex_mins],
    the member [func_min_] (assigned at line 100 only) and the final state. *)
Record minimum := mkMinimum {
  simplex_mins : list D;
  func_min_ : D;
  final : state
}.

(** Lines 97-102. *)
Definition converged (index_low : nat) (st : state) : result minimum :=
  f_0 ← load 0 (func_vals_ st);
  f_low ← load index_low (func_vals_ st);
  vals ← store 0 f_low (func_vals_ st);
  vals ← store index_low f_0 vals;
  p_0 ← load 0 (simplex_ st);
  p_low ← load index_low (simplex_ st);
  simplex ← store 0 p_low (simplex_ st);
  simplex ← store index_low p_0 simplex;
  mins ← load 0 simplex;
  fmin ← load 0 vals;
  mret (mkMinimum mins fmin (set_simplex_ simplex (set_func_vals_ vals st))).

(** Lines 132-142: contraction around the best point. *)
Definition shrink (index_low : nat) (st : state) : result state :=
  st ← for_loop (fun i st =>
      if bool_decide (i ≠ index_low) then
        st ← for_loop (fun j st =>
            p_i ← load i (simplex_ st);
            p_ij ← load j p_i;
            p_low ← load index_low (simplex_ st);
            p_lowj ← load j p_low;
            sums ← store j (dmul d_half (dadd p_ij p_lowj)) (simplex_sums st);
            sum_j ← load j sums;
            p_i' ← store j sum_j p_i;
            simplex ← store i p_i' (simplex_ st);
            mret (set_simplex_ simplex (set_simplex_sums sums st)))
          0 (num_dimensions_ st) st;
        let '(value, st) := call_objective (simplex_sums st) st in
        vals ← store i value (func_vals_ st);
        mret (set_func_vals_ vals st)
      else mret st)
    0 (num_points_ st) st;
  let st := set_num_evals_ (num_evals_ st + num_dimensions_ st) st in
  mret (set_simplex_sums (dimension_sums (num_dimensions_ st) (simplex_ st)) st).

(** Lines 111-146: one move of the simplex. *)
Definition geometric_operator (index_low index_high index_next_high : nat) (st : state)
  : result state :=
  let st := set_num_evals_ (num_evals_ st + 2) st in
  '(reflection, st) ← reflect st index_high d_minus_one;
  f_low ← load index_low (func_vals_ st);
  if dleb reflection f_low then
    '(_, st) ← reflect st index_high d_two;
    mret st
  else
    f_next_high ← load index_next_high (func_vals_ st);
    if dgeb reflection f_next_high then
      let func_next_high := f_next_high in
      '(reflection, st) ← reflect st index_high d_half;
      if dgeb reflection func_next_high then shrink index_low st else mret st
    else mret (set_num_evals_ (num_evals_ st - 1) st).

(** Lines 70-146: the body of [while (true)]. *)
Inductive step :=
  | Return (m : minimum)
  | Continue (st : state).

Definition iteration (st : state) : result step :=
  '(index_low, index_high, index_next_high) ← rank st;
  tol ← tolerance st index_low index_high;
  if dltb tol function_tol_ then
    m ← converged index_low st;
    mret (Return m)
  else if decide (MAX_ITERS_ ≤ num_evals_ st) then Throw MaxIterationsExceeded
  else
    st ← geometric_operator index_low index_high index_next_high st;
    mret (Continue st).

Fixpoint iterate (fuel : nat) (st : state) : result minimum :=
  match fuel with
  | 0 => OutOfFuel
  | S fuel =>
      s ← iteration st;
      match s with
      | Return m => mret m
      | Continue st => iterate fuel st
      end
  end.

(** Lines 57-62: the objective at the points of the simplex.
    [evaluation_point] is declared outside the loop and lives across its
    rounds. *)
Definition evaluate_simplex (st : state) : result state :=
  '(_, st) ← for_loop (fun i '(evaluation_point, st) =>
      evaluation_point ← for_loop (fun j evaluation_point =>
          p_i ← load i (simplex_ st);
          p_ij ← load j p_i;
          store j p_ij evaluation_point)
        0 (num_dimensions_ st) evaluation_point;
      let '(value, st) := call_objective evaluation_point st in
      vals ← store i value (func_vals_ st);
      mret (evaluation_point, set_func_vals_ vals st))
    0 (num_points_ st) (replicate (num_dimensions_ st) d_zero, st);
  mret st.

(** Lines 46-65: the state at the first round of the loop.  [resize] leaves
    in [func_vals_] what an earlier run left there; line 61 assigns every
    entry before anything reads it, so the embedding starts from zeros. *)
Definition initialize (initial_simplex : list (list D)) : result state :=
  let num_dimensions := length initial_simplex in
  p_0 ← load 0 initial_simplex;
  let num_points := length p_0 in
  st ← evaluate_simplex
         (mkState num_dimensions num_points initial_simplex
                  (replicate num_points d_zero) 0
                  (replicate num_dimensions d_zero) []);
  let st := set_num_evals_ 0 st in
  mret (set_simplex_sums (dimension_sums (num_dimensions_ st) (simplex_ st)) st).

Definition minimize (fuel : nat) (initial_simplex : list (list D)) : result minimum :=
  st ← initialize initial_simplex;
  iterate fuel st.

(** ** [minimize] from a point and its steps, lines 6-38 *)

(** Lines 22-34: the simplex built around the point, from a matrix of
    [num_dimensions_ + 1] rows of [num_dimensions_] zeros (line 25).  Line 28
    writes [initial_point(j)]; a [std::vector] has no call operator, and the
    line is read as [initial_point[j]], the one reading that gives it a
    meaning. *)
Definition build_simplex (initial_point deltas : list D) : result (list (list D)) :=
  let num_dimensions := length initial_point in
  for_loop (fun i simplex =>
      simplex ← for_loop (fun j simplex =>
          x_j ← load j initial_point;
          p_i ← load i simplex;
          p_i' ← store j x_j p_i;
          store i p_i' simplex)
        0 num_dimensions simplex;
      if bool_decide (i ≠ 0) then
        p_i ← load i simplex;
        p_ii ← load (i - 1) p_i;
        delta ← load (i - 1) deltas;
        p_i' ← store (i - 1) (dadd p_ii delta) p_i;
        store i p_i' simplex
      else mret simplex)
    0 (num_dimensions + 1)
    (replicate (num_dimensions + 1) (replicate num_dimensions d_zero)).

(** Lines 17-38: the overload of [minimize] that takes a point and a vector
    of steps. *)
Definition minimize_deltas (fuel : nat) (initial_point deltas : list D) : result minimum :=
  simplex ← build_simplex initial_point deltas;
  minimize fuel simplex.

(** Lines 6-15: the overload of [minimize] that takes a point and one step.
    Line 11 writes [initial_point.size] for [initial_point.size()]. *)
Definition minimize_delta (fuel : nat) (initial_point : list D) (delta : D) : result minimum :=
  let deltas := replicate (length initial_point) delta in
  minimize_deltas fuel initial_point deltas.

End NelderMead.

Arguments state D : clear implicits.
Arguments minimum D : clear implicits.
Arguments step D : clear implicits.

(** * Closed forms

    What the loops of the source compute, said with operations on whole
    vectors; the properties below show the embedding equal to them. *)

Definition no_throw {A} (m : result A) : Prop := forall e, m ≠ Throw e.

Section ClosedForms.
Context {D : Type} `{DoubleOps D}.
Variable objective_function : list D -> D.
Variable EPSILON_ : D.
Variable function_tol_ : D.
Variable MAX_ITERS_ : nat.

(** A state whose simplex is a matrix of [num_points_] rows and
    [num_dimensions_] columns, with the paired vectors of matching length. *)
Definition rectangular (st : state D) : Prop :=
  length (simplex_ st) = num_points_ st /\
  Forall (fun p => length p = num_dimensions_ st) (simplex_ st) /\
  length (func_vals_ st) = num_points_ st /\
  length (simplex_sums st) = num_dimensions_ st.

(** The coordinates [reflect] assigns at line 163, all at once. *)
Definition trial_point (n : nat) (sums worst : list D) (factor : D) : list D :=
  let factor1 := ddiv (dsub d_one factor) (d_of_nat n) in
  let factor2 := dsub factor1 factor in
  zip_with (fun sum_j worst_j => dsub (dmul sum_j factor1) (dmul worst_j factor2))
           sums worst.

(** The trial point [reflect] evaluates for a worst vertex and a factor. *)
Definition trial_of (index_worst : nat) (factor : D) (st : state D) : list D :=
  trial_point (num_dimensions_ st) (simplex_sums st)
              (default [] (simplex_ st !! index_worst)) factor.

(** [func_vals_[k]], for an index inside the vector. *)
Definition value_at (st : state D) (k : nat) : D := default d_zero (func_vals_ st !! k).

(** The values are the objective at the vertices. *)
Definition paired (st : state D) : Prop :=
  func_vals_ st = objective_function <$> simplex_ st.

(** The state after lines 169-174: the trial point in place of the worst
    vertex, its value in place of the worst value, and every sum moved by
    new minus old. *)
Definition replace_worst (evaluations : list D) (value : D) (index_worst : nat)
    (st : state D) : state D :=
  let worst := default [] (simplex_ st !! index_worst) in
  mkState (num_dimensions_ st) (num_points_ st)
          (<[index_worst := evaluations]> (simplex_ st))
          (<[index_worst := value]> (func_vals_ st))
          (num_evals_ st)
          (zip_with dadd (simplex_sums st) (zip_with dsub evaluations worst))
          (evaluated st).

(** [reflect] in one piece: the trial point is evaluated, and replaces the
    worst vertex when its value is below the worst value. *)
Definition try_replace (index_worst : nat) (factor : D) (st : state D) : D * state D :=
  let worst := default [] (simplex_ st !! index_worst) in
  let trial := trial_point (num_dimensions_ st) (simplex_sums st) worst factor in
  let '(value, st) := call_objective objective_function trial st in
  (value,
   if dltb value (default d_zero (func_vals_ st !! index_worst))
   then replace_worst trial value index_worst st
   else st).

(** The points [minimize] evaluates first: the first [num_points_] rows,
    each cut to its first [num_dimensions_] coordinates. *)
Definition first_points (st : state D) : list (list D) :=
  take (num_dimensions_ st) <$> take (num_points_ st) (simplex_ st).

(** The point halfway between two points, line 135. *)
Definition halfway (p q : list D) : list D :=
  zip_with (fun p_j q_j => dmul d_half (dadd p_j q_j)) p q.

(** Every vertex but the best moved halfway toward the best. *)
Definition shrunk_simplex (index_low : nat) (simplex : list (list D)) : list (list D) :=
  let best := default [] (simplex !! index_low) in
  imap (fun i p => if bool_decide (i ≠ index_low) then halfway p best else p) simplex.

(** The state after lines 132-142. *)
Definition shrink_all (index_low : nat) (st : state D) : state D :=
  let simplex := shrunk_simplex index_low (simplex_ st) in
  mkState (num_dimensions_ st) (num_points_ st) simplex
          (imap (fun i value =>
                   if bool_decide (i ≠ index_low)
                   then objective_function (default [] (simplex !! i))
                   else value)
                (func_vals_ st))
          (num_evals_ st + num_dimensions_ st)
          (dimension_sums (num_dimensions_ st) simplex)
          (evaluated st ++ delete index_low simplex).

(** What a move costs: the change of the counter, and the calls of the
    objective it makes. *)
Definition move_cost (st st' : state D) : Prop :=
  let calls := length (evaluated st') - length (evaluated st) in
  length (evaluated st) <= length (evaluated st') /\
  ((num_evals_ st' = num_evals_ st + 1 /\ calls = 1) \/
   (num_evals_ st' = num_evals_ st + 2 /\ calls = 2) \/
   (num_evals_ st' = num_evals_ st + 2 + num_dimensions_ st /\
    calls = 2 + (num_points_ st - 1))).

(** One move, lines 111-146, said with [try_replace] and [shrink_all].
    [expands] is the test that sends the move to the expansion; the values
    compared with the reflected value are read after the reflection, as the
    source reads them. *)
Definition move (expands : D -> D -> bool) (index_low index_high index_next_high : nat)
    (st : state D) : state D :=
  let st := set_num_evals_ (num_evals_ st + 2) st in
  let '(reflection, st) := try_replace index_high d_minus_one st in
  if expands reflection (value_at st index_low) then
    (try_replace index_high d_two st).2
  else if dgeb reflection (value_at st index_next_high) then
    let second_worst := value_at st index_next_high in
    let '(contraction, st) := try_replace index_high d_half st in
    if dgeb contraction second_worst then shrink_all index_low st else st
  else set_num_evals_ (num_evals_ st - 1) st.

(** One move in the words of the claim, with the values of the ranking:
    reflect with factor -1; when [expands] holds of the reflected value and
    the best value, try the expansion with factor 2; else, when the reflected
    value is no better than the second-worst value, try the contraction with
    factor 0.5 and shrink when the contracted value is still no better than
    that second-worst value; otherwise the reflected vertex is the new worst
    vertex and one evaluation is charged. *)
Definition simplex_move (expands : D -> D -> bool)
    (index_low index_high index_next_high : nat) (st : state D) : state D :=
  let best := value_at st index_low in
  let second_worst := value_at st index_next_high in
  let st := set_num_evals_ (num_evals_ st + 2) st in
  let trial := trial_of index_high d_minus_one st in
  let '(reflection, st1) := try_replace index_high d_minus_one st in
  if expands reflection best then
    (try_replace index_high d_two st1).2
  else if dgeb reflection second_worst then
    let '(contraction, st2) := try_replace index_high d_half st1 in
    if dgeb contraction second_worst
    then shrink_all index_low st2
    else st2
  else
    set_num_evals_ (num_evals_ st - 1)
      (replace_worst trial reflection index_high
         (set_evaluated (evaluated st ++ [trial]) st)).

(** The centroid of the vertices other than [index_worst], coordinate [j]. *)
Definition centroid_without (index_worst : nat) (simplex : list (list D)) (j : nat) : D :=
  ddiv (foldl dadd d_zero ((fun row => nth j row d_zero) <$> delete index_worst simplex))
       (d_of_nat (length simplex - 1)).

(** The fractional spread of lines 90-93. *)
Definition spread (st : state D) (index_low index_high : nat) : D :=
  ddiv (dmul d_two (dabs (dsub (value_at st index_high) (value_at st index_low))))
       (dadd (dadd (dabs (value_at st index_high)) (dabs (value_at st index_low)))
             EPSILON_).

(** The result of lines 97-102: the best vertex and its value change places
    with vertex 0 and value 0, and are handed back. *)
Definition swapped_to_front (index_low : nat) (st : state D) : minimum D :=
  let p_0 := default [] (simplex_ st !! 0) in
  let p_low := default [] (simplex_ st !! index_low) in
  mkMinimum p_low (value_at st index_low)
    (set_simplex_ (<[index_low := p_0]> (<[0 := p_low]> (simplex_ st)))
       (set_func_vals_ (<[index_low := value_at st 0]>
                          (<[0 := value_at st index_low]> (func_vals_ st))) st)).

(** A round, for a state whose ranking is known. *)
Definition round (index_low index_high index_next_high : nat) (st : state D)
  : result (step D) :=
  if dltb (spread st index_low index_high) function_tol_ then
    Ok (Return (swapped_to_front index_low st))
  else if decide (MAX_ITERS_ <= num_evals_ st) then Throw MaxIterationsExceeded
  else Ok (Continue (move dleb index_low index_high index_next_high st)).

(** What the ranking pass of lines 70-87 establishes: [index_low] is the last
    index of the least value; [index_high] carries the greatest value, and no
    index from 1 on before it carries as much; [index_next_high] is another
    index and carries the greatest value of the others. *)
Definition ranked (st : state D) (index_low index_high index_next_high : nat) : Prop :=
  let v := value_at st in
  let n := num_points_ st in
  index_low < n /\ index_high < n /\ index_next_high < n /\
  index_next_high ≠ index_high /\
  (forall k, k < n -> dleb (v index_low) (v k) = true) /\
  (forall k, index_low < k < n -> dltb (v index_low) (v k) = true) /\
  (forall k, k < n -> dleb (v k) (v index_high) = true) /\
  (forall k, 1 <= k < index_high -> dltb (v k) (v index_high) = true) /\
  (forall k, k < n -> k ≠ index_high -> dleb (v k) (v index_next_high) = true) /\
  (index_high = 0 -> dgtb (v 0) (v 1) = true).

(** The simplex of lines 22-34: the point itself, then for each coordinate
    the point with that coordinate moved by its step. *)
Definition built_simplex (initial_point deltas : list D) : list (list D) :=
  initial_point ::
  imap (fun k x_k => <[k := dadd x_k (nth k deltas d_zero)]> initial_point) initial_point.

(** The simplexes on which lines 47-62 stay inside their vectors: there is a
    row 0, it has no more entries than the simplex has rows, and each of the
    rows it counts has at least as many entries as the simplex has rows. *)
Definition in_range (initial_simplex : list (list D)) : Prop :=
  exists p_0,
    initial_simplex !! 0 = Some p_0 /\
    length p_0 <= length initial_simplex /\
    forall i p, i < length p_0 -> initial_simplex !! i = Some p ->
                length initial_simplex <= length p.

(** The calls of the objective between two states, and the charge of the
    counter for them. *)
Definition calls_between (st st' : state D) : nat :=
  length (evaluated st') - length (evaluated st).
Definition charged_between (st st' : state D) : nat :=
  num_evals_ st' - num_evals_ st.

End ClosedForms.

(** A computation that ends or reads outside a vector: it neither throws
    nor needs the unrolling of a loop. *)
Definition ends_or_overruns {A} (m : result A) : Prop :=
  (exists a, m = Ok a) \/ m = Undefined.

(** In exact arithmetic: the cached sums are the sums of the columns. *)
Definition sums_cached (st : state Q) : Prop :=
  forall j, j < num_dimensions_ st ->
    (nth j (simplex_sums st) 0 == nth j (dimension_sums (num_dimensions_ st) (simplex_ st)) 0)%Q.

(** * Concrete inputs *)

(** The objective of the spec's example, [(x - 3)^2 + (y + 1)^2]. *)
Definition bowl {D} `{DoubleOps D} (p : list D) : D :=
  match p with
  | [x; y] => dadd (dmul (dsub x (d_of_nat 3)) (dsub x (d_of_nat 3)))
                   (dmul (dadd y d_one) (dadd y d_one))
  | _ => d_zero
  end.

(** An objective that is 0 everywhere. *)
Definition flat {D} `{DoubleOps D} (p : list D) : D := d_zero.

(** A square simplex, the shape [minimize] reads inside its rows, and the
    state [minimize] starts its loop from on it. *)
Definition square_simplex : list (list float) := [[0; 0]; [1; 0]]%float.

Definition square_start : state float :=
  mkState 2 2 square_simplex [10; 5]%float 0 [1; 0]%float square_simplex.

(** The state one move later, with a counter of one's choice. *)
Definition square_moved (evals : nat) : state float :=
  mkState 2 2 [[1.5; 0]; [1; 0]]%float [3.25; 5]%float evals [2.5; 0]%float [].

(** A triangle in the plane: three vertices of two coordinates, with its
    dimension sums. *)
Definition triangle_Q : state Q :=
  mkState 2 3 [[0; 0]; [1; 0]; [0; 1]]%Q [10; 5; 13]%Q 0 [1; 1]%Q [].

(** Four values with the least value twice. *)
Definition four_values : state float :=
  mkState 0 4 [] [3; 1; 2; 1]%float 0 [] [].

(** Two equal values. *)
Definition two_equal_values : state float :=
  mkState 0 2 [] [1; 1]%float 0 [] [].

(** A simplex whose rows differ in length. *)
Definition ragged_simplex : list (list float) := [[1; 2]; [3; 4; 5]]%float.

(** A simplex of two vertices on the line: [N + 1] rows of length [N = 1]. *)
Definition segment : list (list float) := [[0]; [1]]%float.

(** A simplex of one row of three coordinates. *)
Definition lone_row : list (list float) := [[1; 2; 3]]%float.

(** The square simplex with a first value that is NaN. *)
Definition square_nan : state float :=
  mkState 2 2 square_simplex [nan; 5]%float 0 [1; 0]%float square_simplex.

(** The square simplex in exact arithmetic, and the state [minimize] starts
    its loop from on it. *)
Definition square_simplex_Q : list (list Q) := [[0; 0]; [1; 0]]%Q.

Definition square_start_Q : state Q :=
  mkState 2 2 square_simplex_Q [10; 5]%Q 0 [1; 0]%Q square_simplex_Q.

(** * Properties *)

(** ** Loads, stores and loops *)

Lemma load_Some {A} (i : nat) (v : list A) (x : A) : v !! i = Some x -> load i v = Ok x.
Proof. unfold load. intros ->. reflexivity. Qed.

Lemma load_ge {A} (i : nat) (v : list A) : length v <= i -> load i v = Undefined.
Proof. intros Hi. unfold load. rewrite (lookup_ge_None_2 v i Hi). reflexivity. Qed.

Lemma load_Ok {A} (i : nat) (v : list A) (x : A) : load i v = Ok x -> v !! i = Some x.
Proof. unfold load. destruct (v !! i); intros E; inversion E; reflexivity. Qed.

Lemma store_lt {A} (i : nat) (x : A) (v : list A) :
  i < length v -> store i x v = Ok (<[i := x]> v).
Proof. intros Hi. unfold store. destruct (decide (i < length v)); [reflexivity | lia]. Qed.

Lemma bind_Ok {A B} (m : result A) (k : A -> result B) (a : A) :
  m = Ok a -> mbind k m = k a.
Proof. intros ->. reflexivity. Qed.

(** The loop rule: an invariant that every round re-establishes holds at
    the end, and the loop does end without a fault. *)
Lemma for_loop_invariant {St} (P : nat -> St -> Prop) (body : nat -> St -> result St)
    (n i : nat) (s : St) :
  P i s ->
  (forall k t, i <= k < i + n -> P k t -> exists t', body k t = Ok t' /\ P (S k) t') ->
  exists s', for_loop body i n s = Ok s' /\ P (i + n) s'.
Proof.
  revert i s. induction n as [|n IH]; intros i s Hs Hbody.
  - exists s. rewrite Nat.add_0_r. split; [reflexivity | exact Hs].
  - destruct (Hbody i s ltac:(lia) Hs) as (t & Ht & HP).
    destruct (IH (S i) t HP) as (s' & Hs' & HP').
    + intros k u Hk Hu. apply Hbody; [lia | exact Hu].
    + exists s'. simpl. rewrite (bind_Ok _ _ _ Ht).
      replace (i + S n) with (S i + n) by lia. split; assumption.
Qed.

(** One [x ← m; k] whose [m] is known to succeed. *)
Tactic Notation "bind_step" "by" tactic3(t) :=
  erewrite bind_Ok; [| solve [t]]; cbv beta.

Lemma for_loop_eq {St} (P : nat -> St -> Prop) (body : nat -> St -> result St)
    (n i : nat) (s target : St) :
  P i s ->
  (forall k t, i <= k < i + n -> P k t -> exists t', body k t = Ok t' /\ P (S k) t') ->
  (forall s', P (i + n) s' -> s' = target) ->
  for_loop body i n s = Ok target.
Proof.
  intros Hs Hbody Hend.
  destruct (for_loop_invariant P body n i s Hs Hbody) as (s' & -> & HP).
  f_equal. apply Hend, HP.
Qed.

(** A loop whose first [n] rounds pass and whose next round faults, faults. *)
Lemma for_loop_app {St} (body : nat -> St -> result St) (n m i : nat) (s : St) :
  for_loop body i (n + m) s = s' ← for_loop body i n s; for_loop body (i + n) m s'.
Proof.
  revert i s. induction n as [|n IH]; intros i s; simpl.
  - rewrite Nat.add_0_r. reflexivity.
  - destruct (body i s) as [t| | |]; simpl; try reflexivity.
    rewrite IH. replace (S i + n) with (i + S n) by lia. reflexivity.
Qed.

Lemma for_loop_split {St} (body : nat -> St -> result St) (n m i : nat) (s : St) :
  n <= m ->
  for_loop body i m s = s' ← for_loop body i n s; for_loop body (i + n) (m - n) s'.
Proof.
  intros Hn. rewrite <- for_loop_app. f_equal. lia.
Qed.

Section Facts.
Context {D : Type} `{DoubleOps D}.
Variable objective_function : list D -> D.
Variable EPSILON_ : D.
Variable function_tol_ : D.
Variable MAX_ITERS_ : nat.

(** ** The trial point of [reflect] *)

Lemma reflect_point_eq (st : state D) (index_worst : nat) (factor : D) (worst : list D) :
  length (simplex_sums st) = num_dimensions_ st ->
  simplex_ st !! index_worst = Some worst ->
  length worst = num_dimensions_ st ->
  reflect_point st index_worst factor
  = Ok (trial_point (num_dimensions_ st) (simplex_sums st) worst factor).
Proof.
  intros Hsums Hworst Hlen. unfold reflect_point.
  set (target := trial_point _ _ _ _).
  assert (Htl : length target = num_dimensions_ st).
  { unfold target, trial_point. rewrite length_zip_with. lia. }
  apply (for_loop_eq (fun j ev => length ev = num_dimensions_ st /\
                                  forall k, k < j -> ev !! k = target !! k)).
  - split; [apply length_replicate | intros k Hk; lia].
  - intros j ev Hj [Hlenev Hev].
    destruct (lookup_lt_is_Some_2 (simplex_sums st) j ltac:(lia)) as [s Hs].
    destruct (lookup_lt_is_Some_2 worst j ltac:(lia)) as [w Hw].
    rewrite (bind_Ok _ _ _ (load_Some _ _ _ Hs)).
    rewrite (bind_Ok _ _ _ (load_Some _ _ _ Hworst)).
    rewrite (bind_Ok _ _ _ (load_Some _ _ _ Hw)).
    rewrite store_lt by lia. eexists. split; [reflexivity|].
    split; [rewrite length_insert; exact Hlenev|].
    intros k Hk. destruct (decide (k = j)) as [->|Hne].
    + rewrite list_lookup_insert_eq by lia.
      unfold target, trial_point. rewrite lookup_zip_with, Hs, Hw. reflexivity.
    + rewrite list_lookup_insert_ne by lia. apply Hev. lia.
  - intros ev [Hlenev Hev].
    apply (list_eq_same_length _ _ (num_dimensions_ st)); try assumption.
    intros k x y Hk Hx Hy. simpl in Hev. rewrite (Hev k Hk) in Hx. congruence.
Qed.

(** ** [reflect] as one replacement *)

Lemma insert_take_drop {A} (l1 l2 : list A) (j : nat) (x : A) :
  length l1 = length l2 -> l1 !! j = Some x ->
  <[j := x]> (take j l1 ++ drop j l2) = take (S j) l1 ++ drop (S j) l2.
Proof.
  intros Hlen Hx. pose proof (lookup_lt_Some _ _ _ Hx) as Hj.
  destruct (lookup_lt_is_Some_2 l2 j ltac:(lia)) as [y Hy].
  rewrite insert_app_r_alt by (rewrite length_take; lia).
  rewrite length_take, Nat.min_l, Nat.sub_diag by lia.
  rewrite (drop_S _ _ _ Hy). simpl. rewrite (take_S_r _ _ _ Hx), <- app_assoc.
  reflexivity.
Qed.

Lemma lookup_take_drop {A} (l1 l2 : list A) (j : nat) :
  length l1 = length l2 -> j <= length l1 -> (take j l1 ++ drop j l2) !! j = l2 !! j.
Proof.
  intros Hlen Hj. rewrite lookup_app_r by (rewrite length_take; lia).
  rewrite length_take, Nat.min_l, Nat.sub_diag, lookup_drop, Nat.add_0_r by lia.
  reflexivity.
Qed.

Lemma reflect_commit_eq (st : state D) (index_worst : nat) (evaluations worst : list D) :
  length (simplex_sums st) = num_dimensions_ st ->
  simplex_ st !! index_worst = Some worst ->
  length worst = num_dimensions_ st ->
  length evaluations = num_dimensions_ st ->
  reflect_commit evaluations index_worst st
  = Ok (mkState (num_dimensions_ st) (num_points_ st)
                (<[index_worst := evaluations]> (simplex_ st)) (func_vals_ st)
                (num_evals_ st)
                (zip_with dadd (simplex_sums st) (zip_with dsub evaluations worst))
                (evaluated st)).
Proof.
  intros Hsums Hworst Hlen Hev. unfold reflect_commit.
  set (sums' := zip_with dadd _ _).
  assert (Hsl : length sums' = length (simplex_sums st)).
  { unfold sums'. rewrite !length_zip_with. lia. }
  pose proof (lookup_lt_Some _ _ _ Hworst) as Hiw.
  apply (for_loop_eq
    (fun j t => t = mkState (num_dimensions_ st) (num_points_ st)
                      (<[index_worst := take j evaluations ++ drop j worst]> (simplex_ st))
                      (func_vals_ st) (num_evals_ st)
                      (take j sums' ++ drop j (simplex_sums st)) (evaluated st))).
  - rewrite !take_0, !drop_0. simpl. rewrite (list_insert_id _ _ _ Hworst).
    destruct st; reflexivity.
  - intros j t Hj ->. simpl in *.
    destruct (lookup_lt_is_Some_2 evaluations j ltac:(lia)) as [e He].
    destruct (lookup_lt_is_Some_2 (simplex_sums st) j ltac:(lia)) as [s Hs].
    destruct (lookup_lt_is_Some_2 worst j ltac:(lia)) as [w Hw].
    rewrite (bind_Ok _ _ _ (load_Some _ _ _ He)).
    erewrite bind_Ok; cycle 1.
    { apply load_Some. rewrite lookup_take_drop by lia. exact Hs. }
    erewrite bind_Ok; cycle 1.
    { apply load_Some, list_lookup_insert_eq. exact Hiw. }
    erewrite bind_Ok; cycle 1.
    { apply load_Some. rewrite lookup_take_drop by lia. exact Hw. }
    bind_step by (apply store_lt; rewrite length_app, length_take, length_drop; lia).
    bind_step by (apply store_lt; rewrite length_app, length_take, length_drop; lia).
    bind_step by (apply store_lt; rewrite length_insert; lia).
    eexists. split; [reflexivity|]. unfold set_simplex_, set_simplex_sums. simpl.
    rewrite list_insert_insert_eq.
    rewrite (insert_take_drop evaluations worst j e) by (assumption || lia).
    rewrite (insert_take_drop sums' (simplex_sums st) j (dadd s (dsub e w))); try done.
    unfold sums'. rewrite !lookup_zip_with, Hs, He, Hw. reflexivity.
  - intros t ->. simpl.
    rewrite (take_ge evaluations), (drop_ge worst), (take_ge sums'), (drop_ge (simplex_sums st))
      by lia.
    rewrite !app_nil_r. reflexivity.
Qed.

Lemma reflect_eq (st : state D) (index_worst : nat) (factor : D) :
  rectangular st -> index_worst < num_points_ st ->
  reflect objective_function st index_worst factor = Ok (try_replace objective_function index_worst factor st).
Proof.
  intros (Hrows & Hcols & Hvals & Hsums) Hiw.
  destruct (lookup_lt_is_Some_2 (simplex_ st) index_worst ltac:(lia)) as [worst Hworst].
  destruct (lookup_lt_is_Some_2 (func_vals_ st) index_worst ltac:(lia)) as [v Hv].
  pose proof (proj1 (Forall_lookup _ _) Hcols _ _ Hworst) as Hlen. simpl in Hlen.
  unfold reflect, try_replace.
  rewrite (bind_Ok _ _ _ (reflect_point_eq st index_worst factor worst Hsums Hworst Hlen)).
  rewrite Hworst. simpl.
  rewrite (bind_Ok _ _ _ (load_Some _ _ _ Hv)). rewrite Hv. simpl.
  destruct (dltb _ v); [|reflexivity].
  rewrite store_lt by lia. simpl.
  erewrite bind_Ok; cycle 1.
  { apply reflect_commit_eq with (worst := worst); simpl; try assumption.
    unfold trial_point. rewrite length_zip_with. lia. }
  unfold replace_worst. simpl. rewrite Hworst. reflexivity.
Qed.

(** ** The first evaluation of the simplex *)

(** Lines 58-60: the first [num_dimensions_] coordinates of a row. *)
Lemma copy_row_eq (st : state D) (i : nat) (p evaluation_point : list D) :
  simplex_ st !! i = Some p ->
  num_dimensions_ st <= length p ->
  length evaluation_point = num_dimensions_ st ->
  for_loop (fun j evaluation_point =>
      p_i ← load i (simplex_ st);
      p_ij ← load j p_i;
      store j p_ij evaluation_point)
    0 (num_dimensions_ st) evaluation_point
  = Ok (take (num_dimensions_ st) p).
Proof.
  intros Hp Hlen Hep.
  set (r := take (num_dimensions_ st) p).
  assert (Hr : length r = num_dimensions_ st) by (unfold r; rewrite length_take; lia).
  apply (for_loop_eq (fun j ev => ev = take j r ++ drop j evaluation_point)).
  - rewrite take_0, drop_0. reflexivity.
  - intros j ev Hj ->.
    destruct (lookup_lt_is_Some_2 r j ltac:(lia)) as [x Hx].
    bind_step by (apply load_Some; exact Hp).
    bind_step by (apply load_Some; unfold r in Hx; rewrite lookup_take_lt in Hx by lia;
                  exact Hx).
    rewrite store_lt by (rewrite length_app, length_take, length_drop; lia).
    eexists. split; [reflexivity|]. apply insert_take_drop; [lia | exact Hx].
  - intros ev ->. simpl. rewrite take_ge, drop_ge by lia. apply app_nil_r.
Qed.

Lemma evaluate_simplex_eq (st : state D) :
  num_points_ st <= length (simplex_ st) ->
  (forall i p, i < num_points_ st -> simplex_ st !! i = Some p ->
               num_dimensions_ st <= length p) ->
  length (func_vals_ st) = num_points_ st ->
  evaluate_simplex objective_function st
  = Ok (set_func_vals_ (objective_function <$> first_points st)
          (set_evaluated (evaluated st ++ first_points st) st)).
Proof.
  intros Hrows Hcols Hvals. unfold evaluate_simplex.
  set (pts := first_points st). set (vals := objective_function <$> pts).
  assert (Hpl : length pts = num_points_ st).
  { unfold pts, first_points. rewrite length_fmap, length_take. lia. }
  assert (Hvl : length vals = num_points_ st) by (unfold vals; rewrite length_fmap; lia).
  set (ep_at := fun i : nat =>
         default (replicate (num_dimensions_ st) d_zero) (last (take i pts))).
  assert (Hepl : forall i, i <= num_points_ st -> length (ep_at i) = num_dimensions_ st).
  { intros i Hi. unfold ep_at. rewrite last_lookup.
    destruct (take i pts !! _) as [q|] eqn:Hq; simpl; [|apply length_replicate].
    apply lookup_take_Some in Hq as [Hq _]. unfold pts, first_points in Hq.
    rewrite list_lookup_fmap in Hq.
    destruct (take (num_points_ st) (simplex_ st) !! _) as [p|] eqn:Hp; [|discriminate].
    inversion Hq; subst q. apply lookup_take_Some in Hp as [Hp Hlt].
    rewrite length_take. apply Nat.min_l, (Hcols _ p Hlt Hp). }
  erewrite bind_Ok; cycle 1.
  { apply (for_loop_eq (fun i '(ep, t) =>
             ep = ep_at i /\
             t = set_func_vals_ (take i vals ++ drop i (func_vals_ st))
                   (set_evaluated (evaluated st ++ take i pts) st))).
    - split; [reflexivity|].
      rewrite !take_0, drop_0, app_nil_r. destruct st; reflexivity.
    - intros i [ep t] Hi [-> ->].
      cbn [simplex_ set_func_vals_ set_evaluated num_dimensions_].
      destruct (lookup_lt_is_Some_2 (simplex_ st) i ltac:(lia)) as [p Hp].
      assert (Hpi : pts !! i = Some (take (num_dimensions_ st) p)).
      { unfold pts, first_points. rewrite list_lookup_fmap, lookup_take_lt, Hp by lia.
        reflexivity. }
      bind_step by (apply (copy_row_eq st i p _ Hp);
                    [apply (Hcols i p); [lia | exact Hp] | apply Hepl; lia]).
      unfold call_objective. cbn [func_vals_ evaluated set_func_vals_ set_evaluated].
      bind_step by (apply store_lt; rewrite length_app, length_take, length_drop; lia).
      eexists. split; [reflexivity|]. split.
      + unfold ep_at. rewrite (take_S_r pts i _ Hpi), last_snoc. reflexivity.
      + unfold set_func_vals_, set_evaluated. cbn.
        rewrite (insert_take_drop vals (func_vals_ st) i
                   (objective_function (take (num_dimensions_ st) p))); cycle 1.
        { lia. }
        { unfold vals. rewrite list_lookup_fmap, Hpi. reflexivity. }
        rewrite (take_S_r pts i _ Hpi), app_assoc. reflexivity.
    - intros [ep t] [-> ->]. reflexivity. }
  simpl. rewrite (take_ge vals), (take_ge pts), drop_ge, app_nil_r by lia.
  reflexivity.
Qed.

(** ** The shrink *)

Lemma delete_snoc {A} (l : list A) (x : A) (k : nat) :
  delete k (l ++ [x]) = if decide (k = length l) then l else delete k l ++ [x].
Proof.
  revert k. induction l as [|y l IH]; intros [|k]; simpl; try reflexivity.
  rewrite IH. destruct (decide (k = length l)), (decide (S k = S (length l)));
    try reflexivity; lia.
Qed.

(** Lines 134-137 for one row. *)
Lemma shrink_row_eq (st : state D) (i index_low : nat) (p best : list D) :
  simplex_ st !! i = Some p ->
  simplex_ st !! index_low = Some best ->
  i ≠ index_low ->
  length p = num_dimensions_ st ->
  length best = num_dimensions_ st ->
  length (simplex_sums st) = num_dimensions_ st ->
  for_loop (fun j st =>
      p_i ← load i (simplex_ st);
      p_ij ← load j p_i;
      p_low ← load index_low (simplex_ st);
      p_lowj ← load j p_low;
      sums ← store j (dmul d_half (dadd p_ij p_lowj)) (simplex_sums st);
      sum_j ← load j sums;
      p_i' ← store j sum_j p_i;
      simplex ← store i p_i' (simplex_ st);
      mret (set_simplex_ simplex (set_simplex_sums sums st)))
    0 (num_dimensions_ st) st
  = Ok (set_simplex_ (<[i := halfway p best]> (simplex_ st))
          (set_simplex_sums (halfway p best) st)).
Proof.
  intros Hp Hbest Hne Hpl Hbl Hsl.
  set (new := halfway p best).
  assert (Hnl : length new = num_dimensions_ st).
  { unfold new, halfway. rewrite length_zip_with. lia. }
  pose proof (lookup_lt_Some _ _ _ Hp) as Hi.
  apply (for_loop_eq (fun j t =>
           t = set_simplex_ (<[i := take j new ++ drop j p]> (simplex_ st))
                 (set_simplex_sums (take j new ++ drop j (simplex_sums st)) st))).
  - rewrite !take_0, !drop_0. simpl. rewrite (list_insert_id _ _ _ Hp).
    destruct st; reflexivity.
  - intros j t Hj ->. cbn [set_simplex_ set_simplex_sums simplex_ simplex_sums].
    destruct (lookup_lt_is_Some_2 p j ltac:(lia)) as [a Ha].
    destruct (lookup_lt_is_Some_2 best j ltac:(lia)) as [b Hb].
    assert (Hnj : new !! j = Some (dmul d_half (dadd a b))).
    { unfold new, halfway. rewrite lookup_zip_with, Ha, Hb. reflexivity. }
    bind_step by (apply load_Some, list_lookup_insert_eq; exact Hi).
    bind_step by (apply load_Some; rewrite lookup_take_drop by lia; exact Ha).
    bind_step by (apply load_Some; rewrite list_lookup_insert_ne by exact Hne; exact Hbest).
    bind_step by (apply load_Some; exact Hb).
    bind_step by (apply store_lt; rewrite length_app, length_take, length_drop; lia).
    bind_step by (apply load_Some, list_lookup_insert_eq;
                  rewrite length_app, length_take, length_drop; lia).
    bind_step by (apply store_lt; rewrite length_app, length_take, length_drop; lia).
    bind_step by (apply store_lt; rewrite length_insert; exact Hi).
    eexists. split; [reflexivity|].
    unfold set_simplex_, set_simplex_sums. cbn.
    rewrite list_insert_insert_eq.
    rewrite (insert_take_drop new p j _ ltac:(lia) Hnj).
    rewrite (insert_take_drop new (simplex_sums st) j _ ltac:(lia) Hnj).
    reflexivity.
  - intros t ->. simpl.
    rewrite (take_ge new), (drop_ge p), (drop_ge (simplex_sums st)), !app_nil_r by lia.
    reflexivity.
Qed.

Lemma lookup_take_drop_gen {A} (l1 l2 : list A) (j k : nat) :
  length l1 = length l2 ->
  (take j l1 ++ drop j l2) !! k = if decide (k < j) then l1 !! k else l2 !! k.
Proof.
  intros Hlen. destruct (decide (k < j)) as [Hk|Hk].
  - destruct (decide (k < length l1)) as [Hk'|Hk'].
    + rewrite lookup_app_l by (rewrite length_take; lia). apply lookup_take_lt, Hk.
    + rewrite (lookup_ge_None_2 l1) by lia. apply lookup_ge_None_2.
      rewrite length_app, length_take, length_drop. lia.
  - destruct (decide (j <= length l1)) as [Hj|Hj].
    + rewrite lookup_app_r by (rewrite length_take; lia).
      rewrite length_take, Nat.min_l, lookup_drop by lia. f_equal. lia.
    + rewrite (lookup_ge_None_2 l2) by lia. apply lookup_ge_None_2.
      rewrite length_app, length_take, length_drop. lia.
Qed.

Lemma take_drop_same {A} (l1 l2 : list A) (j : nat) (x : A) :
  length l1 = length l2 -> l1 !! j = Some x -> l2 !! j = Some x ->
  take (S j) l1 ++ drop (S j) l2 = take j l1 ++ drop j l2.
Proof.
  intros Hlen H1 H2. rewrite <- (insert_take_drop l1 l2 j x Hlen H1).
  apply list_insert_id. rewrite lookup_take_drop_gen by exact Hlen.
  destruct (decide (j < j)); [lia | exact H2].
Qed.

Lemma delete_beyond {A} (l : list A) (k : nat) : length l <= k -> delete k l = l.
Proof.
  intros Hk. rewrite delete_take_drop, take_ge, drop_ge by lia. apply app_nil_r.
Qed.

Lemma shrunk_simplex_lookup (index_low i : nat) (simplex : list (list D)) (p best : list D) :
  simplex !! i = Some p -> simplex !! index_low = Some best ->
  shrunk_simplex index_low simplex !! i
  = Some (if bool_decide (i ≠ index_low) then halfway p best else p).
Proof.
  intros Hp Hbest. unfold shrunk_simplex. rewrite list_lookup_imap, Hp, Hbest.
  reflexivity.
Qed.

Lemma shrunk_simplex_rows (index_low n : nat) (simplex : list (list D)) :
  index_low < length simplex ->
  Forall (fun p => length p = n) simplex ->
  Forall (fun p => length p = n) (shrunk_simplex index_low simplex).
Proof.
  intros Hlow Hall. apply Forall_lookup_2. intros i q Hq.
  destruct (lookup_lt_is_Some_2 simplex index_low Hlow) as [best Hb].
  destruct (simplex !! i) as [p|] eqn:Hp; cycle 1.
  { unfold shrunk_simplex in Hq. rewrite list_lookup_imap, Hp in Hq. discriminate. }
  rewrite (shrunk_simplex_lookup index_low i simplex p best Hp Hb) in Hq.
  pose proof (Forall_lookup_1 _ _ _ _ Hall Hp) as Hpl.
  pose proof (Forall_lookup_1 _ _ _ _ Hall Hb) as Hbl. simpl in Hpl, Hbl.
  destruct (bool_decide _); inversion Hq; subst q; [|exact Hpl].
  unfold halfway. rewrite length_zip_with. lia.
Qed.

Lemma shrink_eq (st : state D) (index_low : nat) :
  rectangular st -> index_low < num_points_ st ->
  shrink objective_function index_low st = Ok (shrink_all objective_function index_low st).
Proof.
  intros (Hrows & Hcols & Hvals & Hsums) Hlow.
  destruct (lookup_lt_is_Some_2 (simplex_ st) index_low ltac:(lia)) as [best Hbest].
  pose proof (Forall_lookup_1 _ _ _ _ Hcols Hbest) as Hbl. simpl in Hbl.
  set (S' := shrunk_simplex index_low (simplex_ st)).
  set (V' := imap (fun i value =>
                     if bool_decide (i ≠ index_low)
                     then objective_function (default [] (S' !! i)) else value)
                  (func_vals_ st)).
  assert (HS'l : length S' = length (simplex_ st)) by (apply length_imap).
  assert (HV'l : length V' = length (func_vals_ st)) by (apply length_imap).
  assert (HS'rows : Forall (fun p => length p = num_dimensions_ st) S').
  { apply shrunk_simplex_rows; [lia | exact Hcols]. }
  set (sums_at := fun i : nat =>
         default (simplex_sums st) (last (delete index_low (take i S')))).
  assert (Hsl : forall i, length (sums_at i) = num_dimensions_ st).
  { intros i. unfold sums_at. destruct (last _) as [q|] eqn:Hq; simpl; [|exact Hsums].
    apply last_Some_elem_of in Hq.
    assert (Hall : Forall (fun p => length p = num_dimensions_ st)
                          (delete index_low (take i S'))).
    { apply Forall_delete, Forall_take, HS'rows. }
    apply (proj1 (Forall_forall _ _) Hall q Hq). }
  unfold shrink. erewrite bind_Ok; cycle 1.
  { apply (for_loop_eq (fun i t =>
       t = mkState (num_dimensions_ st) (num_points_ st)
                   (take i S' ++ drop i (simplex_ st))
                   (take i V' ++ drop i (func_vals_ st))
                   (num_evals_ st) (sums_at i)
                   (evaluated st ++ delete index_low (take i S')))).
    - unfold sums_at. rewrite !take_0, !drop_0. simpl. rewrite app_nil_r.
      destruct st; reflexivity.
    - intros i t Hi ->.
      destruct (lookup_lt_is_Some_2 (simplex_ st) i ltac:(lia)) as [p Hp].
      destruct (lookup_lt_is_Some_2 (func_vals_ st) i ltac:(lia)) as [v Hv].
      pose proof (Forall_lookup_1 _ _ _ _ Hcols Hp) as Hpl. simpl in Hpl.
      pose proof (shrunk_simplex_lookup index_low i _ p best Hp Hbest) as HS'i.
      fold S' in HS'i.
      assert (HV'i : V' !! i = Some (if bool_decide (i ≠ index_low)
                                     then objective_function (default [] (S' !! i))
                                     else v)).
      { unfold V'. rewrite list_lookup_imap, Hv. reflexivity. }
      case_bool_decide as Hne.
      + set (t := mkState _ _ _ _ _ _ _).
        assert (Hti : simplex_ t !! i = Some p).
        { simpl. rewrite lookup_take_drop_gen by exact HS'l.
          destruct (decide (i < i)); [lia | exact Hp]. }
        assert (Htlow : simplex_ t !! index_low = Some best).
        { simpl. rewrite lookup_take_drop_gen by exact HS'l.
          destruct (decide (index_low < i)); [|exact Hbest].
          unfold S'.
          rewrite (shrunk_simplex_lookup index_low index_low _ best best Hbest Hbest).
          case_bool_decide; [congruence | reflexivity]. }
        bind_step by (apply (shrink_row_eq t i index_low p best Hti Htlow Hne Hpl Hbl);
                      apply Hsl).
        unfold call_objective. cbn.
        bind_step by (apply store_lt; rewrite length_app, length_take, length_drop; lia).
        eexists. split; [reflexivity|]. unfold set_func_vals_. cbn.
        rewrite (insert_take_drop S' (simplex_ st) i _ HS'l HS'i).
        rewrite HS'i in HV'i. simpl in HV'i.
        rewrite (insert_take_drop V' (func_vals_ st) i _ HV'l HV'i).
        unfold sums_at. rewrite (take_S_r S' i _ HS'i), delete_snoc.
        destruct (decide (index_low = length (take i S'))) as [Heq|_].
        { rewrite length_take in Heq. lia. }
        rewrite last_snoc, app_assoc. reflexivity.
      + assert (i = index_low) as -> by lia. simpl.
        assert (p = best) as -> by congruence.
        eexists. split; [reflexivity|].
        rewrite (take_drop_same S' (simplex_ st) index_low best HS'l HS'i Hbest).
        rewrite (take_drop_same V' (func_vals_ st) index_low v HV'l HV'i Hv).
        unfold sums_at. rewrite (take_S_r S' index_low _ HS'i), delete_snoc.
        destruct (decide (index_low = length (take index_low S'))) as [_|Hne'].
        2: { rewrite length_take in Hne'. lia. }
        rewrite (delete_beyond (take index_low S')) by (rewrite length_take; lia).
        reflexivity.
    - intros t ->. reflexivity. }
  cbn. unfold shrink_all. fold S'. fold V'.
  rewrite (take_ge S'), (take_ge V'), !drop_ge, !app_nil_r by lia.
  reflexivity.
Qed.

(** ** One move of the simplex *)

Lemma lookup_value_at (st : state D) (k : nat) :
  k < length (func_vals_ st) -> func_vals_ st !! k = Some (value_at st k).
Proof.
  intros Hk. unfold value_at.
  destruct (lookup_lt_is_Some_2 _ _ Hk) as [x ->]. reflexivity.
Qed.

Lemma load_value_at (st : state D) (k : nat) :
  k < length (func_vals_ st) -> load k (func_vals_ st) = Ok (value_at st k).
Proof. intros Hk. apply load_Some, lookup_value_at, Hk. Qed.

Lemma trial_of_length (st : state D) (index_worst : nat) (factor : D) :
  rectangular st -> index_worst < num_points_ st ->
  length (trial_of index_worst factor st) = num_dimensions_ st.
Proof.
  intros (Hrows & Hcols & Hvals & Hsums) Hiw.
  destruct (lookup_lt_is_Some_2 (simplex_ st) index_worst ltac:(lia)) as [worst Hworst].
  pose proof (Forall_lookup_1 _ _ _ _ Hcols Hworst) as Hlen. simpl in Hlen.
  unfold trial_of, trial_point. rewrite Hworst, length_zip_with. simpl. lia.
Qed.

Lemma replace_worst_rectangular (st : state D) (index_worst : nat) (p : list D) (value : D) :
  rectangular st -> index_worst < num_points_ st -> length p = num_dimensions_ st ->
  rectangular (replace_worst p value index_worst st).
Proof.
  intros (Hrows & Hcols & Hvals & Hsums) Hiw Hp.
  destruct (lookup_lt_is_Some_2 (simplex_ st) index_worst ltac:(lia)) as [worst Hworst].
  pose proof (Forall_lookup_1 _ _ _ _ Hcols Hworst) as Hlen. simpl in Hlen.
  unfold rectangular, replace_worst. simpl. rewrite !length_insert, Hworst. simpl.
  repeat split; try assumption.
  - apply Forall_insert; assumption.
  - rewrite !length_zip_with. lia.
Qed.

(** What [reflect] leaves alone, and what it records. *)
Lemma try_replace_frame (index_worst : nat) (factor : D) (st : state D) :
  rectangular st -> index_worst < num_points_ st ->
  let st' := (try_replace objective_function index_worst factor st).2 in
  rectangular st' /\
  num_dimensions_ st' = num_dimensions_ st /\
  num_points_ st' = num_points_ st /\
  num_evals_ st' = num_evals_ st /\
  evaluated st' = evaluated st ++ [trial_of index_worst factor st] /\
  (forall k, k ≠ index_worst -> value_at st' k = value_at st k) /\
  (paired objective_function st -> paired objective_function st').
Proof.
  intros Hrect Hiw. unfold try_replace, call_objective. simpl.
  fold (trial_of index_worst factor st). set (trial := trial_of _ _ _).
  set (st1 := set_evaluated _ st).
  assert (Hrect1 : rectangular st1) by (destruct Hrect as (? & ? & ? & ?); repeat split; assumption).
  destruct (dltb _ _).
  - split; [|repeat split].
    + apply (replace_worst_rectangular st1); [exact Hrect1 | exact Hiw |].
      apply (trial_of_length st); assumption.
    + intros k Hk. unfold value_at. simpl. rewrite list_lookup_insert_ne by congruence.
      reflexivity.
    + unfold paired. simpl. intros ->. symmetry. apply list_fmap_insert.
  - split; [exact Hrect1|]. repeat split. intros Hp. exact Hp.
Qed.

Lemma try_replace_unfold (index_worst : nat) (factor : D) (st : state D) :
  let trial := trial_of index_worst factor st in
  let value := objective_function trial in
  let st' := set_evaluated (evaluated st ++ [trial]) st in
  try_replace objective_function index_worst factor st
  = (value, if dltb value (value_at st index_worst)
            then replace_worst trial value index_worst st' else st').
Proof. reflexivity. Qed.

Lemma set_num_evals_rectangular (n : nat) (st : state D) :
  rectangular st -> rectangular (set_num_evals_ n st).
Proof. intros (? & ? & ? & ?). repeat split; assumption. Qed.

Lemma geometric_operator_eq (index_low index_high index_next_high : nat) (st : state D) :
  rectangular st ->
  index_low < num_points_ st -> index_high < num_points_ st ->
  index_next_high < num_points_ st ->
  geometric_operator objective_function index_low index_high index_next_high st
  = Ok (move objective_function dleb index_low index_high index_next_high st).
Proof.
  intros Hrect Hlow Hhigh Hnh. unfold geometric_operator, move.
  set (st0 := set_num_evals_ _ st).
  assert (Hrect0 : rectangular st0) by (apply set_num_evals_rectangular, Hrect).
  rewrite (bind_Ok _ _ _ (reflect_eq st0 index_high d_minus_one Hrect0 Hhigh)).
  pose proof (try_replace_frame index_high d_minus_one st0 Hrect0 Hhigh) as F1.
  destruct (try_replace objective_function index_high d_minus_one st0) as [reflection st1].
  cbn [snd] in F1. destruct F1 as (Hrect1 & Hnd1 & Hnp1 & _).
  change (num_points_ st0) with (num_points_ st) in Hnp1.
  assert (Hvl : length (func_vals_ st1) = num_points_ st)
    by (destruct Hrect1 as (_ & _ & -> & _); exact Hnp1).
  cbv beta iota.
  bind_step by (apply load_value_at; lia).
  destruct (dleb reflection _).
  - rewrite (bind_Ok _ _ _ (reflect_eq st1 index_high d_two Hrect1 ltac:(lia))).
    destruct (try_replace objective_function index_high d_two st1). reflexivity.
  - bind_step by (apply load_value_at; lia).
    destruct (dgeb reflection _); [|reflexivity].
    rewrite (bind_Ok _ _ _ (reflect_eq st1 index_high d_half Hrect1 ltac:(lia))).
    pose proof (try_replace_frame index_high d_half st1 Hrect1 ltac:(lia)) as F2.
    destruct (try_replace objective_function index_high d_half st1) as [contraction st2].
    cbn [snd] in F2. destruct F2 as (Hrect2 & Hnd2 & Hnp2 & _).
    cbv beta iota.
    destruct (dgeb contraction _); [|reflexivity].
    apply shrink_eq; [exact Hrect2 | lia].
Qed.

Lemma dimension_sums_length (n : nat) (simplex : list (list D)) :
  length (dimension_sums n simplex) = n.
Proof. unfold dimension_sums. rewrite length_fmap, length_seq. reflexivity. Qed.

Lemma shrink_all_frame (index_low : nat) (st : state D) :
  rectangular st -> index_low < num_points_ st ->
  let st' := shrink_all objective_function index_low st in
  rectangular st' /\
  length (evaluated st') = length (evaluated st) + (num_points_ st - 1) /\
  (paired objective_function st -> paired objective_function st').
Proof.
  intros (Hrows & Hcols & Hvals & Hsums) Hlow.
  destruct (lookup_lt_is_Some_2 (simplex_ st) index_low ltac:(lia)) as [best Hbest].
  unfold shrink_all. cbv zeta. set (S' := shrunk_simplex index_low (simplex_ st)).
  assert (HS'l : length S' = length (simplex_ st)) by (apply length_imap).
  split; [|split].
  - unfold rectangular. simpl. rewrite length_imap, dimension_sums_length.
    repeat split; try lia.
    apply shrunk_simplex_rows; [lia | exact Hcols].
  - simpl. rewrite length_app, length_delete; [lia|].
    apply lookup_lt_is_Some_2. lia.
  - unfold paired. simpl. intros Hp. apply list_eq. intros i.
    rewrite list_lookup_imap, Hp, !list_lookup_fmap.
    destruct (simplex_ st !! i) as [p|] eqn:Hpi; cycle 1.
    { simpl. apply lookup_ge_None_1 in Hpi.
      rewrite (lookup_ge_None_2 S') by lia. reflexivity. }
    simpl. unfold S'. rewrite (shrunk_simplex_lookup index_low i _ p best Hpi Hbest).
    simpl. destruct (bool_decide _); reflexivity.
Qed.

Lemma move_frame (expands : D -> D -> bool) (index_low index_high index_next_high : nat)
    (st : state D) :
  rectangular st ->
  index_low < num_points_ st -> index_high < num_points_ st ->
  let st' := move objective_function expands index_low index_high index_next_high st in
  rectangular st' /\
  num_dimensions_ st' = num_dimensions_ st /\
  num_points_ st' = num_points_ st /\
  move_cost st st' /\
  (paired objective_function st -> paired objective_function st').
Proof using Type.
  clear EPSILON_ function_tol_ MAX_ITERS_.
  intros Hrect Hlow Hhigh. unfold move.
  set (st0 := set_num_evals_ _ st).
  assert (Hrect0 : rectangular st0) by (apply set_num_evals_rectangular, Hrect).
  pose proof (try_replace_frame index_high d_minus_one st0 Hrect0 Hhigh) as F1.
  destruct (try_replace objective_function index_high d_minus_one st0) as [reflection st1].
  cbn [snd] in F1. destruct F1 as (Hrect1 & Hnd1 & Hnp1 & Hev1 & Hlog1 & _ & Hp1).
  change (num_points_ st0) with (num_points_ st) in Hnp1.
  change (num_dimensions_ st0) with (num_dimensions_ st) in Hnd1.
  change (num_evals_ st0) with (num_evals_ st + 2) in Hev1.
  change (evaluated st0) with (evaluated st) in Hlog1.
  change (paired objective_function st0) with (paired objective_function st) in Hp1.
  cbv zeta.
  destruct (expands reflection _); [|destruct (dgeb reflection _)].
  - pose proof (try_replace_frame index_high d_two st1 Hrect1 ltac:(lia)) as F2.
    destruct (try_replace objective_function index_high d_two st1) as [expansion st2].
    cbn [snd] in *. destruct F2 as (Hrect2 & Hnd2 & Hnp2 & Hev2 & Hlog2 & _ & Hp2).
    split; [exact Hrect2|]. split; [congruence|]. split; [congruence|].
    split; [|tauto]. unfold move_cost.
    rewrite Hlog2, Hlog1, !length_app. simpl. lia.
  - pose proof (try_replace_frame index_high d_half st1 Hrect1 ltac:(lia)) as F2.
    destruct (try_replace objective_function index_high d_half st1) as [contraction st2].
    cbn [snd] in *. destruct F2 as (Hrect2 & Hnd2 & Hnp2 & Hev2 & Hlog2 & _ & Hp2).
    destruct (dgeb contraction _).
    + destruct (shrink_all_frame index_low st2 Hrect2 ltac:(lia)) as (Hrect3 & Hlog3 & Hp3).
      split; [exact Hrect3|]. split; [simpl; congruence|]. split; [simpl; congruence|].
      split; [|tauto]. unfold move_cost.
      rewrite Hlog3, Hlog2, Hlog1, !length_app. simpl. lia.
    + split; [exact Hrect2|]. split; [congruence|]. split; [congruence|].
      split; [|tauto]. unfold move_cost.
      rewrite Hlog2, Hlog1, !length_app. simpl. lia.
  - split; [apply set_num_evals_rectangular, Hrect1|].
    split; [exact Hnd1|]. split; [exact Hnp1|]. split; [|exact Hp1].
    unfold move_cost. simpl. rewrite Hlog1, !length_app. simpl. lia.
Qed.

(** ** The ranking pass *)

(** The pass never leaves the vector: with at least two values it ends, and
    its three indices are indices of values. *)
Lemma rank_in_range (st : state D) :
  length (func_vals_ st) = num_points_ st -> 2 <= num_points_ st ->
  exists index_low index_high index_next_high,
    rank st = Ok (index_low, index_high, index_next_high) /\
    index_low < num_points_ st /\ index_high < num_points_ st /\
    index_next_high < num_points_ st.
Proof.
  intros Hlen Hnp. unfold rank.
  bind_step by (apply load_value_at; lia).
  bind_step by (apply load_value_at; lia).
  set (start := if dgtb _ _ then (0, 1) else (1, 0)).
  assert (Hstart : start.1 < num_points_ st /\ start.2 < num_points_ st).
  { unfold start. destruct (dgtb _ _); simpl; lia. }
  destruct start as [h0 n0]. simpl in Hstart.
  edestruct (for_loop_invariant
    (fun (i : nat) '(lo, hi, nh) =>
       lo < num_points_ st /\ hi < num_points_ st /\ nh < num_points_ st))
    as ([[lo hi] nh] & Hloop & HP); cycle 2.
  - exists lo, hi, nh. split; [exact Hloop | exact HP].
  - simpl. lia.
  - intros i [[lo hi] nh] Hi (Hlo & Hhi & Hnh).
    bind_step by (apply load_value_at; lia).
    bind_step by (apply load_value_at; lia).
    bind_step by (apply load_value_at; lia).
    destruct (dgtb _ _).
    + eexists. split; [reflexivity|]. destruct (dleb _ _); simpl; lia.
    + bind_step by (apply load_value_at; lia).
      destruct (_ && _); (eexists; split; [reflexivity|]);
        destruct (dleb _ _); simpl; lia.
Qed.

Lemma rank_short (st : state D) :
  length (func_vals_ st) = num_points_ st -> num_points_ st < 2 -> rank st = Undefined.
Proof.
  intros Hlen Hnp. unfold rank.
  destruct (load 0 (func_vals_ st)) as [f_0| | |] eqn:E0; simpl; try reflexivity.
  - rewrite load_ge by lia. reflexivity.
  - unfold load in E0. destruct (_ !! 0); discriminate.
  - unfold load in E0. destruct (_ !! 0); discriminate.
Qed.

(** ** One round of the loop *)

Lemma tolerance_eq (st : state D) (index_low index_high : nat) :
  length (func_vals_ st) = num_points_ st ->
  index_low < num_points_ st -> index_high < num_points_ st ->
  tolerance EPSILON_ st index_low index_high = Ok (spread EPSILON_ st index_low index_high).
Proof.
  intros Hlen Hlow Hhigh. unfold tolerance.
  bind_step by (apply load_value_at; lia).
  bind_step by (apply load_value_at; lia).
  reflexivity.
Qed.

Lemma lookup_swapped {A} (l : list A) (i : nat) (x y : A) :
  i < length l -> l !! 0 = Some x -> l !! i = Some y ->
  <[i := x]> (<[0 := y]> l) !! 0 = Some y.
Proof.
  intros Hi Hx Hy. destruct (decide (i = 0)) as [->|Hne].
  - rewrite list_lookup_insert_eq by (rewrite length_insert; lia). congruence.
  - rewrite list_lookup_insert_ne by exact Hne. apply list_lookup_insert_eq. lia.
Qed.

Lemma converged_eq (index_low : nat) (st : state D) :
  rectangular st -> index_low < num_points_ st ->
  converged index_low st = Ok (swapped_to_front index_low st).
Proof.
  intros (Hrows & Hcols & Hvals & Hsums) Hlow.
  destruct (lookup_lt_is_Some_2 (simplex_ st) 0 ltac:(lia)) as [p0 Hp0].
  destruct (lookup_lt_is_Some_2 (simplex_ st) index_low ltac:(lia)) as [pl Hpl].
  unfold converged, swapped_to_front. rewrite Hp0, Hpl. simpl.
  bind_step by (apply load_value_at; lia).
  bind_step by (apply load_value_at; lia).
  bind_step by (apply store_lt; lia).
  bind_step by (apply store_lt; rewrite length_insert; lia).
  bind_step by (apply load_Some; exact Hp0).
  bind_step by (apply load_Some; exact Hpl).
  bind_step by (apply store_lt; lia).
  bind_step by (apply store_lt; rewrite length_insert; lia).
  bind_step by (apply load_Some, (lookup_swapped _ _ p0 pl); [lia | exact Hp0 | exact Hpl]).
  bind_step by (apply load_Some, (lookup_swapped _ _ (value_at st 0) (value_at st index_low));
                [lia | apply lookup_value_at; lia | apply lookup_value_at; lia]).
  reflexivity.
Qed.

Lemma iteration_eq (st : state D) (index_low index_high index_next_high : nat) :
  rectangular st ->
  rank st = Ok (index_low, index_high, index_next_high) ->
  index_low < num_points_ st -> index_high < num_points_ st ->
  index_next_high < num_points_ st ->
  iteration objective_function EPSILON_ function_tol_ MAX_ITERS_ st
  = round objective_function EPSILON_ function_tol_ MAX_ITERS_ index_low index_high index_next_high st.
Proof.
  intros Hrect Hrank Hlow Hhigh Hnh. unfold iteration, round.
  rewrite (bind_Ok _ _ _ Hrank). cbv beta iota.
  assert (Hvals : length (func_vals_ st) = num_points_ st) by apply Hrect.
  rewrite (bind_Ok _ _ _ (tolerance_eq st index_low index_high Hvals Hlow Hhigh)).
  destruct (dltb _ _).
  - rewrite (bind_Ok _ _ _ (converged_eq index_low st Hrect Hlow)). reflexivity.
  - destruct (decide _); [reflexivity|].
    rewrite (bind_Ok _ _ _ (geometric_operator_eq _ _ _ st Hrect Hlow Hhigh Hnh)).
    reflexivity.
Qed.

(** A round of a rectangular state is the [round] of its ranking, or the
    fault of a ranking that reads [func_vals_[1]] where there is none. *)
Lemma iteration_cases (st : state D) :
  rectangular st ->
  (num_points_ st < 2 /\
   iteration objective_function EPSILON_ function_tol_ MAX_ITERS_ st = Undefined) \/
  (2 <= num_points_ st /\
   exists index_low index_high index_next_high,
     rank st = Ok (index_low, index_high, index_next_high) /\
     index_low < num_points_ st /\ index_high < num_points_ st /\
     index_next_high < num_points_ st /\
     iteration objective_function EPSILON_ function_tol_ MAX_ITERS_ st
     = round objective_function EPSILON_ function_tol_ MAX_ITERS_ index_low index_high index_next_high st).
Proof.
  intros Hrect. assert (Hvals : length (func_vals_ st) = num_points_ st) by apply Hrect.
  destruct (decide (num_points_ st < 2)) as [Hnp|Hnp].
  - left. split; [exact Hnp|]. unfold iteration.
    rewrite (rank_short st Hvals Hnp). reflexivity.
  - right. split; [lia|].
    destruct (rank_in_range st Hvals ltac:(lia)) as (lo & hi & nh & Hrank & Hlo & Hhi & Hnh).
    exists lo, hi, nh. repeat split; try assumption.
    apply iteration_eq; assumption.
Qed.

Lemma Forall_swapped {A} (P : A -> Prop) (l : list A) (i : nat) (x y : A) :
  l !! 0 = Some x -> l !! i = Some y ->
  Forall P (<[i := x]> (<[0 := y]> l)) -> Forall P l.
Proof.
  intros Hx Hy Hall. pose proof (lookup_lt_Some _ _ _ Hy) as Hi.
  pose proof (lookup_lt_Some _ _ _ Hx) as H0.
  apply Forall_lookup_2. intros k z Hk.
  destruct (decide (k = i)) as [->|Hki].
  - assert (z = y) as -> by congruence.
    apply (Forall_lookup_1 _ _ 0 _ Hall), (lookup_swapped l i x y Hi Hx Hy).
  - destruct (decide (k = 0)) as [->|Hk0].
    + assert (z = x) as -> by congruence.
      apply (Forall_lookup_1 _ _ i _ Hall).
      apply list_lookup_insert_eq. rewrite length_insert. exact Hi.
    + apply (Forall_lookup_1 _ _ k _ Hall).
      rewrite !list_lookup_insert_ne by congruence. exact Hk.
Qed.

Lemma swapped_elem_of {A} (l : list A) (i : nat) (x y p : A) :
  l !! 0 = Some x -> l !! i = Some y -> p ∈ <[i := x]> (<[0 := y]> l) -> p ∈ l.
Proof.
  intros Hx Hy Hp. apply list_elem_of_lookup_1 in Hp as [k Hk].
  apply list_lookup_insert_Some in Hk as [(_ & <- & _) | (_ & Hk)].
  - apply (list_elem_of_lookup_2 _ _ _ Hx).
  - apply list_lookup_insert_Some in Hk as [(_ & <- & _) | (_ & Hk)].
    + apply (list_elem_of_lookup_2 _ _ _ Hy).
    + apply (list_elem_of_lookup_2 _ _ _ Hk).
Qed.

(** ** What cannot throw *)

Lemma load_no_throw {A} (i : nat) (v : list A) : no_throw (load i v).
Proof. intros e. unfold load. destruct (v !! i); discriminate. Qed.

Lemma store_no_throw {A} (i : nat) (x : A) (v : list A) : no_throw (store i x v).
Proof. intros e. unfold store. destruct (decide _); discriminate. Qed.

Lemma bind_no_throw {A B} (m : result A) (k : A -> result B) :
  no_throw m -> (forall a, no_throw (k a)) -> no_throw (mbind k m).
Proof.
  intros Hm Hk e. destruct m as [a| e' | |]; simpl; try discriminate.
  - apply Hk.
  - destruct (Hm e' eq_refl).
Qed.

Lemma for_loop_no_throw {St} (body : nat -> St -> result St) (n i : nat) (s : St) :
  (forall k t, no_throw (body k t)) -> no_throw (for_loop body i n s).
Proof.
  intros Hbody. revert i s. induction n as [|n IH]; intros i s; simpl.
  - discriminate.
  - apply bind_no_throw; [apply Hbody | intros t; apply IH].
Qed.

Lemma evaluate_simplex_no_throw (st : state D) :
  no_throw (evaluate_simplex objective_function st).
Proof.
  unfold evaluate_simplex. apply bind_no_throw.
  - apply for_loop_no_throw. intros i [ep t]. apply bind_no_throw.
    + apply for_loop_no_throw. intros j ev.
      apply bind_no_throw; [apply load_no_throw | intros p_i].
      apply bind_no_throw; [apply load_no_throw | intros p_ij].
      apply store_no_throw.
    + intros ev. unfold call_objective.
      apply bind_no_throw; [apply store_no_throw | intros vals; discriminate].
  - intros [ep t]. discriminate.
Qed.

Lemma initialize_no_throw (initial_simplex : list (list D)) :
  no_throw (initialize objective_function initial_simplex).
Proof.
  unfold initialize. apply bind_no_throw; [apply load_no_throw | intros p_0].
  apply bind_no_throw; [apply evaluate_simplex_no_throw | intros st; discriminate].
Qed.

Lemma rank_no_throw (st : state D) : no_throw (rank st).
Proof.
  unfold rank.
  apply bind_no_throw; [apply load_no_throw | intros f_0].
  apply bind_no_throw; [apply load_no_throw | intros f_1].
  destruct (dgtb f_0 f_1); apply for_loop_no_throw; intros i [[lo hi] nh];
    (apply bind_no_throw; [apply load_no_throw | intros f_i]);
    (apply bind_no_throw; [apply load_no_throw | intros f_low]);
    (apply bind_no_throw; [apply load_no_throw | intros f_high]);
    (destruct (dgtb f_i f_high); [discriminate|]);
    (apply bind_no_throw; [apply load_no_throw | intros f_nh]);
    destruct (_ && _); discriminate.
Qed.

Lemma tolerance_no_throw (st : state D) (index_low index_high : nat) :
  no_throw (tolerance EPSILON_ st index_low index_high).
Proof.
  unfold tolerance.
  apply bind_no_throw; [apply load_no_throw | intros f_high].
  apply bind_no_throw; [apply load_no_throw | intros f_low]. discriminate.
Qed.

Lemma converged_no_throw (index_low : nat) (st : state D) :
  no_throw (converged index_low st).
Proof.
  unfold converged.
  repeat (apply bind_no_throw; [first [apply load_no_throw | apply store_no_throw] | intros ?]).
  discriminate.
Qed.

Lemma reflect_no_throw (st : state D) (index_worst : nat) (factor : D) :
  no_throw (reflect objective_function st index_worst factor).
Proof.
  unfold reflect. apply bind_no_throw.
  - unfold reflect_point. apply for_loop_no_throw. intros j ev.
    repeat (apply bind_no_throw; [apply load_no_throw | intros ?]).
    apply store_no_throw.
  - intros evaluations. unfold call_objective.
    apply bind_no_throw; [apply load_no_throw | intros worst_val].
    destruct (dltb _ _); [|discriminate].
    apply bind_no_throw; [apply store_no_throw | intros vals].
    apply bind_no_throw; [|intros t; discriminate].
    unfold reflect_commit. apply for_loop_no_throw. intros j t.
    repeat (apply bind_no_throw; [first [apply load_no_throw | apply store_no_throw] | intros ?]).
    discriminate.
Qed.

Lemma shrink_no_throw (index_low : nat) (st : state D) :
  no_throw (shrink objective_function index_low st).
Proof.
  unfold shrink. apply bind_no_throw; [|intros t; discriminate].
  apply for_loop_no_throw. intros i t. destruct (bool_decide _); [|discriminate].
  apply bind_no_throw.
  - apply for_loop_no_throw. intros j u.
    repeat (apply bind_no_throw; [first [apply load_no_throw | apply store_no_throw] | intros ?]).
    discriminate.
  - intros u. unfold call_objective.
    apply bind_no_throw; [apply store_no_throw | intros vals; discriminate].
Qed.

Lemma geometric_operator_no_throw (index_low index_high index_next_high : nat)
    (st : state D) :
  no_throw (geometric_operator objective_function index_low index_high index_next_high st).
Proof.
  unfold geometric_operator.
  apply bind_no_throw; [apply reflect_no_throw | intros [reflection st1]].
  apply bind_no_throw; [apply load_no_throw | intros f_low].
  destruct (dleb reflection f_low).
  - apply bind_no_throw; [apply reflect_no_throw | intros [? ?]; discriminate].
  - apply bind_no_throw; [apply load_no_throw | intros f_nh].
    destruct (dgeb reflection f_nh); [|discriminate].
    apply bind_no_throw; [apply reflect_no_throw | intros [contraction st2]].
    destruct (dgeb contraction f_nh); [apply shrink_no_throw | discriminate].
Qed.

(** A round throws only at the budget check of line 105. *)
Lemma iteration_Throw (st : state D) (e : exn) :
  iteration objective_function EPSILON_ function_tol_ MAX_ITERS_ st = Throw e ->
  exists index_low index_high index_next_high tol,
    rank st = Ok (index_low, index_high, index_next_high) /\
    tolerance EPSILON_ st index_low index_high = Ok tol /\
    dltb tol function_tol_ = false /\
    MAX_ITERS_ <= num_evals_ st.
Proof.
  unfold iteration. intros He.
  destruct (rank st) as [[[lo hi] nh]| e' | |] eqn:Hrank; simpl in He; try discriminate.
  2: { destruct (rank_no_throw st e' Hrank). }
  destruct (tolerance EPSILON_ st lo hi) as [tol| e' | |] eqn:Htol; simpl in He;
    try discriminate.
  2: { destruct (tolerance_no_throw st lo hi e' Htol). }
  exists lo, hi, nh, tol. split; [reflexivity|]. split; [exact Htol|].
  destruct (dltb tol function_tol_).
  - exfalso. destruct (converged lo st) as [m| e' | |] eqn:Hc; simpl in He; try discriminate.
    destruct (converged_no_throw lo st e' Hc).
  - split; [reflexivity|].
    destruct (decide (MAX_ITERS_ <= num_evals_ st)) as [Hmax|Hmax]; [exact Hmax|].
    exfalso.
    destruct (geometric_operator objective_function lo hi nh st) as [t| e' | |] eqn:Hg;
      simpl in He; try discriminate.
    destruct (geometric_operator_no_throw lo hi nh st e' Hg).
Qed.

(** ** A simplex of [N + 1] rows of length [N] *)

(** [minimize] takes the number of rows for the number of dimensions and the
    length of row 0 for the number of points: copying row 0 it reads
    [simplex_[0][N]], one past the end of the row. *)
Lemma evaluate_simplex_overrun (st : state D) (p_0 : list D) :
  simplex_ st !! 0 = Some p_0 ->
  length p_0 < num_dimensions_ st ->
  1 <= num_points_ st ->
  evaluate_simplex objective_function st = Undefined.
Proof.
  intros Hp0 Hlen Hnp. unfold evaluate_simplex.
  destruct (num_points_ st) as [|np]; [lia|]. simpl.
  rewrite (for_loop_split _ (length p_0) (num_dimensions_ st)) by lia.
  destruct (for_loop_invariant
    (fun (j : nat) (ev : list D) => length ev = num_dimensions_ st)
    (fun j evaluation_point =>
       p_i ← load 0 (simplex_ st);
       p_ij ← load j p_i;
       store j p_ij evaluation_point)
    (length p_0) 0 (replicate (num_dimensions_ st) d_zero))
    as (ev & -> & Hev).
  - apply length_replicate.
  - intros j ev Hj Hev.
    destruct (lookup_lt_is_Some_2 p_0 j ltac:(lia)) as [x Hx].
    bind_step by (apply load_Some; exact Hp0).
    bind_step by (apply load_Some; exact Hx).
    rewrite store_lt by lia. eexists. split; [reflexivity|].
    rewrite length_insert. exact Hev.
  - destruct (num_dimensions_ st - length p_0) as [|k] eqn:Ek; [lia|].
    simpl. rewrite (bind_Ok _ _ _ (load_Some _ _ _ Hp0)).
    rewrite (load_ge (length p_0) p_0) by lia. reflexivity.
Qed.

(** ** The loop *)

(** A run that returns, returns from a round whose spread is below the
    tolerance; up to that round the shape of the state is kept and the
    counter stays within the budget plus one move. *)
Lemma iterate_Ok (fuel : nat) (st : state D) (m : minimum D) :
  rectangular st ->
  iterate objective_function EPSILON_ function_tol_ MAX_ITERS_ fuel st = Ok m ->
  exists st' index_low index_high index_next_high,
    rectangular st' /\
    num_dimensions_ st' = num_dimensions_ st /\
    num_points_ st' = num_points_ st /\
    (paired objective_function st -> paired objective_function st') /\
    num_evals_ st' <= Nat.max (num_evals_ st) (MAX_ITERS_ + num_dimensions_ st + 1) /\
    2 <= num_points_ st /\
    rank st' = Ok (index_low, index_high, index_next_high) /\
    index_low < num_points_ st /\ index_high < num_points_ st /\
    dltb (spread EPSILON_ st' index_low index_high) function_tol_ = true /\
    m = swapped_to_front index_low st'.
Proof.
  revert st. induction fuel as [|fuel IH]; intros st Hrect Hrun; [discriminate|].
  simpl in Hrun.
  destruct (iteration_cases st Hrect) as [[_ E] | (Hnp & lo & hi & nh & Hrank & Hlo & Hhi & Hnh & E)];
    rewrite E in Hrun; [discriminate|].
  unfold round in Hrun. destruct (dltb _ _) eqn:Etol.
  - simpl in Hrun. injection Hrun as <-. exists st, lo, hi, nh.
    split; [exact Hrect|]. split; [reflexivity|]. split; [reflexivity|].
    split; [tauto|]. split; [lia|]. split; [exact Hnp|]. split; [exact Hrank|].
    split; [exact Hlo|]. split; [exact Hhi|]. split; [exact Etol | reflexivity].
  - destruct (decide _) as [Hmax|Hmax]; [discriminate|]. simpl in Hrun.
    destruct (move_frame dleb lo hi nh st Hrect Hlo Hhi)
      as (Hrect1 & Hnd1 & Hnp1 & (_ & Hcost) & Hp1).
    destruct (IH _ Hrect1 Hrun)
      as (st' & lo' & hi' & nh' & Hr' & Hnd' & Hnp' & Hp' & Hev' & Hnp2 & Hrank' & Hlo' & Hhi' & Htol' & ->).
    exists st', lo', hi', nh'.
    split; [exact Hr'|]. split; [congruence|]. split; [congruence|].
    split; [tauto|]. split; [|split; [lia|]].
    + rewrite Hnd1 in Hev'. lia.
    + split; [exact Hrank'|]. split; [lia|]. split; [lia|]. split; [exact Htol' | reflexivity].
Qed.

(** ** The first state *)

Lemma initialize_eq (initial_simplex : list (list D)) (p_0 : list D) :
  initial_simplex !! 0 = Some p_0 ->
  length p_0 <= length initial_simplex ->
  (forall i p, i < length p_0 -> initial_simplex !! i = Some p ->
               length initial_simplex <= length p) ->
  let points := take (length initial_simplex) <$> take (length p_0) initial_simplex in
  initialize objective_function initial_simplex
  = Ok (mkState (length initial_simplex) (length p_0) initial_simplex
                (objective_function <$> points) 0
                (dimension_sums (length initial_simplex) initial_simplex) points).
Proof.
  intros Hp0 Hrows Hcols points. unfold initialize.
  rewrite (bind_Ok _ _ _ (load_Some _ _ _ Hp0)).
  rewrite evaluate_simplex_eq; simpl; try assumption.
  - reflexivity.
  - apply length_replicate.
Qed.

(** A square simplex is the one shape [minimize] reads inside its rows: the
    first state is then rectangular, and its values are paired. *)
Lemma initialize_square (initial_simplex : list (list D)) :
  1 <= length initial_simplex ->
  Forall (fun p => length p = length initial_simplex) initial_simplex ->
  let st := mkState (length initial_simplex) (length initial_simplex) initial_simplex
                    (objective_function <$> initial_simplex) 0
                    (dimension_sums (length initial_simplex) initial_simplex)
                    initial_simplex in
  initialize objective_function initial_simplex = Ok st /\ rectangular st /\ paired objective_function st.
Proof.
  intros Hlen Hall st.
  destruct (lookup_lt_is_Some_2 initial_simplex 0 ltac:(lia)) as [p_0 Hp0].
  pose proof (Forall_lookup_1 _ _ _ _ Hall Hp0) as Hp0l. simpl in Hp0l.
  assert (Hpts : take (length initial_simplex) <$> take (length p_0) initial_simplex
                 = initial_simplex).
  { rewrite Hp0l, take_ge by lia. apply list_eq. intros i.
    rewrite list_lookup_fmap. destruct (initial_simplex !! i) as [p|] eqn:Hp; [|reflexivity].
    simpl. rewrite take_ge; [reflexivity|].
    pose proof (Forall_lookup_1 _ _ _ _ Hall Hp) as Hpl. simpl in Hpl. lia. }
  split; [|split].
  - rewrite (initialize_eq initial_simplex p_0 Hp0); [|lia|].
    + cbv zeta. rewrite Hpts, Hp0l. reflexivity.
    + intros i p _ Hp. pose proof (Forall_lookup_1 _ _ _ _ Hall Hp) as Hpl.
      simpl in Hpl. lia.
  - unfold rectangular, st. simpl. rewrite length_fmap, dimension_sums_length.
    repeat split; try reflexivity. exact Hall.
  - reflexivity.
Qed.

Section Ordered.
Context {laws : OrderLaws D}.

Lemma dleb_refl (a : D) : number a -> dleb a a = true.
Proof. intros Ha. destruct (dleb_total a a Ha Ha); assumption. Qed.

Lemma dltb_false (a b : D) : number a -> number b -> dltb a b = false -> dleb b a = true.
Proof.
  intros Ha Hb. rewrite (dltb_dleb a b Ha Hb).
  destruct (dleb b a); [reflexivity | discriminate].
Qed.

Lemma dleb_false (a b : D) : number a -> number b -> dleb a b = false -> dltb b a = true.
Proof. intros Ha Hb. rewrite (dltb_dleb b a Hb Ha). intros ->. reflexivity. Qed.

Lemma dltb_dleb_weak (a b : D) : number a -> number b -> dltb a b = true -> dleb a b = true.
Proof.
  intros Ha Hb. rewrite (dltb_dleb a b Ha Hb).
  destruct (dleb_total a b Ha Hb) as [E|E]; [intros _; exact E|].
  rewrite E. discriminate.
Qed.

Lemma dleb_dltb_trans (a b c : D) :
  number a -> number b -> number c ->
  dleb a b = true -> dltb b c = true -> dltb a c = true.
Proof.
  intros Ha Hb Hc Hab Hbc. rewrite (dltb_dleb a c Ha Hc). rewrite (dltb_dleb b c Hb Hc) in Hbc.
  destruct (dleb c a) eqn:Hca; [|reflexivity].
  rewrite (dleb_trans c a b Hca Hab) in Hbc. discriminate.
Qed.

Lemma dltb_dleb_trans (a b c : D) :
  number a -> number b -> number c ->
  dltb a b = true -> dleb b c = true -> dltb a c = true.
Proof.
  intros Ha Hb Hc Hab Hbc. rewrite (dltb_dleb a c Ha Hc). rewrite (dltb_dleb a b Ha Hb) in Hab.
  destruct (dleb c a) eqn:Hca; [|reflexivity].
  rewrite (dleb_trans b c a Hbc Hca) in Hab. discriminate.
Qed.

(** The values of a state are numbers. *)
Lemma value_at_number (st : state D) (k : nat) :
  Forall number (func_vals_ st) -> k < length (func_vals_ st) -> number (value_at st k).
Proof.
  intros Hall Hk. apply (Forall_lookup_1 _ _ k _ Hall). apply lookup_value_at, Hk.
Qed.

Lemma rank_ranked (st : state D) :
  length (func_vals_ st) = num_points_ st -> 2 <= num_points_ st ->
  Forall number (func_vals_ st) ->
  exists index_low index_high index_next_high,
    rank st = Ok (index_low, index_high, index_next_high) /\
    ranked st index_low index_high index_next_high.
Proof.
  intros Hlen Hnp Hall. unfold rank.
  bind_step by (apply load_value_at; lia).
  bind_step by (apply load_value_at; lia).
  set (v := value_at st).
  assert (Hnum : forall k, k < num_points_ st -> number (v k)).
  { intros k Hk. apply value_at_number; [exact Hall | lia]. }
  assert (Hrefl : forall k, k < num_points_ st -> dleb (v k) (v k) = true).
  { intros k Hk. apply dleb_refl, Hnum, Hk. }
  assert (Hweak : forall j k, j < num_points_ st -> k < num_points_ st ->
                              dltb (v j) (v k) = true -> dleb (v j) (v k) = true).
  { intros j k Hj Hk. apply dltb_dleb_weak; apply Hnum; assumption. }
  assert (Hnlt : forall j k, j < num_points_ st -> k < num_points_ st ->
                             dltb (v j) (v k) = false -> dleb (v k) (v j) = true).
  { intros j k Hj Hk. apply dltb_false; apply Hnum; assumption. }
  assert (Hnle : forall j k, j < num_points_ st -> k < num_points_ st ->
                             dleb (v j) (v k) = false -> dltb (v k) (v j) = true).
  { intros j k Hj Hk. apply dleb_false; apply Hnum; assumption. }
  assert (Hlelt : forall j k l, j < num_points_ st -> k < num_points_ st ->
                                l < num_points_ st ->
                                dleb (v j) (v k) = true -> dltb (v k) (v l) = true ->
                                dltb (v j) (v l) = true).
  { intros j k l Hj Hk Hl. apply dleb_dltb_trans; apply Hnum; assumption. }
  assert (Hexcl : forall j k, j < num_points_ st -> k < num_points_ st ->
                              dleb (v j) (v k) = true -> dltb (v k) (v j) = true -> False).
  { intros j k Hj Hk Hle Hlt. rewrite (dltb_dleb _ _ (Hnum k Hk) (Hnum j Hj)), Hle in Hlt.
    discriminate. }
  set (start := if dgtb _ _ then (0, 1) else (1, 0)).
  set (inv := fun (i : nat) '(lo, hi, nh) =>
    (lo < i \/ lo = 0) /\ hi < Nat.max i 2 /\ nh < Nat.max i 2 /\ nh ≠ hi /\
    (forall k, k < i -> dleb (v lo) (v k) = true) /\
    (forall k, lo < k < i -> dltb (v lo) (v k) = true) /\
    (forall k, k < Nat.max i 2 -> dleb (v k) (v hi) = true) /\
    (forall k, 1 <= k < hi -> dltb (v k) (v hi) = true) /\
    (forall k, k < Nat.max i 2 -> k ≠ hi -> dleb (v k) (v nh) = true) /\
    (hi = 0 -> dgtb (v 0) (v 1) = true)).
  assert (Hstart : inv 0 (0, start.1, start.2)).
  { unfold inv, start, dgtb. fold v. destruct (dltb (v 1) (v 0)) eqn:E; simpl.
    - repeat split; try lia.
      + intros k Hk. assert (k = 0 \/ k = 1) as [-> | ->] by lia;
          [apply Hrefl; lia | apply Hweak; [lia | lia | exact E]].
      + intros k Hk Hne. assert (k = 1) as -> by lia. apply Hrefl. lia.
    - repeat split; try lia.
      + intros k Hk. assert (k = 0 \/ k = 1) as [-> | ->] by lia;
          [apply Hnlt; [lia | lia | exact E] | apply Hrefl; lia].
      + intros k Hk Hne. assert (k = 0) as -> by lia. apply Hrefl. lia. }
  destruct start as [h0 n0]. simpl in Hstart.
  destruct (for_loop_invariant inv
    (fun i '(index_low, index_high, index_next_high) =>
      f_i ← load i (func_vals_ st);
      f_low ← load index_low (func_vals_ st);
      let index_low := if dleb f_i f_low then i else index_low in
      f_high ← load index_high (func_vals_ st);
      if dgtb f_i f_high then mret (index_low, i, index_high)
      else
        f_next_high ← load index_next_high (func_vals_ st);
        if dgtb f_i f_next_high && bool_decide (i ≠ index_high)
        then mret (index_low, index_high, i)
        else mret (index_low, index_high, index_next_high))
    (num_points_ st) 0 (0, h0, n0) Hstart)
    as ([[lo hi] nh] & Hloop & HP).
  - intros i [[lo hi] nh] Hi
           (Hlo & Hhi & Hnh & Hne & Hmin & Hlast & Hmax & Htie & Hsec & Hzero).
    assert (Hi' : i < num_points_ st) by lia.
    assert (Hlo_n : lo < num_points_ st) by lia.
    assert (Hhi_n : hi < num_points_ st) by lia.
    assert (Hnh_n : nh < num_points_ st) by lia.
    bind_step by (apply load_value_at; lia).
    bind_step by (apply load_value_at; lia).
    bind_step by (apply load_value_at; lia).
    fold v. unfold dgtb.
    set (lo' := if dleb (v i) (v lo) then i else lo).
    assert (Hlow : (lo' < S i \/ lo' = 0) /\
                   (forall k, k < S i -> dleb (v lo') (v k) = true) /\
                   (forall k, lo' < k < S i -> dltb (v lo') (v k) = true)).
    { unfold lo'. destruct (dleb (v i) (v lo)) eqn:E.
      - split; [lia|]. split; [|intros k Hk; lia].
        intros k Hk. destruct (decide (k = i)) as [->|]; [apply Hrefl, Hi'|].
        apply (dleb_trans _ (v lo)); [exact E | apply Hmin; lia].
      - apply (Hnle i lo Hi' Hlo_n) in E. split; [lia|]. split; intros k Hk.
        + destruct (decide (k = i)) as [->|];
            [apply (Hweak lo i Hlo_n Hi' E) | apply Hmin; lia].
        + destruct (decide (k = i)) as [->|]; [exact E | apply Hlast; lia]. }
    destruct Hlow as (Hlo' & Hmin' & Hlast').
    destruct (dltb (v hi) (v i)) eqn:Ehi.
    + assert (2 <= i).
      { destruct (decide (2 <= i)); [assumption|]. exfalso.
        apply (Hexcl i hi Hi' Hhi_n); [apply Hmax; lia | exact Ehi]. }
      eexists. split; [reflexivity|]. unfold inv.
      repeat split; try assumption; try lia.
      * intros k Hk. destruct (decide (k = i)) as [->|]; [apply Hrefl, Hi'|].
        apply (dleb_trans _ (v hi)); [apply Hmax; lia | apply (Hweak hi i Hhi_n Hi' Ehi)].
      * intros k Hk. apply (Hlelt k hi i); [lia | lia | lia | apply Hmax; lia | exact Ehi].
      * intros k Hk Hki. apply Hmax. lia.
    + apply (Hnlt hi i Hhi_n Hi') in Ehi.
      bind_step by (apply load_value_at; lia).
      fold v. destruct (dltb (v nh) (v i)) eqn:Enh; simpl; [case_bool_decide as Hih|]; simpl.
      * assert (2 <= i).
        { destruct (decide (2 <= i)); [assumption|]. exfalso.
          apply (Hexcl i nh Hi' Hnh_n); [apply Hsec; [lia | exact Hih] | exact Enh]. }
        eexists. split; [reflexivity|]. unfold inv.
        repeat split; try assumption; try lia.
        -- intros k Hk. destruct (decide (k = i)) as [->|]; [exact Ehi | apply Hmax; lia].
        -- intros k Hk Hki. destruct (decide (k = i)) as [->|]; [apply Hrefl, Hi'|].
           apply (dleb_trans _ (v nh)); [apply Hsec; [lia | exact Hki]|].
           apply (Hweak nh i Hnh_n Hi' Enh).
      * assert (i = hi) as Hih' by (destruct (decide (i = hi)); [assumption | contradiction]).
        eexists. split; [reflexivity|]. unfold inv.
        repeat split; try assumption; try lia.
        -- intros k Hk. destruct (decide (k = i)) as [->|]; [exact Ehi | apply Hmax; lia].
        -- intros k Hk Hki. apply Hsec; [lia | exact Hki].
      * apply (Hnlt nh i Hnh_n Hi') in Enh.
        eexists. split; [reflexivity|]. unfold inv.
        repeat split; try assumption; try lia.
        -- intros k Hk. destruct (decide (k = i)) as [->|]; [exact Ehi | apply Hmax; lia].
        -- intros k Hk Hki. destruct (decide (k = i)) as [->|]; [exact Enh|].
           apply Hsec; [lia | exact Hki].
  - exists lo, hi, nh. split; [exact Hloop|].
    destruct HP as (Hlo & Hhi & Hnh & Hne & Hmin & Hlast & Hmax & Htie & Hsec & Hzero).
    simpl in *. unfold ranked. fold v.
    replace (Nat.max (num_points_ st) 2) with (num_points_ st) in * by lia.
    repeat split; try assumption; lia.
Qed.

End Ordered.

End Facts.

(** ** Exact arithmetic *)

#[export] Instance Q_laws : OrderLaws Q.
Proof.
  refine {| number := fun _ => True |}.
  - intros a b _ _. simpl. rewrite !Qle_bool_iff.
    destruct (Qlt_le_dec a b) as [Hlt|Hle]; [left; apply Qlt_le_weak, Hlt | right; exact Hle].
  - intros a b c. simpl. rewrite !Qle_bool_iff. apply Qle_trans.
  - intros a b _ _. reflexivity.
Defined.

(** ** IEEE 754 arithmetic *)

Lemma Prim2SF_not_nan (x : float) : PrimFloat.is_nan x = false -> Prim2SF x ≠ S754_nan.
Proof.
  intros Hx. unfold Prim2SF. rewrite Hx.
  destruct (PrimFloat.is_zero x); [discriminate|].
  destruct (PrimFloat.is_infinity x); [discriminate|].
  destruct (Z.frexp x) as [r e].
  destruct (shr_fexp _ _ _ _ _) as [shr e'].
  destruct (shr_m shr); discriminate.
Qed.

(** The comparison of two floats that are not NaN, read the other way. *)
Lemma SFcompare_flip (a b : spec_float) :
  a ≠ S754_nan -> b ≠ S754_nan ->
  exists c, SFcompare a b = Some c /\ SFcompare b a = Some (CompOpp c).
Proof.
  intros Ha Hb.
  destruct a as [sa|sa| |sa ma ea], b as [sb|sb| |sb mb eb]; try congruence;
    try (destruct sa, sb; simpl; eexists; split; reflexivity);
    try (destruct sa; simpl; eexists; split; reflexivity);
    try (destruct sb; simpl; eexists; split; reflexivity).
  simpl. change (Pos.compare_cont Eq) with Pos.compare.
  rewrite (Z.compare_antisym ea eb), (Pos.compare_antisym ma mb).
  destruct sa, sb; try (eexists; split; reflexivity);
    destruct (ea ?= eb)%Z; simpl; eexists; split; reflexivity.
Qed.

Lemma SFleb_trans (a b c : spec_float) :
  SFleb a b = true -> SFleb b c = true -> SFleb a c = true.
Proof.
  unfold SFleb.
  destruct a as [sa|sa| |sa ma ea], b as [sb|sb| |sb mb eb], c as [sc|sc| |sc mc ec];
    simpl; try discriminate; try reflexivity;
    try (destruct sa; simpl; try discriminate; try reflexivity);
    try (destruct sb; simpl; try discriminate; try reflexivity);
    try (destruct sc; simpl; try discriminate; try reflexivity).
  all: change (Pos.compare_cont Eq) with Pos.compare.
  all: destruct (Z.compare_spec ea eb), (Z.compare_spec eb ec), (Z.compare_spec ea ec);
    simpl; try discriminate; try reflexivity; try lia.
  all: subst.
  all: destruct (Pos.compare_spec ma mb), (Pos.compare_spec mb mc), (Pos.compare_spec ma mc);
    simpl; try discriminate; try reflexivity; try lia.
Qed.

(** The comparisons of binary64 obey the order laws on every value that is
    not NaN. *)
#[export] Instance float_laws : OrderLaws float.
Proof.
  refine {| number := fun x => PrimFloat.is_nan x = false |}.
  - intros a b Ha Hb. simpl. rewrite !FloatAxioms.leb_spec. unfold SFleb.
    destruct (SFcompare_flip _ _ (Prim2SF_not_nan a Ha) (Prim2SF_not_nan b Hb))
      as (c & -> & ->).
    destruct c; simpl; auto.
  - intros a b c. simpl. rewrite !FloatAxioms.leb_spec. apply SFleb_trans.
  - intros a b Ha Hb. simpl. rewrite FloatAxioms.ltb_spec, FloatAxioms.leb_spec. unfold SFltb, SFleb.
    destruct (SFcompare_flip _ _ (Prim2SF_not_nan a Ha) (Prim2SF_not_nan b Hb))
      as (c & -> & ->).
    destruct c; reflexivity.
Defined.

Lemma foldl_Qplus_acc (a : Q) (l : list Q) :
  (foldl Qplus a l == a + foldl Qplus 0 l)%Q.
Proof.
  revert a. induction l as [|x l IH]; intros a; simpl.
  - ring.
  - rewrite (IH (a + x)%Q), (IH (0 + x)%Q). ring.
Qed.

(** A sum over the rows is the term of one row plus the sum over the rest. *)
Lemma sum_delete (g : list Q -> Q) (simplex : list (list Q)) (i : nat) (p : list Q) :
  simplex !! i = Some p ->
  (foldl Qplus 0 (g <$> simplex) == g p + foldl Qplus 0 (g <$> delete i simplex))%Q.
Proof.
  revert i. induction simplex as [|q simplex IH]; intros [|i] Hp; try discriminate.
  - cbn in Hp. injection Hp as ->. cbn. rewrite foldl_Qplus_acc. ring.
  - cbn in Hp.
    change (foldl Qplus (0 + g q) (g <$> simplex)
            == g p + foldl Qplus (0 + g q) (g <$> delete i simplex))%Q.
    rewrite (foldl_Qplus_acc (0 + g q)%Q (g <$> simplex)).
    rewrite (foldl_Qplus_acc (0 + g q)%Q (g <$> delete i simplex)).
    rewrite (IH i Hp). ring.
Qed.

Lemma dimension_sums_lookup {D} `{DoubleOps D} (n j : nat) (simplex : list (list D)) :
  j < n ->
  dimension_sums n simplex !! j
  = Some (foldl dadd d_zero ((fun row => nth j row d_zero) <$> simplex)).
Proof.
  intros Hj. unfold dimension_sums. rewrite list_lookup_fmap, lookup_seq_lt by exact Hj.
  reflexivity.
Qed.

(** * The claims *)

Section Claims.
Context {D : Type} `{DoubleOps D}.
Variable objective_function : list D -> D.
Variable EPSILON_ : D.
Variable function_tol_ : D.
Variable MAX_ITERS_ : nat.

(** ** C5: [reflect] replaces the worst vertex or leaves everything alone *)

(** C5.  A call of [reflect] on a rectangular state evaluates the trial point
    once and returns its value.  When that value is below the worst value,
    the worst vertex becomes the trial point, its paired value the trial
    value, and every dimension sum moves by new minus old; otherwise the
    simplex, the values and the sums are what they were. *)
Theorem reflect_commits_or_leaves (st : state D) (index_worst : nat) (factor : D) :
  rectangular st -> index_worst < num_points_ st ->
  let trial := trial_of index_worst factor st in
  let value := objective_function trial in
  let worst := default [] (simplex_ st !! index_worst) in
  exists st',
    reflect objective_function st index_worst factor = Ok (value, st') /\
    evaluated st' = evaluated st ++ [trial] /\
    num_evals_ st' = num_evals_ st /\
    (dltb value (value_at st index_worst) = true ->
       simplex_ st' = <[index_worst := trial]> (simplex_ st) /\
       func_vals_ st' = <[index_worst := value]> (func_vals_ st) /\
       simplex_sums st'
       = zip_with dadd (simplex_sums st) (zip_with dsub trial worst)) /\
    (dltb value (value_at st index_worst) = false ->
       simplex_ st' = simplex_ st /\
       func_vals_ st' = func_vals_ st /\
       simplex_sums st' = simplex_sums st).
Proof.
  intros Hrect Hiw trial value worst.
  rewrite (reflect_eq objective_function st index_worst factor Hrect Hiw).
  unfold try_replace, call_objective. cbv zeta.
  fold (trial_of index_worst factor st). fold trial. fold value.
  cbn [func_vals_ set_evaluated]. fold (value_at st index_worst).
  eexists. split; [reflexivity|].
  destruct (dltb value (value_at st index_worst)); simpl.
  - repeat split; intros; try discriminate; reflexivity.
  - repeat split; intros; try discriminate; reflexivity.
Qed.

(** ** C7: the ranking pass *)


(** ** C2: the convergence test *)

(** A round whose spread is below the tolerance returns the best vertex. *)
Lemma round_converges `{!OrderLaws D} (st : state D) :
  rectangular st -> paired objective_function st -> 2 <= num_points_ st ->
  Forall number (func_vals_ st) ->
  exists index_low index_high index_next_high,
    rank st = Ok (index_low, index_high, index_next_high) /\
    tolerance EPSILON_ st index_low index_high
    = Ok (spread EPSILON_ st index_low index_high) /\
    (dltb (spread EPSILON_ st index_low index_high) function_tol_ = true ->
     exists m,
       (forall fuel,
          iterate objective_function EPSILON_ function_tol_ MAX_ITERS_ (S fuel) st = Ok m) /\
       simplex_ st !! index_low = Some (simplex_mins m) /\
       func_vals_ st !! index_low = Some (func_min_ m) /\
       simplex_ (final m)
       = <[index_low := default [] (simplex_ st !! 0)]>
           (<[0 := simplex_mins m]> (simplex_ st)) /\
       func_vals_ (final m)
       = <[index_low := value_at st 0]> (<[0 := func_min_ m]> (func_vals_ st)) /\
       simplex_ (final m) !! 0 = Some (simplex_mins m) /\
       func_vals_ (final m) !! 0 = Some (func_min_ m) /\
       func_min_ m = objective_function (simplex_mins m) /\
       (forall p, p ∈ simplex_ (final m) ->
          dleb (objective_function (simplex_mins m)) (objective_function p) = true)) /\
    (dltb (spread EPSILON_ st index_low index_high) function_tol_ = false ->
     forall m,
       iteration objective_function EPSILON_ function_tol_ MAX_ITERS_ st ≠ Ok (Return m)).
Proof.
  intros Hrect Hpaired Hnp Hnum.
  pose proof Hrect as (Hrows & Hcols & Hvals & Hsums).
  destruct (rank_ranked st Hvals Hnp Hnum) as (lo & hi & nh & Hrank & Hranked).
  destruct Hranked as (Hlo & Hhi & Hnh & Hne & Hmin & _).
  exists lo, hi, nh. split; [exact Hrank|].
  split; [apply tolerance_eq; assumption|].
  pose proof (iteration_eq objective_function EPSILON_ function_tol_ MAX_ITERS_
                st lo hi nh Hrect Hrank Hlo Hhi Hnh) as Hround.
  unfold round in Hround.
  destruct (lookup_lt_is_Some_2 (simplex_ st) 0 ltac:(lia)) as [p0 Hp0].
  destruct (lookup_lt_is_Some_2 (simplex_ st) lo ltac:(lia)) as [pl Hpl].
  assert (Hvalue : forall k p, simplex_ st !! k = Some p ->
                               value_at st k = objective_function p).
  { intros k p Hk. unfold value_at. rewrite Hpaired, list_lookup_fmap, Hk. reflexivity. }
  split.
  - intros Htol. rewrite Htol in Hround.
    exists (swapped_to_front lo st). unfold swapped_to_front. simpl.
    rewrite Hp0, Hpl. simpl.
    split.
    { intros fuel. simpl. rewrite Hround. simpl. unfold swapped_to_front.
      rewrite Hp0, Hpl. reflexivity. }
    split; [reflexivity|].
    split; [apply lookup_value_at; lia|].
    split; [reflexivity|]. split; [reflexivity|].
    split; [apply (lookup_swapped _ _ p0 pl); [lia | exact Hp0 | exact Hpl]|].
    split.
    { apply (lookup_swapped _ _ (value_at st 0) (value_at st lo));
        [lia | apply lookup_value_at; lia | apply lookup_value_at; lia]. }
    split; [apply Hvalue, Hpl|].
    intros p Hp. apply (swapped_elem_of _ _ p0 pl p Hp0 Hpl) in Hp.
    apply list_elem_of_lookup_1 in Hp as [k Hk].
    rewrite <- (Hvalue lo pl Hpl), <- (Hvalue k p Hk).
    apply Hmin. apply lookup_lt_Some in Hk. lia.
  - intros Htol m. rewrite Hround, Htol.
    destruct (decide _); discriminate.
Qed.


(** ** C10: the convergence test comes before the budget check *)

(** C10.  In a round of a rectangular state whose spread is below the
    tolerance, the run returns the best vertex whatever the counter is, also
    when it has reached or passed [MAX_ITERS_]; and a round that throws,
    whatever its state, is a round whose ranking went through, whose spread
    is not below the tolerance, and whose counter has reached [MAX_ITERS_]. *)
Theorem convergence_before_budget (st : state D) :
  (rectangular st -> 2 <= num_points_ st ->
   exists index_low index_high index_next_high,
     rank st = Ok (index_low, index_high, index_next_high) /\
     (dltb (spread EPSILON_ st index_low index_high) function_tol_ = true ->
      forall fuel,
        iterate objective_function EPSILON_ function_tol_ MAX_ITERS_ (S fuel) st
        = Ok (swapped_to_front index_low st))) /\
  (forall e,
     iteration objective_function EPSILON_ function_tol_ MAX_ITERS_ st = Throw e ->
     exists index_low index_high index_next_high tol,
       rank st = Ok (index_low, index_high, index_next_high) /\
       tolerance EPSILON_ st index_low index_high = Ok tol /\
       dltb tol function_tol_ = false /\
       MAX_ITERS_ <= num_evals_ st).
Proof.
  split; [|intros e; apply iteration_Throw].
  intros Hrect Hnp.
  destruct (iteration_cases objective_function EPSILON_ function_tol_ MAX_ITERS_ st Hrect)
    as [[Hnp' E] | (_ & lo & hi & nh & Hrank & Hlo & Hhi & Hnh & E)]; [lia|].
  unfold round in E. exists lo, hi, nh. split; [exact Hrank|].
  intros Htol fuel. rewrite Htol in E. simpl. rewrite E. reflexivity.
Qed.

(** ** C1: one move of the simplex *)

(** C1, as the code has it.  In a round that goes on, with the indices of the
    ranking, a best vertex that is not the worst one, and values and a
    reflected value that are numbers (none is NaN), the move is
    [simplex_move] with "better than or equal to the best value" as the test
    for the expansion. *)
Theorem geometric_operator_moves `{!OrderLaws D} (st : state D)
    (index_low index_high index_next_high : nat) :
  rectangular st -> 2 <= num_points_ st ->
  rank st = Ok (index_low, index_high, index_next_high) ->
  index_high ≠ index_low ->
  Forall number (func_vals_ st) ->
  number (objective_function (trial_of index_high d_minus_one st)) ->
  geometric_operator objective_function index_low index_high index_next_high st
  = Ok (simplex_move objective_function dleb index_low index_high index_next_high st).
Proof.
  intros Hrect Hnp Hrank Hhl Hnum Hr.
  pose proof Hrect as (Hrows & Hcols & Hvals & Hsums).
  destruct (rank_ranked st Hvals Hnp Hnum) as (lo & hi & nh & Hrank' & Hranked).
  rewrite Hrank in Hrank'. injection Hrank' as <- <- <-.
  destruct Hranked as (Hlo & Hhi & Hnh & Hne & _ & _ & Hmax & _).
  rewrite (geometric_operator_eq objective_function _ _ _ st Hrect Hlo Hhi Hnh).
  f_equal. unfold move, simplex_move.
  set (st0 := set_num_evals_ _ st).
  assert (Hrect0 : rectangular st0) by (apply set_num_evals_rectangular, Hrect).
  pose proof (try_replace_frame objective_function index_high d_minus_one st0 Hrect0 Hhi)
    as (_ & _ & _ & _ & _ & Hother & _).
  rewrite (try_replace_unfold objective_function index_high d_minus_one st0) in *.
  cbv zeta in *. cbn [snd] in Hother.
  change (trial_of index_high d_minus_one st0) with (trial_of index_high d_minus_one st) in *.
  set (trial := trial_of index_high d_minus_one st) in *.
  set (r := objective_function trial) in *.
  rewrite (Hother index_low) by congruence.
  rewrite (Hother index_next_high) by exact Hne.
  change (value_at st0) with (value_at st).
  destruct (dleb r (value_at st index_low)); [reflexivity|].
  unfold dgeb at 1 3.
  destruct (dleb (value_at st index_next_high) r) eqn:Enh; [reflexivity|].
  assert (Hnh_num : number (value_at st index_next_high))
    by (apply value_at_number; [exact Hnum | lia]).
  assert (Hhi_num : number (value_at st index_high))
    by (apply value_at_number; [exact Hnum | lia]).
  apply (dleb_false _ _ Hnh_num Hr) in Enh.
  rewrite (dltb_dleb_trans _ _ _ Hr Hnh_num Hhi_num Enh (Hmax index_next_high Hnh)).
  reflexivity.
Qed.

(** ** C3: the evaluation counter *)

(** C3, as the code has it.  A move adds to the counter 1 for a reflection
    alone, 2 for a reflection with its expansion or contraction, and
    [2 + num_dimensions_] with a shrink, while the objective is called 1, 2
    or [2 + (num_points_ - 1)] times.  The budget is looked at only at the
    start of a round that has not converged: a round throws only when the
    counter has reached [MAX_ITERS_], and the counter of a run of a square
    simplex that returns is at most [MAX_ITERS_] plus one full move, that
    is [MAX_ITERS_ + num_dimensions_ + 1].  The error is raised there and
    nowhere else: a round throws exactly when its ranking has gone through,
    its test value is not below [function_tol_] and its counter has reached
    [MAX_ITERS_]. *)
Theorem evaluation_budget (initial_simplex : list (list D)) (fuel : nat) :
  1 <= length initial_simplex ->
  Forall (fun p => length p = length initial_simplex) initial_simplex ->
  (forall m,
     minimize objective_function EPSILON_ function_tol_ MAX_ITERS_ fuel initial_simplex
     = Ok m ->
     num_evals_ (final m) <= MAX_ITERS_ + length initial_simplex + 1) /\
  (forall st index_low index_high index_next_high,
     rectangular st -> index_low < num_points_ st -> index_high < num_points_ st ->
     index_next_high < num_points_ st ->
     exists st',
       geometric_operator objective_function index_low index_high index_next_high st
       = Ok st' /\
       ((num_evals_ st' = num_evals_ st + 1 /\
         length (evaluated st') = length (evaluated st) + 1) \/
        (num_evals_ st' = num_evals_ st + 2 /\
         length (evaluated st') = length (evaluated st) + 2) \/
        (num_evals_ st' = num_evals_ st + 2 + num_dimensions_ st /\
         length (evaluated st') = length (evaluated st) + 2 + (num_points_ st - 1)))) /\
  (forall st e,
     iteration objective_function EPSILON_ function_tol_ MAX_ITERS_ st = Throw e ->
     MAX_ITERS_ <= num_evals_ st) /\
  (forall st,
     iteration objective_function EPSILON_ function_tol_ MAX_ITERS_ st
     = Throw MaxIterationsExceeded <->
     exists index_low index_high index_next_high tol,
       rank st = Ok (index_low, index_high, index_next_high) /\
       tolerance EPSILON_ st index_low index_high = Ok tol /\
       dltb tol function_tol_ = false /\
       MAX_ITERS_ <= num_evals_ st).
Proof.
  intros Hlen Hall. split; [|split; [|split]].
  - intros m Hrun. unfold minimize in Hrun.
    destruct (initialize_square objective_function initial_simplex Hlen Hall)
      as (Hinit & Hrect & _).
    rewrite Hinit in Hrun. simpl in Hrun.
    destruct (iterate_Ok objective_function EPSILON_ function_tol_ MAX_ITERS_ _ _ _ Hrect Hrun)
      as (st' & lo & hi & nh & _ & _ & _ & _ & Hev & _ & _ & _ & _ & _ & ->).
    simpl in *. lia.
  - intros st lo hi nh Hrect Hlo Hhi Hnh.
    rewrite (geometric_operator_eq objective_function lo hi nh st Hrect Hlo Hhi Hnh).
    eexists. split; [reflexivity|].
    destruct (move_frame objective_function dleb lo hi nh st Hrect Hlo Hhi)
      as (_ & _ & _ & (Hle & Hcost) & _).
    destruct Hcost as [[? ?] | [[? ?] | [? ?]]]; [left | right; left | right; right];
      split; (assumption || lia).
  - intros st e He.
    destruct (iteration_Throw objective_function EPSILON_ function_tol_ MAX_ITERS_ st e He)
      as (_ & _ & _ & _ & _ & _ & _ & Hmax).
    exact Hmax.
  - intros st. split; [apply iteration_Throw|].
    intros (lo & hi & nh & tol & Hrank & Htol & Htest & Hmax).
    unfold iteration. rewrite (bind_Ok _ _ _ Hrank). cbv beta iota.
    rewrite (bind_Ok _ _ _ Htol), Htest.
    destruct (decide (MAX_ITERS_ <= num_evals_ st)); [reflexivity | lia].
Qed.

(** ** C6: the first evaluation and the shrink *)

(** C6, as the code has it.  Lines 57-62 call the objective at each of the
    first [num_points_] rows in index order, cut to [num_dimensions_]
    coordinates, store the values in the paired vector and leave the counter
    alone; [minimize] then sets the counter to 0, so the first round starts
    with no evaluation charged.  A shrink charges [num_dimensions_]
    evaluations and calls the objective at every new vertex except the best,
    in index order; the best vertex stays. *)
Theorem first_evaluation_and_shrink :
  (forall st,
     num_points_ st <= length (simplex_ st) ->
     (forall i p, i < num_points_ st -> simplex_ st !! i = Some p ->
                  num_dimensions_ st <= length p) ->
     length (func_vals_ st) = num_points_ st ->
     exists st',
       evaluate_simplex objective_function st = Ok st' /\
       evaluated st' = evaluated st ++ first_points st /\
       func_vals_ st' = objective_function <$> first_points st /\
       num_evals_ st' = num_evals_ st) /\
  (forall initial_simplex st,
     initialize objective_function initial_simplex = Ok st -> num_evals_ st = 0) /\
  (forall st index_low,
     rectangular st -> index_low < num_points_ st ->
     exists st',
       shrink objective_function index_low st = Ok st' /\
       num_evals_ st' = num_evals_ st + num_dimensions_ st /\
       evaluated st' = evaluated st ++ delete index_low (simplex_ st') /\
       simplex_ st' !! index_low = simplex_ st !! index_low).
Proof.
  split; [|split].
  - intros st Hrows Hcols Hvals.
    rewrite (evaluate_simplex_eq objective_function st Hrows Hcols Hvals).
    eexists. split; [reflexivity|]. repeat split.
  - intros initial_simplex st Hinit. unfold initialize in Hinit.
    destruct (load 0 initial_simplex) as [p_0| | |]; try discriminate.
    simpl in Hinit. destruct (evaluate_simplex _ _) as [st1| | |]; try discriminate.
    simpl in Hinit. injection Hinit as <-. reflexivity.
  - intros st lo Hrect Hlo.
    rewrite (shrink_eq objective_function st lo Hrect Hlo).
    eexists. split; [reflexivity|]. unfold shrink_all. simpl.
    repeat split.
    destruct Hrect as (Hrows & _).
    destruct (lookup_lt_is_Some_2 (simplex_ st) lo ltac:(lia)) as [best Hbest].
    rewrite (shrunk_simplex_lookup lo lo _ best best Hbest Hbest), Hbest.
    case_bool_decide; [congruence | reflexivity].
Qed.

(** ** C8: no validation of the simplex *)

(** C8, as the code has it.  [minimize] validates nothing and has no error
    for a malformed simplex: whatever the simplex, the steps before the loop
    throw nothing; on the empty simplex they read [initial_simplex[0]] out of
    range; and a simplex of [K] rows whose row 0 has [P <= K] entries and
    whose first [P] rows have at least [K] entries each is taken as it is,
    rows of differing length included, the objective being called at each of
    the first [P] rows cut to [K] coordinates. *)
Theorem no_input_validation :
  (forall initial_simplex e,
     initialize objective_function initial_simplex ≠ Throw e) /\
  (forall fuel,
     minimize objective_function EPSILON_ function_tol_ MAX_ITERS_ fuel [] = Undefined) /\
  (forall initial_simplex p_0,
     initial_simplex !! 0 = Some p_0 ->
     length p_0 <= length initial_simplex ->
     (forall i p, i < length p_0 -> initial_simplex !! i = Some p ->
                  length initial_simplex <= length p) ->
     exists st,
       initialize objective_function initial_simplex = Ok st /\
       simplex_ st = initial_simplex /\
       evaluated st
       = take (length initial_simplex) <$> take (length p_0) initial_simplex).
Proof.
  split; [|split].
  - intros initial_simplex e. apply initialize_no_throw.
  - intros fuel. reflexivity.
  - intros initial_simplex p_0 Hp0 Hrows Hcols.
    rewrite (initialize_eq objective_function initial_simplex p_0 Hp0 Hrows Hcols).
    eexists. split; [reflexivity|]. split; reflexivity.
Qed.

(** ** C9: the rows are read past their end *)

(** C9 fails on the code.  For every simplex of [N + 1] rows of length [N],
    [N >= 1], [minimize] reads outside a row before the first round: it takes
    [N + 1], the number of rows, for the number of dimensions, and copies
    [N + 1] coordinates of row 0, which has [N]. *)
Theorem well_formed_simplex_overrun (N fuel : nat) (initial_simplex : list (list D)) :
  1 <= N ->
  length initial_simplex = S N ->
  Forall (fun p => length p = N) initial_simplex ->
  minimize objective_function EPSILON_ function_tol_ MAX_ITERS_ fuel initial_simplex
  = Undefined.
Proof.
  intros HN Hrows Hcols. unfold minimize, initialize.
  destruct (lookup_lt_is_Some_2 initial_simplex 0 ltac:(lia)) as [p_0 Hp0].
  pose proof (Forall_lookup_1 _ _ _ _ Hcols Hp0) as Hlen. simpl in Hlen.
  rewrite (bind_Ok _ _ _ (load_Some _ _ _ Hp0)).
  rewrite (evaluate_simplex_overrun objective_function _ p_0); simpl; try lia.
  - reflexivity.
  - exact Hp0.
Qed.

End Claims.

(** ** The trial point of [reflect] in a simplex of [N + 1] vertices *)

Section TrialPoint.
Local Open Scope Q_scope.

(** In the layout the spec describes, a simplex of [N + 1] vertices with
    [N] coordinates each and [num_dimensions_ = N], whose
    dimension sums are the sums over all vertices, [reflect] computes, for
    every worst index and factor [f], the trial coordinate
    [sum * ((1 - f) / N) - worst * ((1 - f) / N - f)].  In exact arithmetic
    this is the affine combination [(1 - f) * c + f * worst] of the centroid
    [c] of the other vertices and the worst vertex: the mirror image of the
    worst vertex through [c] for [f = -1], the point twice as far from [c] on
    the same side for [f = 2], the midpoint of the worst vertex and [c] for
    [f = 1/2].  No state that [minimize] reaches has this
    layout: see [reflect_misses_the_centroid]. *)
Lemma trial_point_in_intended_layout (st : state Q) (index_worst j : nat) (f : Q) :
  rectangular st ->
  num_points_ st = S (num_dimensions_ st) ->
  (1 <= num_dimensions_ st)%nat ->
  (index_worst < num_points_ st)%nat ->
  (j < num_dimensions_ st)%nat ->
  nth j (simplex_sums st) 0 == nth j (dimension_sums (num_dimensions_ st) (simplex_ st)) 0 ->
  let N := inject_Z (Z.of_nat (num_dimensions_ st)) in
  let sum_j := nth j (simplex_sums st) 0 in
  let worst_j := nth j (default [] (simplex_ st !! index_worst)) 0 in
  let c := centroid_without index_worst (simplex_ st) j in
  let trial_j := nth j (trial_of index_worst f st) 0 in
  reflect_point st index_worst f = Ok (trial_of index_worst f st) /\
  trial_j = sum_j * ((1 - f) / N) - worst_j * ((1 - f) / N - f) /\
  trial_j == (1 - f) * c + f * worst_j /\
  (f == -1 -> trial_j == c + (c - worst_j)) /\
  (f == 2 -> trial_j == c + 2 * (worst_j - c)) /\
  (f == 1 # 2 -> trial_j == (worst_j + c) / 2).
Proof.
  intros Hrect Hnp Hnd Hiw Hj Hsum N sum_j worst_j c trial_j.
  destruct Hrect as (Hrows & Hcols & Hvals & Hsums).
  destruct (lookup_lt_is_Some_2 (simplex_ st) index_worst ltac:(lia)) as [worst Hworst].
  pose proof (Forall_lookup_1 _ _ _ _ Hcols Hworst) as Hlen. simpl in Hlen.
  destruct (lookup_lt_is_Some_2 (simplex_sums st) j ltac:(lia)) as [s Hs].
  destruct (lookup_lt_is_Some_2 worst j ltac:(lia)) as [x Hx].
  assert (Hformula : trial_j = sum_j * ((1 - f) / N) - worst_j * ((1 - f) / N - f)).
  { unfold trial_j, sum_j, worst_j, trial_of, trial_point. rewrite Hworst. simpl.
    rewrite !nth_lookup, lookup_zip_with, Hs, Hx. reflexivity. }
  assert (HN : ~ N == 0).
  { unfold N, Qeq. simpl. lia. }
  assert (Hcentroid : sum_j == worst_j + c * N).
  { unfold sum_j. rewrite Hsum.
    rewrite nth_lookup, dimension_sums_lookup by exact Hj. simpl.
    rewrite (sum_delete (fun row => nth j row 0) _ _ _ Hworst).
    unfold worst_j, c, centroid_without. rewrite Hworst. simpl.
    replace (length (simplex_ st) - 1)%nat with (num_dimensions_ st) by lia.
    fold N. field. exact HN. }
  split.
  { unfold trial_of. rewrite Hworst. apply reflect_point_eq; assumption. }
  split; [exact Hformula|].
  assert (Haffine : trial_j == (1 - f) * c + f * worst_j).
  { rewrite Hformula, Hcentroid. field. exact HN. }
  split; [exact Haffine|].
  repeat split; intros Hf; rewrite Haffine, Hf; field.
Qed.

End TrialPoint.

(** * Concrete runs *)

Lemma square_start_reached : initialize bowl square_simplex = Ok square_start.
Proof. vm_compute. reflexivity. Qed.

Lemma square_start_rectangular : rectangular square_start.
Proof. repeat split; repeat constructor. Qed.

Lemma square_moved_rectangular (evals : nat) : rectangular (square_moved evals).
Proof. repeat split; repeat constructor. Qed.

(** ** C1 *)

(** C1 fails as stated.  On [square_simplex] the first round ranks
    [low = 1], [high = 0], [next_high = 1]; the values are 10 and 5, the
    reflected point is [(1, 0)] and its value 5 equals the best value.  The
    reflected value is not better than the best value and is no better than
    the second-worst value 5, so by the claim the move is a contraction (and,
    the contracted value 6.0625 being no better either, a shrink: counter 4).
    The code tests [reflection <= func_vals_[index_low]] and makes the
    expansion instead: it ends on the vertex [(1.5, 0)] with counter 2. *)
Lemma expansion_on_equal_value :
  initialize bowl square_simplex = Ok square_start /\
  rank square_start = Ok (1, 0, 1) /\
  (exists st',
     geometric_operator bowl 1 0 1 square_start = Ok st' /\
     simplex_ st' = [[1.5; 0]; [1; 0]]%float /\
     evaluated st' = evaluated square_start ++ [[1; 0]; [1.5; 0]]%float /\
     num_evals_ st' = 2) /\
  num_evals_ (simplex_move bowl dltb 1 0 1 square_start) = 4 /\
  geometric_operator bowl 1 0 1 square_start
  ≠ Ok (simplex_move bowl dltb 1 0 1 square_start).
Proof.
  split; [vm_compute; reflexivity|]. split; [vm_compute; reflexivity|].
  split; [eexists; split; [vm_compute; reflexivity | repeat split]|].
  split; [vm_compute; reflexivity|].
  intros E.
  apply (f_equal (fun r => match r with Ok st => num_evals_ st | _ => 0 end)) in E.
  vm_compute in E. discriminate.
Qed.

Lemma geometric_operator_moves_witness :
  geometric_operator bowl 1 0 1 square_start
  = Ok (simplex_move bowl dleb 1 0 1 square_start).
Proof.
  apply (geometric_operator_moves bowl square_start 1 0 1).
  - exact square_start_rectangular.
  - simpl. lia.
  - vm_compute. reflexivity.
  - lia.
  - repeat constructor.
  - vm_compute. reflexivity.
Defined.

(** ** C2 *)


(** ** C3 *)

(** C3 fails as stated.  With [MAX_ITERS_ = 1] the run on [square_simplex]
    returns, and its counter is 2: the budget was looked at when the counter
    was 0, and the move that followed charged 2. *)
Lemma counter_passes_the_cap :
  exists m,
    minimize bowl 0x1p-33%float 0.5%float 1 5 square_simplex = Ok m /\
    num_evals_ (final m) = 2 /\ 1 < num_evals_ (final m).
Proof. eexists. split; [vm_compute; reflexivity|]. simpl. split; [reflexivity | lia]. Qed.

(** With [MAX_ITERS_ = 0] the first round on [square_simplex], whose test
    value is not below the tolerance, throws. *)
Lemma evaluation_budget_witness :
  (exists m,
     minimize bowl 0x1p-33%float 0.5%float 1 5 square_simplex = Ok m /\
     num_evals_ (final m) <= 1 + 2 + 1) /\
  iteration bowl 0x1p-33%float 0.5%float 0 square_start = Throw MaxIterationsExceeded.
Proof.
  split.
  - destruct (evaluation_budget bowl 0x1p-33%float 0.5%float 1 square_simplex 5)
      as (Hrun & _).
    + simpl. lia.
    + repeat constructor.
    + eexists. split; [vm_compute; reflexivity|].
      apply Hrun. vm_compute. reflexivity.
  - destruct (evaluation_budget bowl 0x1p-33%float 0.5%float 0 square_simplex 5)
      as (_ & _ & _ & Hthrow).
    + simpl. lia.
    + repeat constructor.
    + apply Hthrow. eexists 1, 0, 1, _.
      split; [vm_compute; reflexivity|]. split; [vm_compute; reflexivity|].
      split; [vm_compute; reflexivity | simpl; lia].
Defined.

(** ** The trial point in a triangle *)

(** The reflection of the vertex [(0, 0)] of the triangle through the
    centroid [(1/2, 1/2)] of the other two has first coordinate 1. *)
Lemma trial_point_in_intended_layout_example :
  (centroid_without 0 (simplex_ triangle_Q) 0 == 1 # 2)%Q /\
  (nth 0 (trial_of 0 (-1)%Q triangle_Q) 0%Q == 1)%Q.
Proof.
  split; [vm_compute; reflexivity|].
  destruct (trial_point_in_intended_layout triangle_Q 0 0 (-1)%Q)
    as (_ & _ & _ & Hmirror & _).
  - repeat split; repeat constructor.
  - reflexivity.
  - simpl. lia.
  - simpl. lia.
  - simpl. lia.
  - vm_compute. reflexivity.
  - rewrite (Hmirror ltac:(reflexivity)). vm_compute. reflexivity.
Qed.

(** ** C5 *)

Lemma reflect_commits_or_leaves_witness :
  exists st',
    reflect bowl square_start 0 d_minus_one = Ok (5%float, st') /\
    simplex_ st' = [[1; 0]; [1; 0]]%float /\
    func_vals_ st' = [5; 5]%float /\
    simplex_sums st' = [2; 0]%float.
Proof.
  pose proof (reflect_commits_or_leaves bowl square_start 0 d_minus_one
                square_start_rectangular ltac:(simpl; lia)) as W.
  cbv zeta in W. destruct W as (st' & Hcall & _ & _ & Hyes & _).
  exists st'. split; [exact Hcall|].
  destruct Hyes as (-> & -> & ->); [vm_compute; reflexivity|].
  vm_compute. repeat split.
Defined.

(** ** C6 *)

(** C6 fails as stated.  Before the first round on [square_simplex] the
    objective has been called at both vertices, in index order, and the
    counter is 0, not 2. *)
Lemma first_evaluation_not_charged :
  exists st,
    initialize bowl square_simplex = Ok st /\
    evaluated st = [[0; 0]; [1; 0]]%float /\
    func_vals_ st = [10; 5]%float /\
    num_evals_ st = 0.
Proof. eexists. split; [vm_compute; reflexivity|]. repeat split. Qed.

Lemma first_evaluation_and_shrink_witness :
  (exists st, initialize bowl square_simplex = Ok st /\ num_evals_ st = 0) /\
  (exists st',
     shrink bowl 1 square_start = Ok st' /\
     num_evals_ st' = 2 /\
     evaluated st' = evaluated square_start ++ [[0.5; 0]]%float).
Proof.
  destruct (first_evaluation_and_shrink (D := float) bowl) as (_ & Hinit & Hshrink).
  split.
  - exists square_start. split; [exact square_start_reached|].
    apply (Hinit square_simplex). exact square_start_reached.
  - destruct (Hshrink square_start 1 square_start_rectangular ltac:(simpl; lia))
      as (st' & Hrun & Hev & Hlog & _).
    exists st'. split; [exact Hrun|]. split; [exact Hev|].
    rewrite Hlog. f_equal.
    vm_compute in Hrun. injection Hrun as <-. reflexivity.
Defined.

(** ** C7 *)



(** ** C8 *)

(** C8 fails as stated.  On a simplex whose rows differ in length the run
    calls the objective and returns a vertex; no error is raised. *)
Lemma ragged_simplex_accepted :
  exists m,
    minimize flat 0x1p-33%float 0.5%float 100 1 ragged_simplex = Ok m /\
    simplex_mins m = [3; 4; 5]%float /\
    evaluated (final m) = [[1; 2]; [3; 4]]%float.
Proof. eexists. split; [vm_compute; reflexivity|]. split; reflexivity. Qed.

Lemma no_input_validation_witness :
  minimize bowl 0x1p-33%float 0.5%float 100 1 [] = Undefined /\
  exists st,
    initialize flat ragged_simplex = Ok st /\
    evaluated st = [[1; 2]; [3; 4]]%float.
Proof.
  destruct (no_input_validation (D := float) bowl 0x1p-33%float 0.5%float 100)
    as (_ & Hempty & _).
  destruct (no_input_validation (D := float) flat 0x1p-33%float 0.5%float 100)
    as (_ & _ & Hragged).
  split; [apply Hempty|].
  destruct (Hragged ragged_simplex [1; 2]%float) as (st & Hinit & _ & Hlog).
  - reflexivity.
  - simpl. lia.
  - intros i p Hi Hp. simpl in Hi.
    destruct i as [|[|i]]; [| |lia]; injection Hp as <-; simpl; lia.
  - exists st. split; [exact Hinit | exact Hlog].
Defined.

(** ** C9 *)

Lemma well_formed_simplex_overrun_witness :
  minimize bowl 0x1p-33%float 0.5%float 100 5 segment = Undefined.
Proof.
  apply (well_formed_simplex_overrun bowl 0x1p-33%float 0.5%float 100 1 5 segment).
  - lia.
  - reflexivity.
  - repeat constructor.
Defined.

(** ** C10 *)

(** With the counter at 7 and [MAX_ITERS_ = 5] a round whose spread is below
    the tolerance still returns. *)
Lemma convergence_before_budget_witness :
  5 <= num_evals_ (square_moved 7) /\
  iterate bowl 0x1p-33%float 0.5%float 5 1 (square_moved 7)
  = Ok (swapped_to_front 0 (square_moved 7)).
Proof.
  split; [simpl; lia|].
  destruct (convergence_before_budget bowl 0x1p-33%float 0.5%float 5 (square_moved 7))
    as (Hreturn & _).
  destruct (Hreturn (square_moved_rectangular 7) ltac:(simpl; lia))
    as (lo & hi & nh & Hrank & Hrun).
  vm_compute in Hrank. injection Hrank as <- <- <-.
  apply Hrun. vm_compute. reflexivity.
Defined.

(** * Further properties of the code

    Where [minimize] is defined and that it ends, what its rounds keep, how
    its values move, the overloads that build their simplex, and the values
    that are NaN or all equal. *)

(** ** Loops, once more *)

(** A loop that ends has been through each of its rounds. *)
Lemma for_loop_Ok_round {St} (P : St -> Prop) (body : nat -> St -> result St)
    (n i : nat) (s s' : St) :
  P s -> (forall k t t', P t -> body k t = Ok t' -> P t') ->
  for_loop body i n s = Ok s' ->
  forall k, i <= k < i + n -> exists t t', P t /\ body k t = Ok t'.
Proof.
  intros Hs Hbody. revert i s Hs. induction n as [|n IH]; intros i s Hs Hrun k Hk; [lia|].
  simpl in Hrun. destruct (body i s) as [t| | |] eqn:Ht; try discriminate.
  destruct (decide (k = i)) as [->|Hne].
  - exists s, t. split; assumption.
  - apply (IH (S i) t); [apply (Hbody i s t Hs Ht) | exact Hrun | lia].
Qed.

Lemma load_ends_or_overruns {A} (i : nat) (v : list A) : ends_or_overruns (load i v).
Proof. unfold load. destruct (v !! i); [left; eexists; reflexivity | right; reflexivity]. Qed.

Lemma store_ends_or_overruns {A} (i : nat) (x : A) (v : list A) :
  ends_or_overruns (store i x v).
Proof. unfold store. destruct (decide _); [left; eexists; reflexivity | right; reflexivity]. Qed.

Lemma bind_ends_or_overruns {A B} (m : result A) (k : A -> result B) :
  ends_or_overruns m -> (forall a, ends_or_overruns (k a)) -> ends_or_overruns (mbind k m).
Proof. intros [[a ->] | ->] Hk; [apply Hk | right; reflexivity]. Qed.

Lemma for_loop_ends_or_overruns {St} (body : nat -> St -> result St) (n i : nat) (s : St) :
  (forall k t, ends_or_overruns (body k t)) -> ends_or_overruns (for_loop body i n s).
Proof.
  intros Hbody. revert i s. induction n as [|n IH]; intros i s; simpl.
  - left. eexists. reflexivity.
  - apply bind_ends_or_overruns; [apply Hbody | intros t; apply IH].
Qed.

Section RunFacts.
Context {D : Type} `{DoubleOps D}.
Variable objective_function : list D -> D.
Variable EPSILON_ : D.
Variable function_tol_ : D.
Variable MAX_ITERS_ : nat.

(** ** The first evaluation, from its result *)

Lemma evaluate_simplex_ends_or_overruns (st : state D) :
  ends_or_overruns (evaluate_simplex objective_function st).
Proof.
  unfold evaluate_simplex. apply bind_ends_or_overruns.
  - apply for_loop_ends_or_overruns. intros i [ep t]. apply bind_ends_or_overruns.
    + apply for_loop_ends_or_overruns. intros j ev.
      apply bind_ends_or_overruns; [apply load_ends_or_overruns | intros p_i].
      apply bind_ends_or_overruns; [apply load_ends_or_overruns | intros p_ij].
      apply store_ends_or_overruns.
    + intros ev. unfold call_objective.
      apply bind_ends_or_overruns; [apply store_ends_or_overruns | intros vals].
      left. eexists. reflexivity.
  - intros [ep t]. left. eexists. reflexivity.
Qed.

Lemma initialize_ends_or_overruns (initial_simplex : list (list D)) :
  ends_or_overruns (initialize objective_function initial_simplex).
Proof.
  unfold initialize.
  apply bind_ends_or_overruns; [apply load_ends_or_overruns | intros p_0].
  apply bind_ends_or_overruns; [apply evaluate_simplex_ends_or_overruns | intros st].
  left. eexists. reflexivity.
Qed.

(** When lines 57-62 end, each of the [num_points_] rows they read is there
    and has its [num_dimensions_] coordinates. *)
Lemma evaluate_simplex_Ok_rows (st st' : state D) (i : nat) :
  evaluate_simplex objective_function st = Ok st' ->
  1 <= num_dimensions_ st -> i < num_points_ st ->
  exists p, simplex_ st !! i = Some p /\ num_dimensions_ st <= length p.
Proof.
  unfold evaluate_simplex.
  destruct (for_loop _ 0 (num_points_ st) _) as [[ep t]| | |] eqn:Hloop; try discriminate.
  intros _ Hnd Hi.
  set (inv := fun x : list D * state D =>
                simplex_ x.2 = simplex_ st /\ num_dimensions_ x.2 = num_dimensions_ st).
  eapply (for_loop_Ok_round inv) with (k := i) in Hloop; cycle 1.
  { split; reflexivity. }
  { intros k [ep1 t1] [ep2 t2] [Hs Hn]. simpl in Hs, Hn.
    destruct (for_loop _ 0 (num_dimensions_ t1) ep1) as [ev| | |]; try discriminate.
    simpl. unfold call_objective.
    destruct (store k _ _) as [vals| | |]; try discriminate.
    simpl. intros Hbody. injection Hbody as _ <-. split; assumption. }
  { lia. }
  destruct Hloop as ([ep1 t1] & [ep2 t2] & [Hs1 Hn1] & Hbody). simpl in Hs1, Hn1.
  revert Hbody.
  destruct (for_loop _ 0 (num_dimensions_ t1) ep1) as [ev| | |] eqn:Hinner;
    try discriminate.
  intros _.
  eapply (for_loop_Ok_round (fun _ => True)) with (k := num_dimensions_ t1 - 1) in Hinner;
    [|exact I|auto|lia].
  destruct Hinner as (ev1 & ev2 & _ & Hround).
  rewrite Hs1 in Hround.
  destruct (load i (simplex_ st)) as [p| | |] eqn:Hp; try discriminate.
  simpl in Hround.
  destruct (load (num_dimensions_ t1 - 1) p) as [x| | |] eqn:Hx; try discriminate.
  apply load_Ok in Hp, Hx. apply lookup_lt_Some in Hx.
  exists p. split; [exact Hp | lia].
Qed.

(** The simplexes [initialize] goes through are the ones it reads in range. *)
Lemma initialize_Ok_in_range (initial_simplex : list (list D)) (st : state D) :
  initialize objective_function initial_simplex = Ok st -> in_range initial_simplex.
Proof.
  unfold initialize.
  destruct (load 0 initial_simplex) as [p_0| | |] eqn:Hp0; try discriminate.
  simpl. apply load_Ok in Hp0.
  destruct (evaluate_simplex _ _) as [st1| | |] eqn:Heval; try discriminate.
  intros _. pose proof (lookup_lt_Some _ _ _ Hp0) as Hrows.
  assert (Hrow : forall i, i < length p_0 ->
            exists p, initial_simplex !! i = Some p /\ length initial_simplex <= length p).
  { intros i Hi.
    apply (evaluate_simplex_Ok_rows _ _ i Heval); simpl; lia. }
  exists p_0. split; [exact Hp0|]. split.
  - destruct (decide (length p_0 <= length initial_simplex)) as [Hle|Hgt]; [exact Hle|].
    destruct (Hrow (length initial_simplex) ltac:(lia)) as (p & Hp & _).
    apply lookup_lt_Some in Hp. lia.
  - intros i p Hi Hp. destruct (Hrow i Hi) as (q & Hq & Hlen). congruence.
Qed.

(** ** The loop always ends *)

(** More fuel does not change a run that has ended. *)
Lemma iterate_more_fuel (fuel fuel' : nat) (st : state D) :
  fuel <= fuel' ->
  iterate objective_function EPSILON_ function_tol_ MAX_ITERS_ fuel st ≠ OutOfFuel ->
  iterate objective_function EPSILON_ function_tol_ MAX_ITERS_ fuel' st
  = iterate objective_function EPSILON_ function_tol_ MAX_ITERS_ fuel st.
Proof.
  revert fuel' st. induction fuel as [|fuel IH]; intros fuel' st Hle Hne.
  - simpl in Hne. congruence.
  - destruct fuel' as [|fuel']; [lia|]. simpl in *.
    destruct (iteration _ _ _ _ st) as [[m|st']| | |]; simpl in *; try reflexivity.
    apply IH; [lia | exact Hne].
Qed.

(** Every round that goes on raises the counter, and goes on only below
    [MAX_ITERS_]: the loop is left after at most [MAX_ITERS_ - num_evals_ + 1]
    rounds, by [return] or by [throw]. *)
Lemma iterate_ends (fuel : nat) (st : state D) :
  rectangular st -> 2 <= num_points_ st ->
  MAX_ITERS_ - num_evals_ st < fuel ->
  (exists m, iterate objective_function EPSILON_ function_tol_ MAX_ITERS_ fuel st = Ok m) \/
  iterate objective_function EPSILON_ function_tol_ MAX_ITERS_ fuel st
  = Throw MaxIterationsExceeded.
Proof.
  revert st. induction fuel as [|fuel IH]; intros st Hrect Hnp Hfuel; [lia|].
  simpl.
  destruct (iteration_cases objective_function EPSILON_ function_tol_ MAX_ITERS_ st Hrect)
    as [[Hnp' _] | (_ & lo & hi & nh & Hrank & Hlo & Hhi & Hnh & E)]; [lia|].
  rewrite E. unfold round. destruct (dltb _ _).
  - left. eexists. reflexivity.
  - destruct (decide _) as [Hmax|Hmax]; [right; reflexivity|]. simpl.
    destruct (move_frame objective_function dleb lo hi nh st Hrect Hlo Hhi)
      as (Hrect1 & Hnd1 & Hnp1 & (_ & Hcost) & _).
    apply IH; [exact Hrect1 | lia |].
    destruct Hcost as [[? ?] | [[? ?] | [? ?]]]; lia.
Qed.

(** A run from a rectangular state of two points or more never reads
    outside a vector. *)
Lemma iterate_in_range (fuel : nat) (st : state D) :
  rectangular st -> 2 <= num_points_ st ->
  iterate objective_function EPSILON_ function_tol_ MAX_ITERS_ fuel st ≠ Undefined.
Proof.
  revert st. induction fuel as [|fuel IH]; intros st Hrect Hnp; [discriminate|].
  simpl.
  destruct (iteration_cases objective_function EPSILON_ function_tol_ MAX_ITERS_ st Hrect)
    as [[Hnp' _] | (_ & lo & hi & nh & Hrank & Hlo & Hhi & Hnh & E)]; [lia|].
  rewrite E. unfold round. destruct (dltb _ _); [discriminate|].
  destruct (decide _) as [Hmax|Hmax]; [discriminate|]. simpl.
  destruct (move_frame objective_function dleb lo hi nh st Hrect Hlo Hhi)
    as (Hrect1 & Hnd1 & Hnp1 & _).
  apply IH; [exact Hrect1 | lia].
Qed.

End RunFacts.

Section Runs.
Context {D : Type} `{DoubleOps D}.
Variable objective_function : list D -> D.
Variable EPSILON_ : D.
Variable function_tol_ : D.
Variable MAX_ITERS_ : nat.

(** X1.  On a square simplex of two rows or more, [minimize] never reads
    outside a vector, and its loop always ends: within [MAX_ITERS_ + 1]
    rounds the run has returned a minimum or thrown the error of line 106.
    The unrolling of the loop beyond that changes nothing. *)
Theorem square_run_ends (initial_simplex : list (list D)) :
  2 <= length initial_simplex ->
  Forall (fun p => length p = length initial_simplex) initial_simplex ->
  (forall fuel,
     minimize objective_function EPSILON_ function_tol_ MAX_ITERS_ fuel initial_simplex
     ≠ Undefined) /\
  (forall fuel, MAX_ITERS_ < fuel ->
     (exists m,
        minimize objective_function EPSILON_ function_tol_ MAX_ITERS_ fuel initial_simplex
        = Ok m) \/
     minimize objective_function EPSILON_ function_tol_ MAX_ITERS_ fuel initial_simplex
     = Throw MaxIterationsExceeded) /\
  (forall fuel fuel', MAX_ITERS_ < fuel -> fuel <= fuel' ->
     minimize objective_function EPSILON_ function_tol_ MAX_ITERS_ fuel' initial_simplex
     = minimize objective_function EPSILON_ function_tol_ MAX_ITERS_ fuel initial_simplex).
Proof.
  intros Hlen Hall.
  destruct (initialize_square objective_function initial_simplex ltac:(lia) Hall)
    as (Hinit & Hrect & _).
  unfold minimize. rewrite Hinit. simpl.
  assert (Hends : forall fuel, MAX_ITERS_ < fuel ->
    (exists m, iterate objective_function EPSILON_ function_tol_ MAX_ITERS_ fuel
                 (mkState (length initial_simplex) (length initial_simplex) initial_simplex
                    (objective_function <$> initial_simplex) 0
                    (dimension_sums (length initial_simplex) initial_simplex)
                    initial_simplex) = Ok m) \/
    iterate objective_function EPSILON_ function_tol_ MAX_ITERS_ fuel
      (mkState (length initial_simplex) (length initial_simplex) initial_simplex
         (objective_function <$> initial_simplex) 0
         (dimension_sums (length initial_simplex) initial_simplex)
         initial_simplex) = Throw MaxIterationsExceeded).
  { intros fuel Hfuel. apply iterate_ends; [exact Hrect | exact Hlen | simpl; lia]. }
  split; [|split].
  - intros fuel. apply iterate_in_range; [exact Hrect | exact Hlen].
  - exact Hends.
  - intros fuel fuel' Hfuel Hle. apply iterate_more_fuel; [exact Hle|].
    destruct (Hends fuel Hfuel) as [[m ->] | ->]; discriminate.
Qed.

(** X2.  The steps of [minimize] before its loop end exactly on the
    simplexes that are [in_range]: those with a row 0 of at most as many
    entries as there are rows, each of the rows it counts having at least as
    many entries as there are rows.  On every other simplex they read outside
    a vector. *)
Theorem initialization_domain (initial_simplex : list (list D)) :
  ((exists st, initialize objective_function initial_simplex = Ok st)
   <-> in_range initial_simplex) /\
  (~ in_range initial_simplex ->
   initialize objective_function initial_simplex = Undefined).
Proof.
  assert (Hiff : (exists st, initialize objective_function initial_simplex = Ok st)
                 <-> in_range initial_simplex).
  { split.
    - intros [st Hst]. apply (initialize_Ok_in_range objective_function _ st Hst).
    - intros (p_0 & Hp0 & Hrows & Hcols).
      rewrite (initialize_eq objective_function initial_simplex p_0 Hp0 Hrows Hcols).
      eexists. reflexivity. }
  split; [exact Hiff|]. intros Hout.
  destruct (initialize_ends_or_overruns objective_function initial_simplex) as [Hok | Hu];
    [|exact Hu].
  destruct (Hout (proj1 Hiff Hok)).
Qed.

End Runs.

(** Two entries of a list changing places give a permutation of it. *)
Lemma swapped_Permutation {A} (l : list A) (i : nat) (x y : A) :
  l !! 0 = Some x -> l !! i = Some y -> <[i := x]> (<[0 := y]> l) ≡ₚ l.
Proof.
  intros Hx Hy. pose proof (lookup_lt_Some _ _ _ Hy) as Hi.
  destruct (decide (i = 0)) as [->|Hne].
  - rewrite list_insert_insert_eq. rewrite (list_insert_id _ _ _ Hx). reflexivity.
  - symmetry. apply Permutation_inj. split; [rewrite !length_insert; reflexivity|].
    exists (fun k => if decide (k = 0) then i else if decide (k = i) then 0 else k).
    split.
    + intros a b. repeat destruct (decide _); lia.
    + intros k. destruct (decide (k = 0)) as [->|Hk0].
      * rewrite list_lookup_insert_eq by (rewrite length_insert; lia). exact Hx.
      * destruct (decide (k = i)) as [->|Hkl].
        -- rewrite list_lookup_insert_ne by congruence.
           rewrite list_lookup_insert_eq by lia. exact Hy.
        -- rewrite !list_lookup_insert_ne by congruence. reflexivity.
Qed.

Section MoveFacts.
Context {D : Type} `{DoubleOps D}.
Variable objective_function : list D -> D.
Variable EPSILON_ : D.
Variable function_tol_ : D.
Variable MAX_ITERS_ : nat.

(** ** What a move leaves alone *)

Lemma try_replace_other (index_worst k : nat) (factor : D) (st : state D) :
  k ≠ index_worst ->
  let st' := (try_replace objective_function index_worst factor st).2 in
  simplex_ st' !! k = simplex_ st !! k /\ func_vals_ st' !! k = func_vals_ st !! k.
Proof.
  intros Hk. rewrite try_replace_unfold. cbv zeta. cbn [snd].
  destruct (dltb _ _); [|split; reflexivity].
  unfold replace_worst. simpl. rewrite !list_lookup_insert_ne by congruence.
  split; reflexivity.
Qed.

Lemma shrink_all_best (index_low : nat) (st : state D) :
  let st' := shrink_all objective_function index_low st in
  simplex_ st' !! index_low = simplex_ st !! index_low /\
  func_vals_ st' !! index_low = func_vals_ st !! index_low.
Proof.
  unfold shrink_all, shrunk_simplex. simpl. rewrite !list_lookup_imap.
  split.
  - destruct (simplex_ st !! index_low); [|reflexivity]. simpl.
    rewrite bool_decide_false by congruence. reflexivity.
  - destruct (func_vals_ st !! index_low); [|reflexivity]. simpl.
    rewrite bool_decide_false by congruence. reflexivity.
Qed.

Lemma move_best (expands : D -> D -> bool) (index_low index_high index_next_high : nat)
    (st : state D) :
  index_low ≠ index_high ->
  let st' := move objective_function expands index_low index_high index_next_high st in
  simplex_ st' !! index_low = simplex_ st !! index_low /\
  func_vals_ st' !! index_low = func_vals_ st !! index_low.
Proof using Type.
  clear EPSILON_ function_tol_ MAX_ITERS_.
  intros Hne. unfold move.
  set (st0 := set_num_evals_ _ st).
  pose proof (try_replace_other index_high index_low d_minus_one st0 Hne) as F1.
  destruct (try_replace objective_function index_high d_minus_one st0) as [reflection st1].
  cbn [snd] in F1. cbv zeta in F1. destruct F1 as [Hs1 Hv1].
  change (simplex_ st0) with (simplex_ st) in Hs1.
  change (func_vals_ st0) with (func_vals_ st) in Hv1.
  cbv zeta.
  destruct (expands reflection _); [|destruct (dgeb reflection _)].
  - pose proof (try_replace_other index_high index_low d_two st1 Hne) as F2.
    destruct (try_replace objective_function index_high d_two st1) as [expansion st2].
    cbn [snd] in *. cbv zeta in F2. destruct F2 as [Hs2 Hv2]. split; congruence.
  - pose proof (try_replace_other index_high index_low d_half st1 Hne) as F2.
    destruct (try_replace objective_function index_high d_half st1) as [contraction st2].
    cbn [snd] in *. cbv zeta in F2. destruct F2 as [Hs2 Hv2].
    destruct (dgeb contraction _).
    + destruct (shrink_all_best index_low st2) as [Hs3 Hv3]. split; congruence.
    + split; congruence.
  - simpl. split; assumption.
Qed.

(** ** The calls of a move *)

(** The objective is called at points of [num_dimensions_] coordinates, and
    the calls are added to the ones made before. *)
Lemma move_log (expands : D -> D -> bool) (index_low index_high index_next_high : nat)
    (st : state D) :
  rectangular st ->
  index_low < num_points_ st -> index_high < num_points_ st ->
  exists new,
    evaluated (move objective_function expands index_low index_high index_next_high st)
    = evaluated st ++ new /\
    Forall (fun p => length p = num_dimensions_ st) new.
Proof using Type.
  clear EPSILON_ function_tol_ MAX_ITERS_.
  intros Hrect Hlow Hhigh. unfold move.
  set (st0 := set_num_evals_ _ st).
  assert (Hrect0 : rectangular st0) by (apply set_num_evals_rectangular, Hrect).
  pose proof (try_replace_frame objective_function index_high d_minus_one st0 Hrect0 Hhigh)
    as F1.
  pose proof (trial_of_length st0 index_high d_minus_one Hrect0 Hhigh) as L1.
  destruct (try_replace objective_function index_high d_minus_one st0) as [reflection st1].
  cbn [snd] in F1. destruct F1 as (Hrect1 & Hnd1 & Hnp1 & _ & Hlog1 & _).
  change (num_points_ st0) with (num_points_ st) in Hnp1.
  change (num_dimensions_ st0) with (num_dimensions_ st) in Hnd1, L1.
  change (evaluated st0) with (evaluated st) in Hlog1.
  cbv zeta.
  destruct (expands reflection _); [|destruct (dgeb reflection _)].
  - pose proof (try_replace_frame objective_function index_high d_two st1 Hrect1 ltac:(lia))
      as F2.
    pose proof (trial_of_length st1 index_high d_two Hrect1 ltac:(lia)) as L2.
    destruct (try_replace objective_function index_high d_two st1) as [expansion st2].
    cbn [snd] in *. destruct F2 as (_ & _ & _ & _ & Hlog2 & _).
    eexists. rewrite Hlog2, Hlog1, <- app_assoc. split; [reflexivity|].
    repeat constructor; congruence.
  - pose proof (try_replace_frame objective_function index_high d_half st1 Hrect1 ltac:(lia))
      as F2.
    pose proof (trial_of_length st1 index_high d_half Hrect1 ltac:(lia)) as L2.
    destruct (try_replace objective_function index_high d_half st1) as [contraction st2].
    cbn [snd] in *. destruct F2 as (Hrect2 & Hnd2 & Hnp2 & _ & Hlog2 & _).
    destruct (dgeb contraction _).
    + unfold shrink_all. simpl. eexists.
      rewrite Hlog2, Hlog1, <- !app_assoc. split; [reflexivity|].
      apply Forall_app. split; [repeat constructor; congruence|].
      apply Forall_app. split; [repeat constructor; congruence|].
      apply Forall_delete.
      replace (num_dimensions_ st) with (num_dimensions_ st2) by congruence.
      apply shrunk_simplex_rows; [|apply Hrect2].
      destruct Hrect2 as (-> & _). lia.
    + eexists. rewrite Hlog2, Hlog1, <- app_assoc. split; [reflexivity|].
      repeat constructor; congruence.
  - simpl. eexists. rewrite Hlog1. split; [reflexivity|].
    repeat constructor; congruence.
Qed.

(** ** Runs that return *)

(** A property of two states that holds of a state and itself, and of a
    state and a later one when it holds of the state after one move and the
    later one, holds of the first state of a run that returns and the state
    it returns from. *)
Lemma iterate_Ok_rel (R : state D -> state D -> Prop) :
  (forall st, rectangular st -> R st st) ->
  (forall st index_low index_high index_next_high st'',
     rectangular st -> 2 <= num_points_ st ->
     rank st = Ok (index_low, index_high, index_next_high) ->
     index_low < num_points_ st -> index_high < num_points_ st ->
     index_next_high < num_points_ st ->
     R (move objective_function dleb index_low index_high index_next_high st) st'' ->
     R st st'') ->
  forall fuel st m,
    rectangular st ->
    iterate objective_function EPSILON_ function_tol_ MAX_ITERS_ fuel st = Ok m ->
    exists st' index_low index_high index_next_high,
      R st st' /\ rectangular st' /\ 2 <= num_points_ st' /\
      rank st' = Ok (index_low, index_high, index_next_high) /\
      index_low < num_points_ st' /\ index_high < num_points_ st' /\
      index_next_high < num_points_ st' /\
      dltb (spread EPSILON_ st' index_low index_high) function_tol_ = true /\
      m = swapped_to_front index_low st'.
Proof.
  intros Hrefl Hstep fuel. induction fuel as [|fuel IH]; intros st m Hrect Hrun;
    [discriminate|].
  simpl in Hrun.
  destruct (iteration_cases objective_function EPSILON_ function_tol_ MAX_ITERS_ st Hrect)
    as [[_ E] | (Hnp & lo & hi & nh & Hrank & Hlo & Hhi & Hnh & E)];
    rewrite E in Hrun; [discriminate|].
  unfold round in Hrun. destruct (dltb _ _) eqn:Etol.
  - simpl in Hrun. injection Hrun as <-. exists st, lo, hi, nh.
    split; [apply Hrefl, Hrect|]. split; [exact Hrect|]. split; [exact Hnp|].
    split; [exact Hrank|]. split; [exact Hlo|]. split; [exact Hhi|].
    split; [exact Hnh|]. split; [exact Etol | reflexivity].
  - destruct (decide _) as [Hmax|Hmax]; [discriminate|]. simpl in Hrun.
    destruct (move_frame objective_function dleb lo hi nh st Hrect Hlo Hhi)
      as (Hrect1 & _).
    destruct (IH _ m Hrect1 Hrun) as (st' & lo' & hi' & nh' & HR & Hrest).
    exists st', lo', hi', nh'. split; [|exact Hrest].
    apply (Hstep st lo hi nh st'); assumption.
Qed.

Lemma swapped_to_front_frame (index_low : nat) (st : state D) :
  rectangular st -> index_low < num_points_ st ->
  let m := swapped_to_front index_low st in
  rectangular (final m) /\
  length (simplex_mins m) = num_dimensions_ st /\
  (paired objective_function st -> paired objective_function (final m)) /\
  simplex_ (final m) ≡ₚ simplex_ st /\
  func_vals_ (final m) ≡ₚ func_vals_ st.
Proof using Type.
  clear EPSILON_ function_tol_ MAX_ITERS_.
  intros (Hrows & Hcols & Hvals & Hsums) Hlow.
  destruct (lookup_lt_is_Some_2 (simplex_ st) 0 ltac:(lia)) as [p0 Hp0].
  destruct (lookup_lt_is_Some_2 (simplex_ st) index_low ltac:(lia)) as [pl Hpl].
  pose proof (Forall_lookup_1 _ _ _ _ Hcols Hp0) as Hp0l.
  pose proof (Forall_lookup_1 _ _ _ _ Hcols Hpl) as Hpll. simpl in Hp0l, Hpll.
  unfold swapped_to_front. rewrite Hp0, Hpl. simpl.
  split; [|split; [exact Hpll | split; [|split]]].
  - unfold rectangular. simpl. rewrite !length_insert.
    split; [exact Hrows|]. split; [|split; assumption].
    apply Forall_insert; [apply Forall_insert; assumption | assumption].
  - unfold paired. simpl. intros Hp.
    rewrite !list_fmap_insert, <- Hp. unfold value_at.
    rewrite Hp, !list_lookup_fmap, Hp0, Hpl. reflexivity.
  - apply swapped_Permutation; assumption.
  - apply swapped_Permutation; apply lookup_value_at; lia.
Qed.

End MoveFacts.

Section Moves.
Context {D : Type} `{DoubleOps D}.
Variable objective_function : list D -> D.
Variable EPSILON_ : D.
Variable function_tol_ : D.
Variable MAX_ITERS_ : nat.

(** X4.  A round of a rectangular state that goes on leaves a rectangular
    state of the same numbers of dimensions and points, with paired values
    when they were paired.  It was entered with the counter below
    [MAX_ITERS_] and has raised it, by [2 + num_dimensions_] at most; the
    objective has been called at points of [num_dimensions_] coordinates
    only, and the calls made before are still on record. *)
Theorem round_keeps_shape (st st' : state D) :
  rectangular st ->
  iteration objective_function EPSILON_ function_tol_ MAX_ITERS_ st = Ok (Continue st') ->
  rectangular st' /\
  num_dimensions_ st' = num_dimensions_ st /\
  num_points_ st' = num_points_ st /\
  (paired objective_function st -> paired objective_function st') /\
  num_evals_ st < MAX_ITERS_ /\
  num_evals_ st < num_evals_ st' <= num_evals_ st + 2 + num_dimensions_ st /\
  exists new,
    evaluated st' = evaluated st ++ new /\
    Forall (fun p => length p = num_dimensions_ st) new.
Proof.
  intros Hrect Hround.
  destruct (iteration_cases objective_function EPSILON_ function_tol_ MAX_ITERS_ st Hrect)
    as [[_ E] | (Hnp & lo & hi & nh & Hrank & Hlo & Hhi & Hnh & E)];
    rewrite E in Hround; [discriminate|].
  unfold round in Hround. destruct (dltb _ _); [discriminate|].
  destruct (decide _) as [Hmax|Hmax]; [discriminate|].
  injection Hround as <-.
  destruct (move_frame objective_function dleb lo hi nh st Hrect Hlo Hhi)
    as (Hrect1 & Hnd1 & Hnp1 & (_ & Hcost) & Hp1).
  split; [exact Hrect1|]. split; [exact Hnd1|]. split; [exact Hnp1|].
  split; [exact Hp1|]. split; [lia|]. split.
  - destruct Hcost as [[? ?] | [[? ?] | [? ?]]]; lia.
  - apply move_log; assumption.
Qed.

(** X5.  In a run that returns from a rectangular state, the counter and the
    record of calls only grow.  The charge of the counter is at least the
    number of calls of the objective when there are at most
    [num_dimensions_ + 1] points, at most that number when there are at
    least [num_dimensions_ + 1] points, and so exactly that number for a
    simplex of [num_dimensions_ + 1] points. *)
Theorem counter_counts_calls (fuel : nat) (st : state D) (m : minimum D) :
  rectangular st ->
  iterate objective_function EPSILON_ function_tol_ MAX_ITERS_ fuel st = Ok m ->
  length (evaluated st) <= length (evaluated (final m)) /\
  num_evals_ st <= num_evals_ (final m) /\
  (num_points_ st <= num_dimensions_ st + 1 ->
   calls_between st (final m) <= charged_between st (final m)) /\
  (num_dimensions_ st + 1 <= num_points_ st ->
   charged_between st (final m) <= calls_between st (final m)) /\
  (num_points_ st = num_dimensions_ st + 1 ->
   calls_between st (final m) = charged_between st (final m)).
Proof.
  intros Hrect Hrun.
  edestruct (iterate_Ok_rel objective_function EPSILON_ function_tol_ MAX_ITERS_
    (fun st st' =>
       num_dimensions_ st' = num_dimensions_ st /\
       num_points_ st' = num_points_ st /\
       length (evaluated st) <= length (evaluated st') /\
       num_evals_ st <= num_evals_ st' /\
       (num_points_ st <= num_dimensions_ st + 1 ->
        calls_between st st' <= charged_between st st') /\
       (num_dimensions_ st + 1 <= num_points_ st ->
        charged_between st st' <= calls_between st st')))
    as (st' & lo & hi & nh & HR & _ & _ & _ & _ & _ & _ & _ & ->);
    [| |exact Hrect|exact Hrun|].
  - intros s _. unfold calls_between, charged_between. repeat split; lia.
  - intros s lo hi nh s'' Hr _ _ Hlo Hhi _.
    destruct (move_frame objective_function dleb lo hi nh s Hr Hlo Hhi)
      as (_ & Hnd1 & Hnp1 & (Hle & Hcost) & _).
    unfold calls_between, charged_between. rewrite Hnd1, Hnp1.
    intros (Hnd2 & Hnp2 & Hlog & Hev & Hmost & Hleast).
    split; [exact Hnd2|]. split; [exact Hnp2|]. split; [lia|].
    split; [destruct Hcost as [[? ?] | [[? ?] | [? ?]]]; lia|].
    split; intros Hshape; [specialize (Hmost Hshape) | specialize (Hleast Hshape)];
      destruct Hcost as [[? ?] | [[? ?] | [? ?]]]; lia.
  - unfold calls_between, charged_between in *.
    cbn [final swapped_to_front evaluated num_evals_ set_simplex_ set_func_vals_].
    destruct HR as (_ & _ & Hlog & Hev & Hmost & Hleast).
    split; [exact Hlog|]. split; [exact Hev|]. split; [exact Hmost|].
    split; [exact Hleast|]. intros Hshape.
    specialize (Hmost ltac:(lia)). specialize (Hleast ltac:(lia)). lia.
Qed.

(** X6.  A move never touches the best vertex: when the best index is not
    the worst index, the vertex at the best index and its value are after
    the move what they were before it, whichever of reflection, expansion,
    contraction and shrink the move has made. *)
Theorem move_keeps_best (st : state D) (index_low index_high index_next_high : nat) :
  rectangular st ->
  index_low < num_points_ st -> index_high < num_points_ st ->
  index_next_high < num_points_ st ->
  index_low ≠ index_high ->
  exists st',
    geometric_operator objective_function index_low index_high index_next_high st = Ok st' /\
    simplex_ st' !! index_low = simplex_ st !! index_low /\
    func_vals_ st' !! index_low = func_vals_ st !! index_low.
Proof.
  intros Hrect Hlo Hhi Hnh Hne.
  rewrite (geometric_operator_eq objective_function _ _ _ st Hrect Hlo Hhi Hnh).
  eexists. split; [reflexivity|].
  apply (move_best objective_function dleb _ _ _ st Hne).
Qed.

(** X7.  The steps of lines 97-102, taken on a rectangular state, only
    reorder: the simplex and the values of the state returned are
    permutations of what they were, still paired when they were paired; the
    returned vector has [num_dimensions_] coordinates; the counter, the sums
    and the record of calls are untouched. *)
Theorem return_only_reorders (st : state D) (index_low : nat) :
  rectangular st -> index_low < num_points_ st ->
  exists m,
    converged index_low st = Ok m /\
    simplex_ (final m) ≡ₚ simplex_ st /\
    func_vals_ (final m) ≡ₚ func_vals_ st /\
    rectangular (final m) /\
    (paired objective_function st -> paired objective_function (final m)) /\
    length (simplex_mins m) = num_dimensions_ st /\
    num_evals_ (final m) = num_evals_ st /\
    simplex_sums (final m) = simplex_sums st /\
    evaluated (final m) = evaluated st.
Proof.
  intros Hrect Hlo. rewrite (converged_eq index_low st Hrect Hlo).
  eexists. split; [reflexivity|].
  destruct (swapped_to_front_frame objective_function index_low st Hrect Hlo)
    as (Hr & Hlen & Hp & Hs & Hv).
  split; [exact Hs|]. split; [exact Hv|]. split; [exact Hr|]. split; [exact Hp|].
  split; [exact Hlen|]. split; [reflexivity|]. split; reflexivity.
Qed.

(** X8.  A run that returns from a rectangular state of paired values
    returns a rectangular state of paired values, with the numbers of
    dimensions and points it started with; along the run the objective has
    been called at points of [num_dimensions_] coordinates only, and the
    returned vector has that many coordinates. *)
Theorem returned_state_well_formed (fuel : nat) (st : state D) (m : minimum D) :
  rectangular st -> paired objective_function st ->
  iterate objective_function EPSILON_ function_tol_ MAX_ITERS_ fuel st = Ok m ->
  rectangular (final m) /\
  paired objective_function (final m) /\
  num_dimensions_ (final m) = num_dimensions_ st /\
  num_points_ (final m) = num_points_ st /\
  length (simplex_mins m) = num_dimensions_ st /\
  exists new,
    evaluated (final m) = evaluated st ++ new /\
    Forall (fun p => length p = num_dimensions_ st) new.
Proof.
  intros Hrect Hpaired Hrun.
  edestruct (iterate_Ok_rel objective_function EPSILON_ function_tol_ MAX_ITERS_
    (fun st st' =>
       num_dimensions_ st' = num_dimensions_ st /\
       num_points_ st' = num_points_ st /\
       (paired objective_function st -> paired objective_function st') /\
       exists new,
         evaluated st' = evaluated st ++ new /\
         Forall (fun p => length p = num_dimensions_ st) new))
    as (st' & lo & hi & nh & HR & Hrect' & _ & _ & Hlo & _ & _ & _ & ->);
    [| |exact Hrect|exact Hrun|].
  - intros s _. split; [reflexivity|]. split; [reflexivity|]. split; [tauto|].
    exists []. rewrite app_nil_r. split; [reflexivity | constructor].
  - intros s lo hi nh s'' Hr _ _ Hlo Hhi _.
    destruct (move_frame objective_function dleb lo hi nh s Hr Hlo Hhi)
      as (_ & Hnd1 & Hnp1 & _ & Hp1).
    destruct (move_log objective_function dleb lo hi nh s Hr Hlo Hhi)
      as (new1 & Hlog1 & Hall1).
    intros (Hnd2 & Hnp2 & Hp2 & new2 & Hlog2 & Hall2).
    split; [congruence|]. split; [congruence|]. split; [tauto|].
    exists (new1 ++ new2). rewrite Hlog2, Hlog1, app_assoc. split; [reflexivity|].
    apply Forall_app. split; [exact Hall1|]. rewrite <- Hnd1. exact Hall2.
  - destruct HR as (Hnd & Hnp & Hp & Hlog).
    destruct (swapped_to_front_frame objective_function lo st' Hrect' Hlo)
      as (Hr & Hlen & Hp' & _).
    split; [exact Hr|]. split; [tauto|]. simpl.
    split; [exact Hnd|]. split; [exact Hnp|]. split; [|exact Hlog].
    cbv zeta in Hlen. rewrite <- Hnd. exact Hlen.
Qed.

End Moves.

Section OrderFacts.
Context {D : Type} `{DoubleOps D} {laws : OrderLaws D}.
Variable objective_function : list D -> D.
Variable EPSILON_ : D.
Variable function_tol_ : D.
Variable MAX_ITERS_ : nat.

(** ** Values that only go down *)

Lemma paired_numbers (st : state D) :
  (forall p, number (objective_function p)) -> paired objective_function st ->
  Forall number (func_vals_ st).
Proof.
  intros Hnum Hp. rewrite Hp. apply Forall_fmap, Forall_forall. intros p _. apply Hnum.
Qed.

Lemma try_replace_value_le (index_worst k : nat) (factor : D) (st : state D) :
  Forall number (func_vals_ st) ->
  number (objective_function (trial_of index_worst factor st)) ->
  k < length (func_vals_ st) ->
  let st' := (try_replace objective_function index_worst factor st).2 in
  dleb (value_at st' k) (value_at st k) = true /\ Forall number (func_vals_ st').
Proof.
  intros Hall Hr Hk. rewrite try_replace_unfold. cbv zeta. cbn [snd].
  set (r := objective_function _) in *.
  assert (Hvk : number (value_at st k)) by (apply value_at_number; assumption).
  destruct (dltb r (value_at st index_worst)) eqn:E.
  - unfold replace_worst, value_at at 1. simpl. split; [|apply Forall_insert; assumption].
    destruct (decide (k = index_worst)) as [->|Hne].
    + rewrite list_lookup_insert_eq by exact Hk. simpl.
      apply dltb_dleb_weak; assumption.
    + rewrite list_lookup_insert_ne by congruence. apply dleb_refl, Hvk.
  - split; [apply dleb_refl, Hvk | exact Hall].
Qed.

(** The value at the best index after a move is no greater than before. *)
Lemma move_best_le (index_low index_high index_next_high : nat) (st : state D) :
  (forall p, number (objective_function p)) ->
  rectangular st -> paired objective_function st ->
  index_low < num_points_ st -> index_high < num_points_ st ->
  dleb (value_at (move objective_function dleb index_low index_high index_next_high st)
                 index_low)
       (value_at st index_low) = true.
Proof using Type.
  clear EPSILON_ function_tol_ MAX_ITERS_.
  intros Hnum Hrect Hpaired Hlo Hhi. unfold move.
  set (st0 := set_num_evals_ _ st).
  assert (Hrect0 : rectangular st0) by (apply set_num_evals_rectangular, Hrect).
  assert (Hall0 : Forall number (func_vals_ st0)).
  { apply (paired_numbers st Hnum Hpaired). }
  assert (Hlen0 : length (func_vals_ st0) = num_points_ st) by apply Hrect.
  pose proof (try_replace_value_le index_high index_low d_minus_one st0 Hall0
                (Hnum _) ltac:(lia)) as L1.
  pose proof (try_replace_frame objective_function index_high d_minus_one st0 Hrect0 Hhi)
    as F1.
  destruct (try_replace objective_function index_high d_minus_one st0) as [reflection st1].
  cbn [snd] in F1, L1. cbv zeta in L1.
  destruct F1 as (Hrect1 & _ & Hnp1 & _). destruct L1 as [Hle1 Hall1].
  change (num_points_ st0) with (num_points_ st) in Hnp1.
  change (value_at st0 index_low) with (value_at st index_low) in Hle1.
  assert (Hlen1 : length (func_vals_ st1) = num_points_ st).
  { destruct Hrect1 as (_ & _ & -> & _). exact Hnp1. }
  cbv zeta.
  destruct (dleb reflection _); [|destruct (dgeb reflection _)].
  - pose proof (try_replace_value_le index_high index_low d_two st1 Hall1
                  (Hnum _) ltac:(lia)) as L2.
    destruct (try_replace objective_function index_high d_two st1) as [expansion st2].
    cbn [snd] in *. cbv zeta in L2. destruct L2 as [Hle2 _].
    apply (dleb_trans _ _ _ Hle2 Hle1).
  - pose proof (try_replace_value_le index_high index_low d_half st1 Hall1
                  (Hnum _) ltac:(lia)) as L2.
    destruct (try_replace objective_function index_high d_half st1) as [contraction st2].
    cbn [snd] in *. cbv zeta in L2. destruct L2 as [Hle2 _].
    destruct (dgeb contraction _).
    + destruct (shrink_all_best objective_function index_low st2) as [_ Hv3].
      unfold value_at at 1. rewrite Hv3. fold (value_at st2 index_low).
      apply (dleb_trans _ _ _ Hle2 Hle1).
    + apply (dleb_trans _ _ _ Hle2 Hle1).
  - exact Hle1.
Qed.

End OrderFacts.

Section Order.
Context {D : Type} `{DoubleOps D} {laws : OrderLaws D}.
Variable objective_function : list D -> D.
Variable EPSILON_ : D.
Variable function_tol_ : D.
Variable MAX_ITERS_ : nat.

(** X9.  [reflect] never makes a vertex worse.  On a rectangular state
    whose values and trial value are numbers (none is NaN), every value of
    the state it leaves is less than or equal to the value that was at the
    same index, and the vertices and values at the other indices are the
    ones that were there. *)
Theorem reflect_never_worsens (st : state D) (index_worst : nat) (factor : D) :
  rectangular st -> index_worst < num_points_ st ->
  Forall number (func_vals_ st) ->
  number (objective_function (trial_of index_worst factor st)) ->
  exists value st',
    reflect objective_function st index_worst factor = Ok (value, st') /\
    (forall k, k < num_points_ st -> dleb (value_at st' k) (value_at st k) = true) /\
    (forall k, k ≠ index_worst ->
       simplex_ st' !! k = simplex_ st !! k /\ func_vals_ st' !! k = func_vals_ st !! k) /\
    Forall number (func_vals_ st').
Proof.
  intros Hrect Hiw Hall Hr.
  rewrite (reflect_eq objective_function st index_worst factor Hrect Hiw).
  assert (Hlen : length (func_vals_ st) = num_points_ st) by apply Hrect.
  pose proof (fun k Hk => try_replace_value_le objective_function index_worst k factor st
                            Hall Hr Hk) as L.
  pose proof (fun k => try_replace_other objective_function index_worst k factor st) as F.
  destruct (try_replace objective_function index_worst factor st) as [value st'].
  cbn [snd] in L, F. exists value, st'. split; [reflexivity|].
  split; [|split].
  - intros k Hk. apply L. lia.
  - intros k Hk. apply F, Hk.
  - apply (L index_worst). lia.
Qed.

(** X10.  The result is never worse than the start.  When the objective
    yields numbers only (never NaN), a run that returns from a rectangular
    state of paired values returns a value [func_min_] that is less than or
    equal to the objective at every vertex of the simplex the run started
    from; so does a run of [minimize] on a square simplex. *)
Theorem result_no_worse_than_start :
  (forall p, number (objective_function p)) ->
  (forall fuel st m,
     rectangular st -> paired objective_function st ->
     iterate objective_function EPSILON_ function_tol_ MAX_ITERS_ fuel st = Ok m ->
     forall p, p ∈ simplex_ st -> dleb (func_min_ m) (objective_function p) = true) /\
  (forall fuel initial_simplex m,
     1 <= length initial_simplex ->
     Forall (fun p => length p = length initial_simplex) initial_simplex ->
     minimize objective_function EPSILON_ function_tol_ MAX_ITERS_ fuel initial_simplex
     = Ok m ->
     forall p, p ∈ initial_simplex -> dleb (func_min_ m) (objective_function p) = true).
Proof.
  intros Hnum.
  assert (Hrun : forall fuel st m,
     rectangular st -> paired objective_function st ->
     iterate objective_function EPSILON_ function_tol_ MAX_ITERS_ fuel st = Ok m ->
     forall p, p ∈ simplex_ st -> dleb (func_min_ m) (objective_function p) = true).
  { intros fuel st m Hrect Hpaired Hrun p Hp.
    set (c := objective_function p).
    edestruct (iterate_Ok_rel objective_function EPSILON_ function_tol_ MAX_ITERS_
      (fun st st' =>
         paired objective_function st ->
         (exists k, k < num_points_ st /\ dleb (value_at st k) c = true) ->
         paired objective_function st' /\
         exists k, k < num_points_ st' /\ dleb (value_at st' k) c = true))
      as (st' & lo & hi & nh & HR & Hrect' & Hnp' & Hrank' & Hlo' & _ & _ & _ & ->);
      [| |exact Hrect|exact Hrun|].
    - intros s _ Hs Hk. split; assumption.
    - intros s lo hi nh s'' Hr Hnp Hrank Hlo Hhi _ HR Hs (k & Hk & Hle).
      assert (Hlen : length (func_vals_ s) = num_points_ s) by apply Hr.
      destruct (rank_ranked s Hlen Hnp (paired_numbers objective_function s Hnum Hs))
        as (lo' & hi' & nh' & Hrank' & Hranked).
      rewrite Hrank in Hrank'. injection Hrank' as <- <- <-.
      destruct Hranked as (_ & _ & _ & _ & Hmin & _).
      destruct (move_frame objective_function dleb lo hi nh s Hr Hlo Hhi)
        as (_ & _ & Hnp1 & _ & Hp1).
      apply HR; [apply Hp1, Hs|]. exists lo. split; [lia|].
      apply (dleb_trans _ (value_at s lo));
        [apply move_best_le; assumption|].
      apply (dleb_trans _ (value_at s k)); [apply Hmin, Hk | exact Hle].
    - destruct HR as (Hs' & k & Hk & Hle); [exact Hpaired| |].
      + apply list_elem_of_lookup_1 in Hp as [k Hk]. exists k.
        pose proof (lookup_lt_Some _ _ _ Hk) as Hlt.
        destruct Hrect as (Hrows & _). split; [lia|].
        unfold value_at. rewrite Hpaired, list_lookup_fmap, Hk. simpl.
        apply dleb_refl, Hnum.
      + assert (Hlen : length (func_vals_ st') = num_points_ st') by apply Hrect'.
        destruct (rank_ranked st' Hlen Hnp' (paired_numbers objective_function st' Hnum Hs'))
          as (lo' & hi' & nh' & Hrank'' & Hranked).
        rewrite Hrank' in Hrank''. injection Hrank'' as <- <- <-.
        destruct Hranked as (_ & _ & _ & _ & Hmin & _).
        simpl. apply (dleb_trans _ (value_at st' k)); [apply Hmin, Hk | exact Hle]. }
  split; [exact Hrun|].
  intros fuel initial_simplex m Hlen Hall Hmin p Hp.
  destruct (initialize_square objective_function initial_simplex Hlen Hall)
    as (Hinit & Hrect & Hpaired).
  unfold minimize in Hmin. rewrite Hinit in Hmin. simpl in Hmin.
  apply (Hrun fuel _ m Hrect Hpaired Hmin p). exact Hp.
Qed.

End Order.

Lemma bind_Undefined {A B} (m : result A) (k : A -> result B) :
  m = Undefined -> mbind k m = Undefined.
Proof. intros ->. reflexivity. Qed.

Section Builder.
Context {D : Type} `{DoubleOps D}.
Variable objective_function : list D -> D.
Variable EPSILON_ : D.
Variable function_tol_ : D.
Variable MAX_ITERS_ : nat.

(** ** The simplex around a point *)

(** Lines 27-29: the point copied into row [i]. *)
Lemma build_row (initial_point : list D) (i : nat) (simplex : list (list D))
    (row : list D) :
  simplex !! i = Some row -> length row = length initial_point ->
  for_loop (fun j simplex =>
      x_j ← load j initial_point;
      p_i ← load i simplex;
      p_i' ← store j x_j p_i;
      store i p_i' simplex)
    0 (length initial_point) simplex
  = Ok (<[i := initial_point]> simplex).
Proof.
  intros Hrow Hlen. pose proof (lookup_lt_Some _ _ _ Hrow) as Hi.
  apply (for_loop_eq (fun j s => s = <[i := take j initial_point ++ drop j row]> simplex)).
  - rewrite take_0, drop_0. simpl. symmetry. apply list_insert_id, Hrow.
  - intros j s Hj ->.
    destruct (lookup_lt_is_Some_2 initial_point j ltac:(lia)) as [x Hx].
    bind_step by (apply load_Some; exact Hx).
    bind_step by (apply load_Some, list_lookup_insert_eq; exact Hi).
    bind_step by (apply store_lt; rewrite length_app, length_take, length_drop; lia).
    rewrite store_lt by (rewrite length_insert; exact Hi).
    eexists. split; [reflexivity|]. rewrite list_insert_insert_eq.
    rewrite (insert_take_drop initial_point row j x); [reflexivity | lia | exact Hx].
  - intros s ->. simpl. rewrite take_ge, drop_ge, app_nil_r by lia. reflexivity.
Qed.

Lemma built_simplex_length (initial_point deltas : list D) :
  length (built_simplex initial_point deltas) = length initial_point + 1.
Proof. unfold built_simplex. simpl. rewrite length_imap. lia. Qed.

Lemma built_simplex_lookup_S (initial_point deltas : list D) (k : nat) (x delta : D) :
  initial_point !! k = Some x -> deltas !! k = Some delta ->
  built_simplex initial_point deltas !! S k = Some (<[k := dadd x delta]> initial_point).
Proof.
  intros Hx Hd. unfold built_simplex. simpl.
  rewrite list_lookup_imap, Hx. simpl. rewrite (nth_lookup_Some _ _ _ _ Hd). reflexivity.
Qed.

Lemma built_simplex_rows (initial_point deltas : list D) :
  Forall (fun p => length p = length initial_point) (built_simplex initial_point deltas).
Proof.
  unfold built_simplex. constructor; [reflexivity|].
  apply Forall_lookup_2. intros k p Hp. rewrite list_lookup_imap in Hp.
  destruct (initial_point !! k); [|discriminate]. injection Hp as <-.
  apply length_insert.
Qed.

(** The first [n] rounds of lines 26-34. *)
Lemma build_rounds (initial_point deltas : list D) (n : nat) :
  n <= length initial_point + 1 -> n <= length deltas + 1 ->
  let zeros := replicate (length initial_point + 1)
                 (replicate (length initial_point) d_zero) in
  for_loop (fun i simplex =>
      simplex ← for_loop (fun j simplex =>
          x_j ← load j initial_point;
          p_i ← load i simplex;
          p_i' ← store j x_j p_i;
          store i p_i' simplex)
        0 (length initial_point) simplex;
      if bool_decide (i ≠ 0) then
        p_i ← load i simplex;
        p_ii ← load (i - 1) p_i;
        delta ← load (i - 1) deltas;
        p_i' ← store (i - 1) (dadd p_ii delta) p_i;
        store i p_i' simplex
      else mret simplex)
    0 n zeros
  = Ok (take n (built_simplex initial_point deltas) ++ drop n zeros).
Proof.
  intros Hn Hd zeros.
  set (target := built_simplex initial_point deltas).
  assert (Htl : length target = length zeros).
  { unfold target, zeros. rewrite built_simplex_length, length_replicate. reflexivity. }
  assert (Hzl : length zeros = length initial_point + 1) by apply length_replicate.
  apply (for_loop_eq (fun i s => s = take i target ++ drop i zeros)).
  - rewrite take_0, drop_0. reflexivity.
  - intros i s Hi ->.
    assert (Hrow : (take i target ++ drop i zeros) !! i
                   = Some (replicate (length initial_point) d_zero)).
    { rewrite lookup_take_drop by lia. apply lookup_replicate_2. lia. }
    assert (Hsl : i < length (take i target ++ drop i zeros)).
    { apply lookup_lt_Some in Hrow. exact Hrow. }
    bind_step by (apply (build_row initial_point i _ _ Hrow); apply length_replicate).
    case_bool_decide as Hi0.
    + destruct i as [|k]; [congruence|]. replace (S k - 1) with k by lia.
      destruct (lookup_lt_is_Some_2 initial_point k ltac:(lia)) as [x Hx].
      destruct (lookup_lt_is_Some_2 deltas k ltac:(lia)) as [delta Hdelta].
      bind_step by (apply load_Some, list_lookup_insert_eq; exact Hsl).
      bind_step by (apply load_Some; exact Hx).
      bind_step by (apply load_Some; exact Hdelta).
      bind_step by (apply store_lt; apply lookup_lt_Some in Hx; exact Hx).
      rewrite store_lt by (rewrite length_insert; exact Hsl).
      eexists. split; [reflexivity|]. rewrite list_insert_insert_eq.
      apply insert_take_drop; [exact Htl|].
      apply built_simplex_lookup_S; assumption.
    + assert (i = 0) as -> by (destruct (decide (i = 0)); [assumption | contradiction]).
      eexists. split; [reflexivity|].
      apply insert_take_drop; [exact Htl | reflexivity].
  - intros s ->. reflexivity.
Qed.

Lemma build_simplex_eq (initial_point deltas : list D) :
  length initial_point <= length deltas ->
  build_simplex initial_point deltas = Ok (built_simplex initial_point deltas).
Proof.
  intros Hd. unfold build_simplex.
  rewrite (build_rounds initial_point deltas (length initial_point + 1)) by lia.
  cbv zeta. rewrite take_ge, drop_ge, app_nil_r;
    [reflexivity | rewrite length_replicate; lia | rewrite built_simplex_length; lia].
Qed.

(** A vector of steps shorter than the point is read past its end. *)
Lemma build_simplex_short (initial_point deltas : list D) :
  length deltas < length initial_point ->
  build_simplex initial_point deltas = Undefined.
Proof.
  intros Hd. unfold build_simplex.
  rewrite (for_loop_split _ (length deltas + 1) (length initial_point + 1)) by lia.
  rewrite (build_rounds initial_point deltas (length deltas + 1)) by lia.
  cbv zeta. simpl.
  set (zeros := replicate _ _). set (target := built_simplex initial_point deltas).
  assert (Htl : length target = length zeros).
  { unfold target, zeros. rewrite built_simplex_length, length_replicate. reflexivity. }
  assert (Hzl : length zeros = length initial_point + 1) by apply length_replicate.
  destruct (length initial_point + 1 - (length deltas + 1)) as [|m] eqn:Em; [lia|].
  simpl.
  set (i := length deltas + 1).
  assert (Hrow : (take i target ++ drop i zeros) !! i
                 = Some (replicate (length initial_point) d_zero)).
  { rewrite lookup_take_drop by lia. apply lookup_replicate_2. lia. }
  assert (Hsl : i < length (take i target ++ drop i zeros)).
  { apply lookup_lt_Some in Hrow. exact Hrow. }
  apply bind_Undefined.
  bind_step by (apply (build_row initial_point i _ _ Hrow); apply length_replicate).
  rewrite bool_decide_true by lia.
  destruct (lookup_lt_is_Some_2 initial_point (length deltas) ltac:(lia)) as [x Hx].
  bind_step by (apply load_Some, list_lookup_insert_eq; exact Hsl).
  replace (i - 1) with (length deltas) by lia.
  bind_step by (apply load_Some; exact Hx).
  rewrite (load_ge (length deltas) deltas) by lia. reflexivity.
Qed.

(** ** A first row that does not fit *)

Lemma minimize_first_row (initial_simplex : list (list D)) (p_0 : list D) (fuel : nat) :
  initial_simplex !! 0 = Some p_0 ->
  length p_0 < 2 \/ length p_0 ≠ length initial_simplex ->
  minimize objective_function EPSILON_ function_tol_ MAX_ITERS_ (S fuel) initial_simplex
  = Undefined.
Proof.
  intros Hp0 Hshape. unfold minimize.
  destruct (initialize_ends_or_overruns objective_function initial_simplex) as [[st Hst] | ->];
    [|reflexivity].
  rewrite Hst.
  destruct (initialize_Ok_in_range objective_function _ st Hst) as (q & Hq & Hrows & Hcols).
  assert (q = p_0) as -> by congruence.
  rewrite (initialize_eq objective_function initial_simplex p_0 Hp0 Hrows Hcols) in Hst.
  injection Hst as <-.
  assert (Hshort : length p_0 < 2).
  { destruct Hshape as [Hlt|Hne]; [exact Hlt|].
    destruct (decide (length p_0 = 0)) as [?|Hpos]; [lia|].
    specialize (Hcols 0 p_0 ltac:(lia) Hp0). lia. }
  cbn [mbind result_bind iterate]. unfold iteration.
  rewrite rank_short; [reflexivity | |exact Hshort].
  simpl. rewrite length_fmap, length_fmap, length_take.
  apply lookup_lt_Some in Hp0. lia.
Qed.

(** X3.  A simplex whose row 0 has fewer than two entries, or a number of
    entries that is not the number of rows, makes [minimize] read outside a
    vector: in the first evaluation of the simplex, or in the ranking pass
    that reads [func_vals_[0]] and [func_vals_[1]]. *)
Theorem first_row_must_match (initial_simplex : list (list D)) (p_0 : list D) (fuel : nat) :
  initial_simplex !! 0 = Some p_0 ->
  length p_0 < 2 \/ length p_0 ≠ length initial_simplex ->
  minimize objective_function EPSILON_ function_tol_ MAX_ITERS_ (S fuel) initial_simplex
  = Undefined.
Proof.
  apply minimize_first_row.
Qed.

(** X11.  Lines 22-34 build, around a point of [N] coordinates and with
    [deltas] of [N] entries or more, the simplex of [N + 1] rows of [N]
    coordinates whose row 0 is the point and whose row [k + 1] is the point
    with [deltas[k]] added to coordinate [k].  With fewer than [N] entries
    in [deltas] they read [deltas] past its end. *)
Theorem build_simplex_result (initial_point deltas : list D) :
  (length initial_point <= length deltas ->
   build_simplex initial_point deltas = Ok (built_simplex initial_point deltas)) /\
  (length deltas < length initial_point ->
   build_simplex initial_point deltas = Undefined) /\
  length (built_simplex initial_point deltas) = length initial_point + 1 /\
  Forall (fun p => length p = length initial_point) (built_simplex initial_point deltas) /\
  built_simplex initial_point deltas !! 0 = Some initial_point /\
  (forall k x delta,
     initial_point !! k = Some x -> deltas !! k = Some delta ->
     built_simplex initial_point deltas !! S k
     = Some (<[k := dadd x delta]> initial_point)).
Proof.
  split; [apply build_simplex_eq|]. split; [apply build_simplex_short|].
  split; [apply built_simplex_length|]. split; [apply built_simplex_rows|].
  split; [reflexivity|]. apply built_simplex_lookup_S.
Qed.

(** X12.  The two overloads of [minimize] that start from a point never
    get to their first round: whatever the point and the steps, the simplex
    of [N + 1] rows of [N] coordinates they build (line 25) is handed to the
    overload that takes the number of rows for the number of dimensions, and
    the run reads outside a vector (when it has not already read the steps
    past their end). *)
Theorem point_overloads_overrun (fuel : nat) (initial_point : list D) :
  (forall deltas,
     minimize_deltas objective_function EPSILON_ function_tol_ MAX_ITERS_
       (S fuel) initial_point deltas = Undefined) /\
  (forall delta,
     minimize_delta objective_function EPSILON_ function_tol_ MAX_ITERS_
       (S fuel) initial_point delta = Undefined).
Proof.
  assert (Hdeltas : forall deltas,
     minimize_deltas objective_function EPSILON_ function_tol_ MAX_ITERS_
       (S fuel) initial_point deltas = Undefined).
  { intros deltas. unfold minimize_deltas.
    destruct (decide (length initial_point <= length deltas)) as [Hd|Hd].
    - rewrite (build_simplex_eq initial_point deltas Hd).
      apply (minimize_first_row _ initial_point); [reflexivity|].
      right. rewrite built_simplex_length. lia.
    - rewrite (build_simplex_short initial_point deltas) by lia. reflexivity. }
  split; [exact Hdeltas|]. intros delta. apply Hdeltas.
Qed.

End Builder.

(** ** The cached sums, in exact arithmetic *)

Lemma delete_insert_same {A} (l : list A) (i : nat) (x : A) :
  delete i (<[i := x]> l) = delete i l.
Proof.
  revert i. induction l as [|y l IH]; intros [|i]; simpl; try reflexivity.
  f_equal. apply IH.
Qed.

Lemma sum_Permutation (l l' : list Q) :
  l ≡ₚ l' -> (foldl Qplus 0 l == foldl Qplus 0 l')%Q.
Proof.
  induction 1 as [|x l l' _ IH|x y l|l l' l'' _ IH1 _ IH2]; simpl.
  - reflexivity.
  - rewrite (foldl_Qplus_acc (0 + x)%Q l), (foldl_Qplus_acc (0 + x)%Q l'), IH. reflexivity.
  - rewrite (foldl_Qplus_acc (0 + y + x)%Q l), (foldl_Qplus_acc (0 + x + y)%Q l). ring.
  - rewrite IH1. exact IH2.
Qed.

Section ExactSums.
Variable objective_function : list Q -> Q.
Variable EPSILON_ : Q.
Variable function_tol_ : Q.
Variable MAX_ITERS_ : nat.

Lemma replace_worst_sums_cached (st : state Q) (index_worst : nat) (trial : list Q)
    (value : Q) :
  rectangular st -> index_worst < num_points_ st ->
  length trial = num_dimensions_ st ->
  sums_cached st -> sums_cached (replace_worst trial value index_worst st).
Proof.
  intros (Hrows & Hcols & Hvals & Hsums) Hiw Htrial Hcached j Hj.
  destruct (lookup_lt_is_Some_2 (simplex_ st) index_worst ltac:(lia)) as [worst Hworst].
  pose proof (Forall_lookup_1 _ _ _ _ Hcols Hworst) as Hlen. simpl in Hlen.
  unfold replace_worst in *. cbn [num_dimensions_ simplex_ simplex_sums] in *.
  rewrite Hworst. change (default [] (Some worst)) with worst.
  destruct (lookup_lt_is_Some_2 (simplex_sums st) j ltac:(lia)) as [s Hs].
  destruct (lookup_lt_is_Some_2 trial j ltac:(lia)) as [e He].
  destruct (lookup_lt_is_Some_2 worst j ltac:(lia)) as [x Hx].
  specialize (Hcached j Hj).
  rewrite nth_lookup, Hs in Hcached. cbn [default] in Hcached.
  rewrite nth_lookup, dimension_sums_lookup in Hcached by exact Hj.
  cbn [default] in Hcached.
  change (foldl dadd d_zero) with (foldl Qplus 0%Q) in Hcached.
  rewrite (sum_delete (fun row => nth j row d_zero) _ _ _ Hworst) in Hcached.
  rewrite (nth_lookup_Some worst j d_zero x Hx) in Hcached.
  rewrite nth_lookup, lookup_zip_with, Hs. cbn [mbind option_bind].
  rewrite lookup_zip_with, He. cbn [mbind option_bind]. rewrite Hx.
  cbn [default mbind option_bind].
  rewrite nth_lookup, dimension_sums_lookup by exact Hj. cbn [default].
  change (foldl dadd d_zero) with (foldl Qplus 0%Q).
  rewrite (sum_delete (fun row => nth j row d_zero) _ index_worst trial)
    by (apply list_lookup_insert_eq; lia).
  rewrite delete_insert_same, (nth_lookup_Some trial j d_zero e He).
  change (dadd s (dsub e x)) with (s + (e - x))%Q.
  unfold id in *. rewrite Hcached. ring.
Qed.

Lemma try_replace_sums_cached (index_worst : nat) (factor : Q) (st : state Q) :
  rectangular st -> index_worst < num_points_ st ->
  sums_cached st -> sums_cached (try_replace objective_function index_worst factor st).2.
Proof.
  intros Hrect Hiw Hcached. rewrite try_replace_unfold. cbv zeta. cbn [snd].
  destruct (dltb _ _); [|exact Hcached].
  apply replace_worst_sums_cached.
  - destruct Hrect as (? & ? & ? & ?). repeat split; assumption.
  - exact Hiw.
  - apply (trial_of_length st); assumption.
  - exact Hcached.
Qed.

Lemma move_sums_cached (expands : Q -> Q -> bool)
    (index_low index_high index_next_high : nat) (st : state Q) :
  rectangular st -> index_low < num_points_ st -> index_high < num_points_ st ->
  sums_cached st ->
  sums_cached (move objective_function expands index_low index_high index_next_high st).
Proof.
  intros Hrect Hlo Hhi Hcached. unfold move.
  set (st0 := set_num_evals_ _ st).
  assert (Hrect0 : rectangular st0) by (apply set_num_evals_rectangular, Hrect).
  pose proof (try_replace_sums_cached index_high d_minus_one st0 Hrect0 Hhi Hcached) as C1.
  pose proof (try_replace_frame objective_function index_high d_minus_one st0 Hrect0 Hhi)
    as F1.
  destruct (try_replace objective_function index_high d_minus_one st0) as [reflection st1].
  cbn [snd] in F1, C1. destruct F1 as (Hrect1 & _ & Hnp1 & _).
  change (num_points_ st0) with (num_points_ st) in Hnp1.
  cbv zeta.
  destruct (expands reflection _); [|destruct (dgeb reflection _)].
  - apply try_replace_sums_cached; [exact Hrect1 | lia | exact C1].
  - pose proof (try_replace_sums_cached index_high d_half st1 Hrect1 ltac:(lia) C1) as C2.
    destruct (try_replace objective_function index_high d_half st1) as [contraction st2].
    cbn [snd] in *. destruct (dgeb contraction _); [|exact C2].
    intros j Hj. reflexivity.
  - exact C1.
Qed.

Lemma swapped_sums_cached (index_low : nat) (st : state Q) :
  rectangular st -> index_low < num_points_ st ->
  sums_cached st -> sums_cached (final (swapped_to_front index_low st)).
Proof.
  intros Hrect Hlo Hcached j Hj.
  destruct (swapped_to_front_frame objective_function index_low st Hrect Hlo)
    as (_ & _ & _ & Hperm & _).
  cbn [final swapped_to_front num_dimensions_ simplex_sums set_simplex_ set_func_vals_] in *.
  rewrite (Hcached j Hj).
  rewrite !nth_lookup, !dimension_sums_lookup by exact Hj. cbn [default].
  apply sum_Permutation, fmap_Permutation. symmetry. exact Hperm.
Qed.

(** X13.  In exact arithmetic the cached sums are the sums of the columns
    of the simplex throughout: they are so in the state [minimize] starts
    its loop from; [reflect] on a rectangular state keeps them so, and so
    does every round that goes on; and they are so in the state a run
    returns.  (In floating point the sums that [reflect] updates by new
    minus old are the column sums up to rounding only.) *)
Theorem sums_stay_cached :
  (forall initial_simplex st,
     initialize objective_function initial_simplex = Ok st -> sums_cached st) /\
  (forall st index_worst factor value st',
     rectangular st -> index_worst < num_points_ st -> sums_cached st ->
     reflect objective_function st index_worst factor = Ok (value, st') ->
     sums_cached st') /\
  (forall st st',
     rectangular st -> sums_cached st ->
     iteration objective_function EPSILON_ function_tol_ MAX_ITERS_ st = Ok (Continue st') ->
     sums_cached st') /\
  (forall fuel st m,
     rectangular st -> sums_cached st ->
     iterate objective_function EPSILON_ function_tol_ MAX_ITERS_ fuel st = Ok m ->
     sums_cached (final m)).
Proof.
  split; [|split; [|split]].
  - intros initial_simplex st. unfold initialize.
    destruct (load 0 initial_simplex) as [p_0| | |]; try discriminate. simpl.
    destruct (evaluate_simplex _ _) as [st1| | |]; try discriminate. simpl.
    intros Hst. injection Hst as <-. intros j Hj. reflexivity.
  - intros st w factor value st' Hrect Hw Hcached.
    rewrite (reflect_eq objective_function st w factor Hrect Hw).
    pose proof (try_replace_sums_cached w factor st Hrect Hw Hcached) as C.
    destruct (try_replace objective_function w factor st) as [v t]. cbn [snd] in C.
    intros E. injection E as _ <-. exact C.
  - intros st st' Hrect Hcached Hround.
    destruct (iteration_cases objective_function EPSILON_ function_tol_ MAX_ITERS_ st Hrect)
      as [[_ E] | (Hnp & lo & hi & nh & Hrank & Hlo & Hhi & Hnh & E)];
      rewrite E in Hround; [discriminate|].
    unfold round in Hround. destruct (dltb _ _); [discriminate|].
    destruct (decide _) as [Hmax|Hmax]; [discriminate|].
    injection Hround as <-. apply move_sums_cached; assumption.
  - intros fuel st m Hrect Hcached Hrun.
    edestruct (iterate_Ok_rel objective_function EPSILON_ function_tol_ MAX_ITERS_
      (fun st st' => sums_cached st -> sums_cached st'))
      as (st' & lo & hi & nh & HR & Hrect' & _ & _ & Hlo & _ & _ & _ & ->);
      [| |exact Hrect|exact Hrun|].
    + intros s _ Hs. exact Hs.
    + intros s lo hi nh s'' Hr _ _ Hlo Hhi _ HR Hs.
      apply HR, move_sums_cached; assumption.
    + apply swapped_sums_cached; [exact Hrect' | exact Hlo | apply HR, Hcached].
Qed.

End ExactSums.

(** ** C4: the trial point of [reflect] on the states of a run *)

Section TrialPointOfARun.
Local Open Scope Q_scope.
Variable objective_function : list Q -> Q.
Variable EPSILON_ : Q.
Variable function_tol_ : Q.
Variable MAX_ITERS_ : nat.

(** The number of vertices, one more than the number of the others. *)
Lemma inject_Z_pred (n : nat) :
  (1 <= n)%nat -> inject_Z (Z.of_nat n) == inject_Z (Z.of_nat (n - 1)) + 1.
Proof.
  intros Hn. replace (Z.of_nat n) with (Z.of_nat (n - 1) + 1)%Z by lia.
  rewrite inject_Z_plus. reflexivity.
Qed.

(** C4 fails on the code.  [minimize] takes the number of rows of the
    simplex for [num_dimensions_] (line 47): no state it starts its loop from
    has [num_dimensions_ + 1] points, and the rectangular simplexes it reads
    in range are the square ones, whose states have as many points as
    dimensions and cached sums that are the column sums, which [reflect] and
    every round keep.  On such a state of [K >= 2] vertices line 159 divides
    by [K], not by the number [K - 1] of the other vertices: in exact
    arithmetic the trial coordinate is
    [(1 - f) * c + f * worst - (1 - f) * c / K], where [c] is the centroid
    coordinate of the other vertices.  It is the affine combination
    [(1 - f) * c + f * worst] of the claim only when [f = 1] or [c = 0]: for
    none of the factors -1, 2 and 1/2 unless the centroid coordinate is 0. *)
Theorem reflect_misses_the_centroid :
  (forall initial_simplex st,
     initialize objective_function initial_simplex = Ok st ->
     num_points_ st ≠ S (num_dimensions_ st)) /\
  (forall initial_simplex,
     (2 <= length initial_simplex)%nat ->
     Forall (fun p => length p = length initial_simplex) initial_simplex ->
     exists st,
       initialize objective_function initial_simplex = Ok st /\
       rectangular st /\ num_points_ st = num_dimensions_ st /\ sums_cached st) /\
  (forall st index_worst factor value st',
     rectangular st -> num_points_ st = num_dimensions_ st -> sums_cached st ->
     (index_worst < num_points_ st)%nat ->
     reflect objective_function st index_worst factor = Ok (value, st') ->
     rectangular st' /\ num_points_ st' = num_dimensions_ st' /\ sums_cached st') /\
  (forall st st',
     rectangular st -> num_points_ st = num_dimensions_ st -> sums_cached st ->
     iteration objective_function EPSILON_ function_tol_ MAX_ITERS_ st = Ok (Continue st') ->
     rectangular st' /\ num_points_ st' = num_dimensions_ st' /\ sums_cached st') /\
  (forall st index_worst j f,
     rectangular st -> num_points_ st = num_dimensions_ st -> sums_cached st ->
     (2 <= num_points_ st)%nat ->
     (index_worst < num_points_ st)%nat -> (j < num_dimensions_ st)%nat ->
     let K := inject_Z (Z.of_nat (num_dimensions_ st)) in
     let worst_j := nth j (default [] (simplex_ st !! index_worst)) 0 in
     let c := centroid_without index_worst (simplex_ st) j in
     let trial_j := nth j (trial_of index_worst f st) 0 in
     reflect_point st index_worst f = Ok (trial_of index_worst f st) /\
     trial_j == (1 - f) * c + f * worst_j - (1 - f) * c / K /\
     (trial_j == (1 - f) * c + f * worst_j <-> f == 1 \/ c == 0)).
Proof.
  split; [|split; [|split; [|split]]].
  - intros initial_simplex st Hst.
    destruct (initialize_Ok_in_range objective_function _ st Hst)
      as (p_0 & Hp0 & Hrows & Hcols).
    rewrite (initialize_eq objective_function initial_simplex p_0 Hp0 Hrows Hcols) in Hst.
    injection Hst as <-. simpl. lia.
  - intros initial_simplex Hlen Hall.
    destruct (initialize_square objective_function initial_simplex ltac:(lia) Hall)
      as (Hinit & Hrect & _).
    eexists. split; [exact Hinit|]. split; [exact Hrect|]. split; [reflexivity|].
    intros j Hj. reflexivity.
  - intros st w factor value st' Hrect Hsquare Hcached Hw.
    rewrite (reflect_eq objective_function st w factor Hrect Hw).
    pose proof (try_replace_sums_cached objective_function w factor st Hrect Hw Hcached) as C.
    pose proof (try_replace_frame objective_function w factor st Hrect Hw) as F.
    destruct (try_replace objective_function w factor st) as [v t]. cbn [snd] in C, F.
    destruct F as (Hrect' & Hnd & Hnp & _).
    intros E. injection E as _ <-.
    split; [exact Hrect'|]. split; [lia | exact C].
  - intros st st' Hrect Hsquare Hcached Hround.
    destruct (iteration_cases objective_function EPSILON_ function_tol_ MAX_ITERS_ st Hrect)
      as [[_ E] | (Hnp & lo & hi & nh & Hrank & Hlo & Hhi & Hnh & E)];
      rewrite E in Hround; [discriminate|].
    unfold round in Hround. destruct (dltb _ _); [discriminate|].
    destruct (decide _) as [Hmax|Hmax]; [discriminate|].
    injection Hround as <-.
    destruct (move_frame objective_function dleb lo hi nh st Hrect Hlo Hhi)
      as (Hrect' & Hnd & Hnp' & _).
    split; [exact Hrect'|].
    split; [exact (eq_trans Hnp' (eq_trans Hsquare (eq_sym Hnd)))|].
    apply move_sums_cached; assumption.
  - intros st w j f Hrect Hsquare Hcached Hnp Hw Hj K worst_j c trial_j.
    destruct Hrect as (Hrows & Hcols & Hvals & Hsums).
    destruct (lookup_lt_is_Some_2 (simplex_ st) w ltac:(lia)) as [worst Hworst].
    pose proof (Forall_lookup_1 _ _ _ _ Hcols Hworst) as Hlen. simpl in Hlen.
    destruct (lookup_lt_is_Some_2 (simplex_sums st) j ltac:(lia)) as [s Hs].
    destruct (lookup_lt_is_Some_2 worst j ltac:(lia)) as [x Hx].
    set (sum_j := nth j (simplex_sums st) 0).
    set (M := inject_Z (Z.of_nat (length (simplex_ st) - 1))).
    assert (HKM : K == M + 1).
    { unfold K, M. rewrite Hrows, Hsquare. apply inject_Z_pred. lia. }
    assert (HM : ~ M == 0).
    { unfold M, Qeq. simpl. lia. }
    assert (HK : ~ K == 0).
    { unfold K, Qeq. simpl. lia. }
    assert (Hformula : trial_j = sum_j * ((1 - f) / K) - worst_j * ((1 - f) / K - f)).
    { unfold trial_j, sum_j, worst_j, trial_of, trial_point. rewrite Hworst. simpl.
      rewrite !nth_lookup, lookup_zip_with, Hs, Hx. reflexivity. }
    assert (Hcentroid : sum_j == worst_j + c * M).
    { unfold sum_j. rewrite (Hcached j Hj).
      rewrite nth_lookup, dimension_sums_lookup by exact Hj. simpl.
      rewrite (sum_delete (fun row => nth j row 0) _ _ _ Hworst).
      unfold worst_j, c, centroid_without. rewrite Hworst. simpl.
      fold M. field. exact HM. }
    assert (Htrial : trial_j == (1 - f) * c + f * worst_j - (1 - f) * c / K).
    { rewrite Hformula, Hcentroid.
      assert (HMK : M == K - 1) by (rewrite HKM; ring).
      rewrite HMK. field. exact HK. }
    split.
    { unfold trial_of. rewrite Hworst. apply reflect_point_eq; assumption. }
    split; [exact Htrial|].
    split.
    + intros Heq.
      assert (Hzero : (1 - f) * c == 0).
      { assert (Hd : (1 - f) * c / K == 0).
        { assert (Hd' : (1 - f) * c / K == ((1 - f) * c + f * worst_j) - trial_j)
            by (rewrite Htrial; ring).
          rewrite Hd', Heq. ring. }
        assert (Hm : (1 - f) * c == (1 - f) * c / K * K) by (field; exact HK).
        rewrite Hm, Hd. ring. }
      destruct (Qmult_integral _ _ Hzero) as [Hf|Hc]; [left | right; exact Hc].
      assert (Hf' : f == 1 - (1 - f)) by ring. rewrite Hf', Hf. ring.
    + intros [Hf|Hc]; rewrite Htrial.
      * rewrite Hf. field. exact HK.
      * rewrite Hc. field. exact HK.
Qed.

End TrialPointOfARun.

(** ** A value that is NaN *)

Lemma is_nan_Prim2SF (x : float) : PrimFloat.is_nan x = true -> Prim2SF x = S754_nan.
Proof. unfold Prim2SF. intros ->. reflexivity. Qed.

(** The test value of lines 90-93 is NaN when one of its two values is. *)
Lemma spread_nan (EPSILON_ a b : float) :
  PrimFloat.is_nan a = true \/ PrimFloat.is_nan b = true ->
  Prim2SF (ddiv (dmul d_two (dabs (dsub a b))) (dadd (dadd (dabs a) (dabs b)) EPSILON_))
  = S754_nan.
Proof.
  intros Hnan. simpl.
  rewrite FloatAxioms.div_spec, FloatAxioms.mul_spec, FloatAxioms.abs_spec,
    FloatAxioms.sub_spec.
  assert (Hsub : SF64sub (Prim2SF a) (Prim2SF b) = S754_nan).
  { destruct Hnan as [Ha|Hb].
    - rewrite (is_nan_Prim2SF a Ha). reflexivity.
    - rewrite (is_nan_Prim2SF b Hb). destruct (Prim2SF a); reflexivity. }
  rewrite Hsub. simpl. destruct (Prim2SF 2); reflexivity.
Qed.

Lemma ltb_nan (x y : float) : Prim2SF x = S754_nan -> PrimFloat.ltb x y = false.
Proof. intros Hx. rewrite FloatAxioms.ltb_spec, Hx. reflexivity. Qed.

Section NotANumber.
Variable objective_function : list float -> float.
Variable EPSILON_ : float.
Variable function_tol_ : float.
Variable MAX_ITERS_ : nat.

(** X14.  A round whose best or worst value is NaN does not return: the
    test value of lines 90-93 is then NaN, which is below no tolerance, so
    the round throws when the counter has reached [MAX_ITERS_] and makes a
    move otherwise. *)
Theorem nan_value_never_returns (st : state float)
    (index_low index_high index_next_high : nat) :
  rectangular st ->
  rank st = Ok (index_low, index_high, index_next_high) ->
  PrimFloat.is_nan (value_at st index_high) = true \/
  PrimFloat.is_nan (value_at st index_low) = true ->
  iteration objective_function EPSILON_ function_tol_ MAX_ITERS_ st
  = if decide (MAX_ITERS_ <= num_evals_ st) then Throw MaxIterationsExceeded
    else Ok (Continue (move objective_function dleb index_low index_high
                         index_next_high st)).
Proof.
  intros Hrect Hrank Hnan.
  destruct (iteration_cases objective_function EPSILON_ function_tol_ MAX_ITERS_ st Hrect)
    as [[Hnp _] | (Hnp & lo & hi & nh & Hrank' & Hlo & Hhi & Hnh & E)].
  - assert (Hvals : length (func_vals_ st) = num_points_ st) by apply Hrect.
    rewrite (rank_short st Hvals Hnp) in Hrank. discriminate.
  - rewrite Hrank in Hrank'. injection Hrank' as <- <- <-.
    rewrite E. unfold round, spread.
    change (dltb ?x function_tol_) with (PrimFloat.ltb x function_tol_).
    rewrite (ltb_nan _ function_tol_ (spread_nan EPSILON_ _ _ Hnan)). reflexivity.
Qed.

End NotANumber.

(** ** Values that are all equal *)

Section EqualValues.
Variable objective_function : list Q -> Q.
Variable EPSILON_ : Q.
Variable function_tol_ : Q.
Variable MAX_ITERS_ : nat.

Lemma spread_equal (st : state Q) (index_low index_high : nat) :
  (value_at st index_high == value_at st index_low)%Q ->
  (0 < function_tol_)%Q ->
  dltb (spread EPSILON_ st index_low index_high) function_tol_ = true.
Proof.
  intros Heq Htol. unfold spread.
  cbn [dltb ddiv dmul dabs dsub dadd d_two Q_ops].
  destruct (Qle_bool function_tol_ _) eqn:E; [|reflexivity].
  exfalso. apply Qle_bool_iff in E. revert E. apply Qlt_not_le.
  match goal with |- (?x < _)%Q => assert (Hz : (x == 0)%Q) end.
  { rewrite Heq.
    assert (Hd : (value_at st index_low - value_at st index_low == 0)%Q) by ring.
    rewrite Hd. unfold Qdiv. change (Qabs 0) with 0%Q. ring. }
  rewrite Hz. exact Htol.
Qed.

(** X15.  In exact arithmetic, with [EPSILON_] above 0, so that the
    divisor of the test value of lines 90-93 is above 0 whatever the values,
    and with a tolerance above 0, a rectangular
    state of two points or more whose values are all equal returns in its
    first round, without a move: the vertex returned is the last one of the
    simplex, and the counter and the record of calls are what they were.  So
    [minimize] on a square simplex, for an objective that is constant,
    returns the last row after one call of the objective for each row. *)
Theorem equal_values_return_at_once :
  (0 < EPSILON_)%Q ->
  (0 < function_tol_)%Q ->
  (forall st index_low index_high,
     (0 < dadd (dadd (dabs (value_at st index_high)) (dabs (value_at st index_low)))
               EPSILON_)%Q) /\
  (forall st fuel,
     rectangular st -> 2 <= num_points_ st ->
     (forall k, k < num_points_ st -> (value_at st k == value_at st 0)%Q) ->
     iterate objective_function EPSILON_ function_tol_ MAX_ITERS_ (S fuel) st
     = Ok (swapped_to_front (num_points_ st - 1) st)) /\
  (forall c initial_simplex fuel,
     2 <= length initial_simplex ->
     Forall (fun p => length p = length initial_simplex) initial_simplex ->
     exists m,
       minimize (fun _ => c) EPSILON_ function_tol_ MAX_ITERS_ (S fuel) initial_simplex
       = Ok m /\
       Some (simplex_mins m) = last initial_simplex /\
       func_min_ m = c /\
       num_evals_ (final m) = 0 /\
       evaluated (final m) = initial_simplex).
Proof.
  intros Heps Htol. split.
  { intros st lo hi. cbn [dadd dabs Q_ops].
    assert (Hsum : (0 <= Qabs (value_at st hi) + Qabs (value_at st lo))%Q).
    { change 0%Q with (0 + 0)%Q. apply Qplus_le_compat; apply Qabs_nonneg. }
    rewrite Qplus_comm. change 0%Q with (0 + 0)%Q.
    apply Qplus_lt_le_compat; assumption. }
  assert (Hstate : forall f st fuel,
     rectangular st -> 2 <= num_points_ st ->
     (forall k, k < num_points_ st -> (value_at st k == value_at st 0)%Q) ->
     iterate f EPSILON_ function_tol_ MAX_ITERS_ (S fuel) st
     = Ok (swapped_to_front (num_points_ st - 1) st)).
  { intros f st fuel Hrect Hnp Heq.
    assert (Hvals : length (func_vals_ st) = num_points_ st) by apply Hrect.
    destruct (rank_ranked st Hvals Hnp) as (lo & hi & nh & Hrank & Hranked).
    { apply Forall_forall. intros x _. exact I. }
    destruct Hranked as (Hlo & Hhi & Hnh & _ & _ & Hlast & _).
    assert (lo = num_points_ st - 1) as ->.
    { destruct (decide (lo = num_points_ st - 1)) as [?|Hne]; [assumption|].
      exfalso. specialize (Hlast (num_points_ st - 1) ltac:(lia)).
      simpl in Hlast. apply negb_true_iff in Hlast.
      assert (Hle : Qle_bool (value_at st (num_points_ st - 1)) (value_at st lo) = true).
      { apply Qle_bool_iff. rewrite (Heq lo Hlo), (Heq (num_points_ st - 1)) by lia.
        apply Qle_refl. }
      congruence. }
    simpl.
    rewrite (iteration_eq f EPSILON_ function_tol_ MAX_ITERS_ st _ _ _
               Hrect Hrank Hlo Hhi Hnh).
    unfold round. rewrite spread_equal; [reflexivity| |exact Htol].
    rewrite (Heq hi Hhi), (Heq (num_points_ st - 1)) by lia. reflexivity. }
  split; [apply Hstate|].
  intros c initial_simplex fuel Hlen Hall.
  destruct (initialize_square (fun _ => c) initial_simplex ltac:(lia) Hall)
    as (Hinit & Hrect & Hpaired).
  unfold minimize. rewrite Hinit. cbn [mbind result_bind].
  rewrite Hstate; [|exact Hrect|exact Hlen|].
  - eexists. split; [reflexivity|].
    cbn [swapped_to_front simplex_mins func_min_ final num_points_ simplex_ num_evals_
         evaluated set_simplex_ set_func_vals_].
    destruct (lookup_lt_is_Some_2 initial_simplex (length initial_simplex - 1) ltac:(lia))
      as [p Hp].
    split; [|split; [|split; reflexivity]].
    + rewrite last_lookup, Hp.
      replace (Init.Nat.pred (length initial_simplex)) with (length initial_simplex - 1)
        by lia.
      rewrite Hp. reflexivity.
    + unfold value_at. cbn [func_vals_]. rewrite list_lookup_fmap, Hp. reflexivity.
  - intros k Hk. cbn [num_points_] in Hk. unfold value_at. cbn [func_vals_].
    rewrite !list_lookup_fmap.
    destruct (lookup_lt_is_Some_2 initial_simplex k Hk) as [p ->].
    destruct (lookup_lt_is_Some_2 initial_simplex 0 ltac:(lia)) as [q ->].
    reflexivity.
Qed.

End EqualValues.

(** ** The ranking pass, whatever the values *)

Section Ranking.
Context {D : Type} `{DoubleOps D}.

(** X16.  The ranking pass of lines 70-87 stays inside [func_vals_]
    whatever the values are, NaN included: over two values or more it ends
    with three indices of values, and over fewer than two it reads
    [func_vals_[1]], or [func_vals_[0]], where there is none. *)
Theorem ranking_stays_in_range (st : state D) :
  length (func_vals_ st) = num_points_ st ->
  (2 <= num_points_ st ->
   exists index_low index_high index_next_high,
     rank st = Ok (index_low, index_high, index_next_high) /\
     index_low < num_points_ st /\ index_high < num_points_ st /\
     index_next_high < num_points_ st) /\
  (num_points_ st < 2 -> rank st = Undefined).
Proof.
  intros Hlen. split; [apply rank_in_range, Hlen | apply rank_short, Hlen].
Qed.

End Ranking.

(** ** An objective that is NaN, an index that is no vertex *)

Section NaNObjective.
Variable objective_function : list float -> float.
Variable EPSILON_ : float.
Variable function_tol_ : float.
Variable MAX_ITERS_ : nat.

(** X17.  An objective that is NaN everywhere never makes [minimize]
    return: on a square simplex of two rows or more the run makes its moves
    until the counter has reached [MAX_ITERS_], and throws. *)
Theorem nan_objective_throws (initial_simplex : list (list float)) (fuel : nat) :
  (forall p, PrimFloat.is_nan (objective_function p) = true) ->
  2 <= length initial_simplex ->
  Forall (fun p => length p = length initial_simplex) initial_simplex ->
  MAX_ITERS_ < fuel ->
  minimize objective_function EPSILON_ function_tol_ MAX_ITERS_ fuel initial_simplex
  = Throw MaxIterationsExceeded.
Proof.
  intros Hnan Hlen Hall Hfuel.
  destruct (initialize_square objective_function initial_simplex ltac:(lia) Hall)
    as (Hinit & Hrect & Hpaired).
  unfold minimize. rewrite Hinit. cbn [mbind result_bind].
  destruct (iterate_ends objective_function EPSILON_ function_tol_ MAX_ITERS_ fuel _
              Hrect Hlen ltac:(simpl; lia)) as [[m Hm] | Hthrow]; [|exact Hthrow].
  exfalso.
  edestruct (iterate_Ok_rel objective_function EPSILON_ function_tol_ MAX_ITERS_
    (fun st st' => paired objective_function st -> paired objective_function st'))
    as (st' & lo & hi & nh & HR & Hrect' & _ & _ & _ & Hhi & _ & Htol & _);
    [| |exact Hrect|exact Hm|].
  - intros s _ Hs. exact Hs.
  - intros s lo hi nh s'' Hr _ _ Hlo Hhi _ HR Hs.
    apply HR. apply (move_frame objective_function dleb lo hi nh s Hr Hlo Hhi), Hs.
  - specialize (HR Hpaired).
    assert (Hvalue : PrimFloat.is_nan (value_at st' hi) = true).
    { destruct Hrect' as (Hrows & _).
      destruct (lookup_lt_is_Some_2 (simplex_ st') hi ltac:(lia)) as [p Hp].
      unfold value_at. rewrite HR, list_lookup_fmap, Hp. apply Hnan. }
    unfold spread in Htol.
    change (dltb ?x function_tol_) with (PrimFloat.ltb x function_tol_) in Htol.
    rewrite (ltb_nan _ function_tol_ (spread_nan EPSILON_ _ _ (or_introl Hvalue))) in Htol.
    discriminate.
Qed.

End NaNObjective.

Section ReflectIndex.
Context {D : Type} `{DoubleOps D}.
Variable objective_function : list D -> D.

(** X18.  [reflect] does not check the index of the vertex it is to move:
    with an index that is not one of the [num_points_] vertices of a
    rectangular state it reads outside the simplex, or outside the values
    when there are no coordinates to read. *)
Theorem reflect_index_unchecked (st : state D) (index_worst : nat) (factor : D) :
  rectangular st -> num_points_ st <= index_worst ->
  reflect objective_function st index_worst factor = Undefined.
Proof.
  intros (Hrows & Hcols & Hvals & Hsums) Hiw. unfold reflect, reflect_point.
  destruct (num_dimensions_ st) as [|n] eqn:En.
  - simpl. rewrite load_ge by lia. reflexivity.
  - simpl.
    destruct (lookup_lt_is_Some_2 (simplex_sums st) 0 ltac:(lia)) as [s Hs].
    rewrite (bind_Ok _ _ _ (load_Some _ _ _ Hs)).
    rewrite (load_ge index_worst (simplex_ st)) by lia. reflexivity.
Qed.

End ReflectIndex.

(** * Concrete runs, continued *)

Lemma square_start_paired : paired bowl square_start.
Proof. unfold paired. vm_compute. reflexivity. Qed.

Lemma square_start_Q_rectangular : rectangular square_start_Q.
Proof. repeat split; repeat constructor. Qed.

Lemma square_nan_rectangular : rectangular square_nan.
Proof. repeat split; repeat constructor. Qed.

Lemma square_start_Q_cached : sums_cached square_start_Q.
Proof.
  intros j Hj. simpl in Hj.
  destruct j as [|[|j]]; [vm_compute; reflexivity | vm_compute; reflexivity | lia].
Qed.

(** ** C4 *)

(** C4 fails on the code.  In the state [minimize] starts its loop from on
    [[0, 0], [1, 0]], the centroid of the vertices other than [(0, 0)] is
    [(1, 0)], and the mirror image of [(0, 0)] through it is [(2, 0)]; the
    trial point of [reflect] with factor -1 is [(1, 0)], in exact arithmetic
    and in binary64. *)
Lemma reflect_misses_the_centroid_witness :
  initialize bowl square_simplex_Q = Ok square_start_Q /\
  (centroid_without 0 (simplex_ square_start_Q) 0 == 1)%Q /\
  (nth 0 (trial_of 0 (-1)%Q square_start_Q) 0 == 1)%Q /\
  ~ (nth 0 (trial_of 0 (-1)%Q square_start_Q) 0
     == (1 - (-1)) * centroid_without 0 (simplex_ square_start_Q) 0
        + (-1) * nth 0 (default [] (simplex_ square_start_Q !! 0%nat)) 0)%Q /\
  initialize bowl square_simplex = Ok square_start /\
  reflect_point square_start 0 d_minus_one = Ok [1; 0]%float.
Proof.
  destruct (reflect_misses_the_centroid bowl 0%Q 0%Q 0) as (_ & _ & _ & _ & Hformula).
  destruct (Hformula square_start_Q 0 0 (-1)%Q) as (_ & _ & Hiff).
  - exact square_start_Q_rectangular.
  - reflexivity.
  - exact square_start_Q_cached.
  - simpl. lia.
  - simpl. lia.
  - simpl. lia.
  - split; [vm_compute; reflexivity|]. split; [vm_compute; reflexivity|].
    split; [vm_compute; reflexivity|]. split.
    + intros E. apply Hiff in E. destruct E as [E|E]; vm_compute in E; discriminate.
    + split; vm_compute; reflexivity.
Defined.

Lemma square_run_ends_witness :
  minimize bowl 0x1p-33%float 0.5%float 100 101 square_simplex ≠ Undefined /\
  ((exists m, minimize bowl 0x1p-33%float 0.5%float 100 101 square_simplex = Ok m) \/
   minimize bowl 0x1p-33%float 0.5%float 100 101 square_simplex
   = Throw MaxIterationsExceeded).
Proof.
  destruct (square_run_ends bowl 0x1p-33%float 0.5%float 100 square_simplex)
    as (Hsafe & Hends & _).
  - simpl. lia.
  - repeat constructor.
  - split; [apply Hsafe | apply Hends; lia].
Defined.

(** [lone_row] is outside the domain, [ragged_simplex] inside. *)
Lemma initialization_domain_witness :
  initialize flat lone_row = Undefined /\
  exists st, initialize flat ragged_simplex = Ok st.
Proof.
  split.
  - destruct (initialization_domain flat lone_row) as [_ Hout]. apply Hout.
    intros (p_0 & Hp0 & Hrows & _). injection Hp0 as <-. simpl in Hrows. lia.
  - destruct (initialization_domain flat ragged_simplex) as [[_ Hin] _]. apply Hin.
    exists [1; 2]%float. split; [reflexivity|]. split; [simpl; lia|].
    intros i p Hi Hp. simpl in Hi.
    destruct i as [|[|i]]; [| |lia]; injection Hp as <-; simpl; lia.
Defined.

Lemma first_row_must_match_witness :
  minimize bowl 0x1p-33%float 0.5%float 100 1 lone_row = Undefined.
Proof.
  apply (first_row_must_match bowl 0x1p-33%float 0.5%float 100 lone_row [1; 2; 3]%float 0).
  - reflexivity.
  - right. simpl. lia.
Defined.

Lemma round_keeps_shape_witness :
  exists st',
    iteration bowl 0x1p-33%float 0.5%float 100 square_start = Ok (Continue st') /\
    rectangular st' /\ paired bowl st' /\
    num_evals_ square_start < num_evals_ st'.
Proof.
  destruct (iteration bowl 0x1p-33%float 0.5%float 100 square_start)
    as [[m|st']| | |] eqn:Hround; try (vm_compute in Hround; discriminate).
  exists st'. split; [reflexivity|].
  destruct (round_keeps_shape bowl 0x1p-33%float 0.5%float 100 square_start st'
              square_start_rectangular Hround)
    as (Hrect & _ & _ & Hpaired & _ & Hcounter & _).
  split; [exact Hrect|]. split; [apply Hpaired, square_start_paired | lia].
Defined.

Lemma counter_counts_calls_witness :
  exists m,
    iterate bowl 0x1p-33%float 0.5%float 100 5 square_start = Ok m /\
    calls_between square_start (final m) <= charged_between square_start (final m).
Proof.
  destruct (iterate bowl 0x1p-33%float 0.5%float 100 5 square_start)
    as [m| | |] eqn:Hm; try (vm_compute in Hm; discriminate).
  exists m. split; [reflexivity|].
  destruct (counter_counts_calls bowl 0x1p-33%float 0.5%float 100 5 square_start m
              square_start_rectangular Hm) as (_ & _ & Hmost & _).
  apply Hmost. simpl. lia.
Defined.

Lemma move_keeps_best_witness :
  exists st',
    geometric_operator bowl 1 0 1 square_start = Ok st' /\
    simplex_ st' !! 1 = Some [1; 0]%float /\
    func_vals_ st' !! 1 = Some 5%float.
Proof.
  destruct (move_keeps_best bowl square_start 1 0 1) as (st' & Hrun & Hs & Hv).
  - exact square_start_rectangular.
  - simpl. lia.
  - simpl. lia.
  - simpl. lia.
  - lia.
  - exists st'. split; [exact Hrun|].
    split; [rewrite Hs | rewrite Hv]; reflexivity.
Defined.

Lemma return_only_reorders_witness :
  exists m,
    converged 1 square_start = Ok m /\
    simplex_ (final m) ≡ₚ simplex_ square_start /\
    evaluated (final m) = evaluated square_start.
Proof.
  destruct (return_only_reorders bowl square_start 1)
    as (m & Hrun & Hs & _ & _ & _ & _ & _ & _ & Hlog).
  - exact square_start_rectangular.
  - simpl. lia.
  - exists m. split; [exact Hrun|]. split; [exact Hs | exact Hlog].
Defined.

Lemma returned_state_well_formed_witness :
  exists m,
    iterate bowl 0x1p-33%float 0.5%float 100 5 square_start = Ok m /\
    rectangular (final m) /\ paired bowl (final m) /\ length (simplex_mins m) = 2.
Proof.
  destruct (iterate bowl 0x1p-33%float 0.5%float 100 5 square_start)
    as [m| | |] eqn:Hm; try (vm_compute in Hm; discriminate).
  exists m. split; [reflexivity|].
  destruct (returned_state_well_formed bowl 0x1p-33%float 0.5%float 100 5 square_start m
              square_start_rectangular square_start_paired Hm)
    as (Hrect & Hpaired & _ & _ & Hlen & _).
  split; [exact Hrect|]. split; [exact Hpaired | exact Hlen].
Defined.

Lemma reflect_never_worsens_witness :
  exists value st',
    reflect bowl square_start 0 d_minus_one = Ok (value, st') /\
    dleb (value_at st' 0) 10%float = true.
Proof.
  destruct (reflect_never_worsens bowl square_start 0 d_minus_one)
    as (value & st' & Hrun & Hle & _).
  - exact square_start_rectangular.
  - simpl. lia.
  - repeat constructor.
  - vm_compute. reflexivity.
  - exists value, st'. split; [exact Hrun|]. apply (Hle 0). simpl. lia.
Defined.

Lemma result_no_worse_than_start_witness :
  exists m,
    minimize bowl (1 # 1000)%Q (1 # 2)%Q 100 5 square_simplex_Q = Ok m /\
    dleb (func_min_ m) (bowl [0; 0]%Q) = true.
Proof.
  destruct (result_no_worse_than_start (D := Q) bowl (1 # 1000)%Q (1 # 2)%Q 100)
    as (_ & Hrun).
  - intros p. exact I.
  - destruct (minimize bowl (1 # 1000)%Q (1 # 2)%Q 100 5 square_simplex_Q)
      as [m| | |] eqn:Hm; try (vm_compute in Hm; discriminate).
    exists m. split; [reflexivity|].
    apply (Hrun 5 square_simplex_Q m); [simpl; lia | repeat constructor | exact Hm |].
    constructor.
Defined.

Lemma build_simplex_result_witness :
  build_simplex [0; 0]%float [1; 1]%float = Ok [[0; 0]; [1; 0]; [0; 1]]%float.
Proof.
  destruct (build_simplex_result [0; 0]%float [1; 1]%float) as (Hok & _).
  rewrite Hok by (simpl; lia). vm_compute. reflexivity.
Defined.

Lemma point_overloads_overrun_witness :
  minimize_delta bowl 0x1p-33%float 0.5%float 100 1 [0; 0]%float 1%float = Undefined.
Proof.
  destruct (point_overloads_overrun bowl 0x1p-33%float 0.5%float 100 0 [0; 0]%float)
    as (_ & Hdelta).
  apply Hdelta.
Defined.

Lemma sums_stay_cached_witness :
  exists value st',
    reflect bowl square_start_Q 0 (-1)%Q = Ok (value, st') /\ sums_cached st'.
Proof.
  destruct (reflect bowl square_start_Q 0 (-1)%Q) as [[value st']| | |] eqn:Hrun;
    try (vm_compute in Hrun; discriminate).
  exists value, st'. split; [reflexivity|].
  destruct (sums_stay_cached bowl 0%Q 0%Q 0) as (_ & Hreflect & _).
  apply (Hreflect square_start_Q 0 (-1)%Q value st').
  - exact square_start_Q_rectangular.
  - simpl. lia.
  - intros j Hj. simpl in Hj.
    destruct j as [|[|j]]; [vm_compute; reflexivity | vm_compute; reflexivity | lia].
  - exact Hrun.
Defined.

(** With [MAX_ITERS_ = 0] the round of a state whose best value is NaN
    throws. *)
Lemma nan_value_never_returns_witness :
  iteration bowl 0x1p-33%float 0.5%float 0 square_nan = Throw MaxIterationsExceeded.
Proof.
  rewrite (nan_value_never_returns bowl 0x1p-33%float 0.5%float 0 square_nan 0 1 0).
  - reflexivity.
  - exact square_nan_rectangular.
  - vm_compute. reflexivity.
  - right. reflexivity.
Defined.

Lemma equal_values_return_at_once_witness :
  exists m,
    minimize (fun _ => 5%Q) (1 # 1000)%Q (1 # 2)%Q 100 1 square_simplex_Q = Ok m /\
    simplex_mins m = [1; 0]%Q /\ num_evals_ (final m) = 0.
Proof.
  destruct (equal_values_return_at_once bowl (1 # 1000)%Q (1 # 2)%Q 100)
    as (_ & _ & Hrun).
  - reflexivity.
  - reflexivity.
  - destruct (Hrun 5%Q square_simplex_Q 0) as (m & Hm & Hlast & _ & Hev & _).
    + simpl. lia.
    + repeat constructor.
    + exists m. split; [exact Hm|]. split; [|exact Hev].
      simpl in Hlast. injection Hlast as Hlast. exact Hlast.
Defined.

Lemma ranking_stays_in_range_witness :
  exists index_low index_high index_next_high,
    rank four_values = Ok (index_low, index_high, index_next_high) /\ index_low < 4.
Proof.
  destruct (ranking_stays_in_range four_values) as (Hin & _).
  - reflexivity.
  - destruct Hin as (lo & hi & nh & Hrank & Hlo & _); [simpl; lia|].
    exists lo, hi, nh. split; [exact Hrank | exact Hlo].
Defined.

Lemma nan_objective_throws_witness :
  minimize (fun _ => nan) 0x1p-33%float 0.5%float 3 4 square_simplex
  = Throw MaxIterationsExceeded.
Proof.
  apply (nan_objective_throws (fun _ => nan) 0x1p-33%float 0.5%float 3 square_simplex 4).
  - intros p. reflexivity.
  - simpl. lia.
  - repeat constructor.
  - lia.
Defined.

Lemma reflect_index_unchecked_witness :
  reflect bowl square_start 2 d_minus_one = Undefined.
Proof.
  apply (reflect_index_unchecked bowl square_start 2 d_minus_one).
  - exact square_start_rectangular.
  - simpl. lia.
Defined.
